(** * ManhwaVerse reading client: persistent store, chapter navigation,
      pagination, image loading and the quick/full homepage load

    A shallow embedding of [StorageManager] (the storage class that ends
    the UI-components script) and of the reader and homepage functions of
    [assets/js/main.js]; then of the bookmark, history and notification
    methods of [UIComponents], of the session and form functions of the
    authentication script, and of the legacy infinite scroll, the reading
    entries, the live search and the titles and ratings of
    [assets/js/main.js].

    Conventions of the embedding:
    - a value read from or written to [localStorage] is a JSON value
      ([Js.Value]); [undefined] is [None : option Value];
    - a JS object used as a record or dictionary is a finite map of its own
      properties; the prototype chain is not modelled, and
      [Object.prototype] is taken as the language defines it: a theorem
      about a property name chosen by the caller assumes the name is none
      of [Js.Object_prototype];
    - numbers are the integers the code stores (counters and [0]);
    - an exception is the [Throw] outcome of a computation; [try]/[catch]
      is [try_catch];
    - the clock is an input: a function that calls
      [new Date().toISOString()] takes the ISO-8601 string it reads;
    - a string whose length, code units or match against a pattern matter
      is the list of its UTF-16 code units;
    - an [async] function is cut at its [await]: [f_send] runs up to the
      request, [f_receive] from the outcome of the request on. *)

From Stdlib Require Import ZArith String Ascii Sorted.
From stdpp Require Import base option list gmap strings pretty sorting.
From Equations Require Import Equations.

Set Warnings "-register-all".

(* ===================================================================== *)
(** ** JavaScript values and exceptions *)
(* ===================================================================== *)

Module Js.

Inductive Value : Type :=
| VNull
| VBool (b : bool)
| VNum (z : Z)
| VStr (s : string)
| VArr (l : list Value)
| VObj (m : gmap string Value).

Inductive Error : Type :=
| SecurityError
| QuotaExceededError
| SyntaxError
| TypeError
| RangeError
| ReferenceError
| ApiError.

Inductive Result (A : Type) : Type :=
| Ok (a : A)
| Throw (e : Error).

Arguments Ok {A} a.
Arguments Throw {A} e.

#[global] Instance Result_ret : MRet Result := λ A a, Ok a.

#[global] Instance Result_bind : MBind Result := λ A B f r,
  match r with
  | Ok a => f a
  | Throw e => Throw e
  end.

(** ToBoolean: [null], [false], [0] and the empty string are falsy;
    arrays and objects are truthy even when empty. *)
Definition truthy (v : Value) : bool :=
  match v with
  | VNull => false
  | VBool b => b
  | VNum z => negb (z =? 0)%Z
  | VStr s => negb (String.eqb s EmptyString)
  | VArr _ => true
  | VObj _ => true
  end.

(** ToBoolean of a possibly [undefined] value. *)
Definition truthy_opt (o : option Value) : bool :=
  match o with
  | Some v => truthy v
  | None => false
  end.

(** [a || b] on values. *)
Definition or_else (a b : Value) : Value := if truthy a then a else b.

(** [a || b] where both sides are strings or [undefined]. *)
Definition or_string (a b : option string) : option string :=
  match a with
  | Some s => if String.eqb s EmptyString then b else a
  | None => b
  end.

(** [a || 'literal']. *)
Definition or_literal (a : option string) (d : string) : string :=
  match a with
  | Some s => if String.eqb s EmptyString then d else s
  | None => d
  end.

(** [x === s] for a string [s]: same type and same characters. *)
Definition strict_eq_string (o : option Value) (s : string) : bool :=
  match o with
  | Some (VStr s') => String.eqb s' s
  | _ => false
  end.

Definition digit_of (a : ascii) : option N :=
  let n := N_of_ascii a in
  if ((48 <=? n) && (n <=? 57))%N then Some (n - 48)%N else None.

Fixpoint parse_digits (s : string) (acc : N) : option N :=
  match s with
  | EmptyString => Some acc
  | String a s' =>
      match digit_of a with
      | Some d => parse_digits s' (10 * acc + d)%N
      | None => None
      end
  end.

(** A property key is an array index when it is the canonical decimal
    form of an integer below 2^32 - 1. *)
Definition array_index (k : string) : option nat :=
  match k with
  | EmptyString => None
  | String a rest =>
      if Ascii.eqb a "0" && negb (String.eqb rest EmptyString) then None
      else match parse_digits k 0 with
           | Some n => if (n <? 4294967295)%N then Some (N.to_nat n) else None
           | None => None
           end
  end.

Definition chars (s : string) : list Value :=
  (λ a, VStr (String a EmptyString)) <$> list_ascii_of_string s.

(** Own properties of an array or of a string seen as an object. *)
Definition indexed (l : list Value) (k : string) : option Value :=
  match array_index k with
  | Some i => l !! i
  | None => if String.eqb k "length" then Some (VNum (Z.of_nat (length l))) else None
  end.

(** The property names every object inherits from [Object.prototype].
    [prop] and [put] below read and write own properties: they are exact
    for every key that is not one of these names, which covers the keys
    the scripts write in their text ([id], [status], [title],
    [totalChapters], ...).  For a key chosen by the caller (the title in
    [progress[mangaTitle]]) that is one of them, a read finds the
    inherited value when the object has no such property of its own, and
    an assignment to [__proto__] sets the prototype instead of a
    property; the theorems about such a key assume it is none of these
    names. *)
Definition Object_prototype : list string :=
  ["constructor"; "__defineGetter__"; "__defineSetter__"; "hasOwnProperty";
   "__lookupGetter__"; "__lookupSetter__"; "isPrototypeOf"; "propertyIsEnumerable";
   "toString"; "valueOf"; "__proto__"; "toLocaleString"].

(** Property read [v.k] or [v[k]] of an own property: reading a property
    of [null] raises a TypeError; numbers and booleans have no own
    properties. *)
Definition prop (v : Value) (k : string) : Result (option Value) :=
  match v with
  | VNull => Throw TypeError
  | VObj m => Ok (m !! k)
  | VArr l => Ok (indexed l k)
  | VStr s => Ok (indexed (chars s) k)
  | VBool _ => Ok None
  | VNum _ => Ok None
  end.

(** Optional chaining [o?.k] on a possibly [undefined] value. *)
Definition opt_prop (o : option Value) (k : string) : option Value :=
  match o with
  | Some v =>
      match prop v k with
      | Ok r => r
      | Throw _ => None
      end
  | None => None
  end.

(** Property write [v[k] = x] in strict code (class bodies are strict),
    for a key other than [__proto__].  On an object the property is set.  On an array an index writes the
    element, growing the array with holes (serialized as [null]) when
    needed; [length] cannot be set to an object; any other key becomes a
    property that JSON.stringify does not serialize.  Writing to a
    primitive raises a TypeError. *)
Definition put (v : Value) (k : string) (x : Value) : Result Value :=
  match v with
  | VObj m => Ok (VObj (<[k := x]> m))
  | VArr l =>
      match array_index k with
      | Some i =>
          if decide (i < length l)%nat then Ok (VArr (<[i := x]> l))
          else Ok (VArr (l ++ replicate (i - length l) VNull ++ [x]))
      | None => if String.eqb k "length" then Throw RangeError else Ok (VArr l)
      end
  | _ => Throw TypeError
  end.

(** Receiver of an array method ([findIndex], [filter], [some], [find]):
    any other value has no such method and the call raises a TypeError. *)
Definition as_array (v : Value) : Result (list Value) :=
  match v with
  | VArr l => Ok l
  | _ => Throw TypeError
  end.

(** [Array.prototype.findIndex]: index of the first element the callback
    accepts, [-1] when there is none. *)
Fixpoint findIndex_from {A : Type} (p : A → Result bool) (l : list A) (i : Z) : Result Z :=
  match l with
  | [] => Ok (-1)%Z
  | x :: l' =>
      b ← p x;
      if b : bool then Ok i else findIndex_from p l' (i + 1)%Z
  end.

Definition findIndex {A : Type} (p : A → Result bool) (l : list A) : Result Z :=
  findIndex_from p l 0%Z.

(** [Array.prototype.filter] with a callback that may raise. *)
Fixpoint filterR {A : Type} (p : A → Result bool) (l : list A) : Result (list A) :=
  match l with
  | [] => Ok []
  | x :: l' =>
      b ← p x;
      r ← filterR p l';
      Ok (if b : bool then x :: r else r)
  end.

(** An object literal; a field whose value is [undefined] is dropped by
    JSON.stringify and is left out. *)
Definition object (fields : list (string * option Value)) : Value :=
  VObj (list_to_map (omap (λ f, (λ v, (f.1, v)) <$> f.2) fields)).

(** Own enumerable properties copied by the spread [{...v}]. *)
Definition spread (v : option Value) : gmap string Value :=
  match v with
  | Some (VObj m) => m
  | Some (VArr l) => list_to_map (imap (λ i x, (pretty i, x)) l)
  | Some (VStr s) => list_to_map (imap (λ i x, (pretty i, x)) (chars s))
  | _ => ∅
  end.

(** [{...a, ...b}]: the properties of [b] override those of [a]. *)
Definition spread2 (a b : option Value) : Value := VObj (spread b ∪ spread a).

End Js.

Import Js.

(* ===================================================================== *)
(** ** The browser's [localStorage] *)
(* ===================================================================== *)

Module WebStorage.

(** What a key holds: text that JSON.parse reads back as [v], or text it
    rejects (the empty string included, which [get] maps to [null] before
    parsing).  [setItem] stores [JSON.stringify value], kept as the value
    it parses back to. *)
Inductive Stored : Type :=
| Parsed (v : Value)
| Malformed.

Abbreviation LocalStorage := (gmap string Stored).

(** The ways the storage of the page can fail: access to [localStorage]
    raises a SecurityError when storage is blocked, and [setItem] raises a
    QuotaExceededError when the quota rejects the write. *)
Class Browser : Type := {
  storage_blocked : bool;
  quota_exceeded : LocalStorage → string → Value → bool
}.

(** Computations over [localStorage] that may raise: the storage reached
    so far is kept when an exception propagates. *)
Definition M (A : Type) : Type := LocalStorage → Result A * LocalStorage.

#[global] Instance M_ret : MRet M := λ A a ls, (Ok a, ls).

#[global] Instance M_bind : MBind M := λ A B f m ls,
  match m ls with
  | (Ok a, ls') => f a ls'
  | (Throw e, ls') => (Throw e, ls')
  end.

Definition lift {A : Type} (r : Result A) : M A := λ ls, (r, ls).

(** [try { body } catch (error) { handler }]. *)
Definition try_catch {A : Type} (body : M A) (handler : Error → M A) : M A := λ ls,
  match body ls with
  | (Ok a, ls') => (Ok a, ls')
  | (Throw e, ls') => handler e ls'
  end.

(** [if (c) body;] with the value of [body] discarded. *)
Definition when {A : Type} (c : bool) (body : M A) : M unit :=
  if c then body ≫= λ _, mret () else mret ().

Definition getItem `{Browser} (key : string) : M (option Stored) := λ ls,
  if storage_blocked then (Throw SecurityError, ls) else (Ok (ls !! key), ls).

Definition setItem `{Browser} (key : string) (value : Value) : M unit := λ ls,
  if storage_blocked then (Throw SecurityError, ls)
  else if quota_exceeded ls key value then (Throw QuotaExceededError, ls)
  else (Ok (), <[key := Parsed value]> ls).

Definition removeItem `{Browser} (key : string) : M unit := λ ls,
  if storage_blocked then (Throw SecurityError, ls) else (Ok (), delete key ls).

Definition JSON_parse (item : Stored) : Result Value :=
  match item with
  | Parsed v => Ok v
  | Malformed => Throw SyntaxError
  end.

End WebStorage.

Import WebStorage.

(* ===================================================================== *)
(** ** [class StorageManager] *)
(* ===================================================================== *)

Module StorageManager.

(** [this.keys]. *)
Definition keys_readingHistory : string := "manhwa_reading_history".
Definition keys_bookmarks : string := "manhwa_bookmarks".
Definition keys_readingProgress : string := "manhwa_reading_progress".
Definition keys_userPreferences : string := "manhwa_user_preferences".

(** The catalog entry handed to the store ([mangaData]). *)
Record MangaData : Type := {
  md_title : string;
  md_cover_image : option string;
  md_cover_url : option string;
  md_detail_url : option string;
  md_source : option string
}.

(** The chapter handed to the store ([chapterData]). *)
Record ChapterData : Type := {
  cd_title : string;
  cd_url : option string
}.

Definition get `{Browser} (key : string) : M Value :=
  try_catch
    (item ← getItem key;
     match item with
     | Some text => lift (JSON_parse text)
     | None => mret VNull
     end)
    (λ _, mret VNull).

Definition set `{Browser} (key : string) (value : Value) : M bool :=
  try_catch (setItem key value;; mret true) (λ _, mret false).

Definition default_preferences : Value :=
  object [("theme", Some (VStr "dark")); ("readingMode", Some (VStr "long-strip"));
          ("autoScroll", Some (VBool false)); ("fontSize", Some (VStr "medium"))].

Definition init `{Browser} : M unit :=
  h ← get keys_readingHistory;
  when (negb (truthy h)) (set keys_readingHistory (VArr []));;
  b ← get keys_bookmarks;
  when (negb (truthy b)) (set keys_bookmarks (VArr []));;
  p ← get keys_readingProgress;
  when (negb (truthy p)) (set keys_readingProgress (VObj ∅));;
  u ← get keys_userPreferences;
  when (negb (truthy u)) (set keys_userPreferences default_preferences).

(** [new StorageManager()]: the constructor only runs [init]. *)
Definition constructor `{Browser} : M unit := init.

(** The callback [item => item.id === id]. *)
Definition id_is (id : string) (item : Value) : Result bool :=
  o ← prop item "id";
  Ok (strict_eq_string o id).

(** The callback [item => item.id !== id]. *)
Definition id_is_not (id : string) (item : Value) : Result bool :=
  o ← prop item "id";
  Ok (negb (strict_eq_string o id)).

Definition updateReadingProgress `{Browser} (mangaTitle chapterTitle now : string) : M unit :=
  stored ← get keys_readingProgress;
  let progress := or_else stored (VObj ∅) in
  old ← lift (prop progress mangaTitle);
  let total := opt_prop old "totalChapters" in
  let record :=
    object [("lastChapter", Some (VStr chapterTitle));
            ("lastReadAt", Some (VStr now));
            ("totalChapters", Some (if truthy_opt total then default VNull total else VNum 0))] in
  progress' ← lift (put progress mangaTitle record);
  set keys_readingProgress progress';;
  mret ().

Definition history_id (mangaData : MangaData) (chapterData : ChapterData) : string :=
  md_title mangaData +:+ "_" +:+ cd_title chapterData.

Definition historyItem (mangaData : MangaData) (chapterData : ChapterData) (now : string) : Value :=
  object [("id", Some (VStr (history_id mangaData chapterData)));
          ("mangaTitle", Some (VStr (md_title mangaData)));
          ("mangaCover", VStr <$> or_string (md_cover_image mangaData) (md_cover_url mangaData));
          ("mangaUrl", VStr <$> md_detail_url mangaData);
          ("chapterTitle", Some (VStr (cd_title chapterData)));
          ("chapterUrl", VStr <$> cd_url chapterData);
          ("readAt", Some (VStr now));
          ("source", Some (VStr (or_literal (md_source mangaData) "AsuraScanz")))].

(** The list edits of [addToHistory]: splice out the entry found, unshift
    the new one, cut after 100. *)
Definition history_update (existingIndex : Z) (item : Value) (history : list Value) : list Value :=
  let spliced :=
    if bool_decide (existingIndex ≠ (-1)%Z) then delete (Z.to_nat existingIndex) history
    else history in
  let unshifted := item :: spliced in
  if bool_decide (100 < length unshifted)%nat then take 100 unshifted else unshifted.

(** [now] is the clock read for [readAt], [now'] the one read by
    [updateReadingProgress]. *)
Definition addToHistory `{Browser} (mangaData : MangaData) (chapterData : ChapterData)
    (now now' : string) : M Value :=
  stored ← get keys_readingHistory;
  let history := or_else stored (VArr []) in
  let item := historyItem mangaData chapterData now in
  l ← lift (as_array history);
  existingIndex ← lift (findIndex (id_is (history_id mangaData chapterData)) l);
  set keys_readingHistory (VArr (history_update existingIndex item l));;
  updateReadingProgress (md_title mangaData) (cd_title chapterData) now';;
  mret item.

(** [Array.prototype.slice(0, limit)] and [String.prototype.slice(0, limit)]
    for a non-negative [limit]. *)
Definition slice0 (v : Value) (limit : nat) : Result Value :=
  match v with
  | VArr l => Ok (VArr (take limit l))
  | VStr s => Ok (VStr (String.substring 0 limit s))
  | _ => Throw TypeError
  end.

Definition getReadingHistory `{Browser} (limit : nat) : M Value :=
  stored ← get keys_readingHistory;
  lift (slice0 (or_else stored (VArr [])) limit).

Definition clearHistory `{Browser} : M unit :=
  set keys_readingHistory (VArr []);; mret ().

Definition bookmarkOf (mangaData : MangaData) (now : string) : Value :=
  object [("id", Some (VStr (md_title mangaData)));
          ("title", Some (VStr (md_title mangaData)));
          ("cover", VStr <$> or_string (md_cover_image mangaData) (md_cover_url mangaData));
          ("detailUrl", VStr <$> md_detail_url mangaData);
          ("addedAt", Some (VStr now));
          ("source", Some (VStr (or_literal (md_source mangaData) "AsuraScanz")));
          ("lastReadChapter", Some VNull);
          ("status", Some (VStr "reading"))].

Definition addBookmark `{Browser} (mangaData : MangaData) (now : string) : M Value :=
  stored ← get keys_bookmarks;
  let bookmarks := or_else stored (VArr []) in
  let bookmark := bookmarkOf mangaData now in
  l ← lift (as_array bookmarks);
  existingIndex ← lift (findIndex (id_is (md_title mangaData)) l);
  if bool_decide (existingIndex ≠ (-1)%Z) then mret (VBool false)
  else
    set keys_bookmarks (VArr (bookmark :: l));;
    mret bookmark.

Definition removeBookmark `{Browser} (mangaTitle : string) : M bool :=
  stored ← get keys_bookmarks;
  l ← lift (as_array (or_else stored (VArr [])));
  filteredBookmarks ← lift (filterR (id_is_not mangaTitle) l);
  set keys_bookmarks (VArr filteredBookmarks);;
  mret true.

Definition getBookmarks `{Browser} : M Value :=
  stored ← get keys_bookmarks;
  mret (or_else stored (VArr [])).

(** [bookmarks.some(item => item.id === mangaTitle)]. *)
Definition isBookmarked `{Browser} (mangaTitle : string) : M bool :=
  stored ← get keys_bookmarks;
  l ← lift (as_array (or_else stored (VArr [])));
  i ← lift (findIndex (id_is mangaTitle) l);
  mret (bool_decide (i ≠ (-1)%Z)).

(** [bookmarks.find(...)] returns the first matching element itself, so
    the assignment to [bookmark.status] edits the array in place. *)
Definition updateBookmarkStatus `{Browser} (mangaTitle status : string) : M bool :=
  stored ← get keys_bookmarks;
  l ← lift (as_array (or_else stored (VArr [])));
  i ← lift (findIndex (id_is mangaTitle) l);
  if bool_decide (i = (-1)%Z) then mret false
  else
    match l !! Z.to_nat i with
    | Some bookmark =>
        if truthy bookmark then
          bookmark' ← lift (put bookmark "status" (VStr status));
          set keys_bookmarks (VArr (<[Z.to_nat i := bookmark']> l));;
          mret true
        else mret false
    | None => mret false
    end.

Definition getReadingProgress `{Browser} (mangaTitle : string) : M Value :=
  stored ← get keys_readingProgress;
  record ← lift (prop (or_else stored (VObj ∅)) mangaTitle);
  mret (if truthy_opt record then default VNull record else VNull).

Definition getPreferences `{Browser} : M Value :=
  stored ← get keys_userPreferences;
  mret (or_else stored (VObj ∅)).

Definition updatePreferences `{Browser} (newPreferences : option Value) : M Value :=
  current ← getPreferences;
  let updated := spread2 (Some current) newPreferences in
  set keys_userPreferences updated;;
  mret updated.

Definition exportData `{Browser} (now : string) : M Value :=
  h ← get keys_readingHistory;
  b ← get keys_bookmarks;
  p ← get keys_readingProgress;
  u ← get keys_userPreferences;
  mret (object [("readingHistory", Some h); ("bookmarks", Some b);
                ("readingProgress", Some p); ("userPreferences", Some u);
                ("exportDate", Some (VStr now))]).

(** One line of [importData]: [if (data.k) this.set(key, data.k);]. *)
Definition import_category `{Browser} (data : Value) (k key : string) : M unit :=
  payload ← lift (prop data k);
  when (truthy_opt payload) (set key (default VNull payload)).

Definition importData `{Browser} (data : Value) : M bool :=
  try_catch
    (import_category data "readingHistory" keys_readingHistory;;
     import_category data "bookmarks" keys_bookmarks;;
     import_category data "readingProgress" keys_readingProgress;;
     import_category data "userPreferences" keys_userPreferences;;
     mret true)
    (λ _, mret false).

(** [Object.values(this.keys).forEach(key => localStorage.removeItem(key))]
    followed by [init]; the removals are outside any [try]. *)
Definition clearAllData `{Browser} : M unit :=
  removeItem keys_readingHistory;;
  removeItem keys_bookmarks;;
  removeItem keys_readingProgress;;
  removeItem keys_userPreferences;;
  init.

(** [setTotalChapters]: the record of the title is created when the
    dictionary has none (or a falsy value), then its [totalChapters] is
    assigned in place. *)
Definition setTotalChapters `{Browser} (mangaTitle : string) (totalChapters : Value) : M unit :=
  stored ← get keys_readingProgress;
  let progress := or_else stored (VObj ∅) in
  old ← lift (prop progress mangaTitle);
  progress' ←
    (if truthy_opt old then
       record ← lift (put (default VNull old) "totalChapters" totalChapters);
       lift (put progress mangaTitle record)
     else
       lift (put progress mangaTitle (VObj {["totalChapters" := totalChapters]})));
  set keys_readingProgress progress';;
  mret ().

End StorageManager.

(* ===================================================================== *)
(** ** [class UIComponents] *)
(* ===================================================================== *)

Module UIComponents.

Import StorageManager.

(** A notification shown in the page, by its type and message. *)
Record Notification : Type := {
  notification_type : string;
  notification_message : string
}.

(** The part of [showNotification] that runs during the call: the
    notifications of the same type are removed and the new one is
    appended to the body.  The timers that remove it later are not part
    of the call. *)
Definition showNotification (message type : string) (body : list Notification)
    : list Notification :=
  filter (λ n, notification_type n ≠ type) body
  ++ [{| notification_type := type; notification_message := message |}].

(** A bookmark button: its class list and the text of its
    [.bookmark-text] span. *)
Record BookmarkButton : Type := {
  button_classList : list string;
  bookmark_text : string
}.

Definition button_add (c : string) (button : BookmarkButton) : BookmarkButton :=
  {| button_classList :=
       if bool_decide (c ∈ button_classList button) then button_classList button
       else button_classList button ++ [c];
     bookmark_text := bookmark_text button |}.

Definition button_remove (c : string) (button : BookmarkButton) : BookmarkButton :=
  {| button_classList := filter (λ c', c' ≠ c) (button_classList button);
     bookmark_text := bookmark_text button |}.

Definition set_bookmark_text (t : string) (button : BookmarkButton) : BookmarkButton :=
  {| button_classList := button_classList button; bookmark_text := t |}.

(** [createBookmarkButton]: the button, and the container it was
    appended to when there is one. *)
Definition createBookmarkButton `{Browser} (mangaData : MangaData)
    (container : option (list BookmarkButton))
    : M (BookmarkButton * option (list BookmarkButton)) :=
  bookmarked ← isBookmarked (md_title mangaData);
  let button :=
    {| button_classList := if bookmarked : bool then ["bookmark-btn"; "bookmarked"]
                           else ["bookmark-btn"];
       bookmark_text := if bookmarked then "Bookmarked" else "Bookmark" |} in
  mret (button, (λ children, children ++ [button]) <$> container).

(** [toggleBookmark]; [now] is the clock [addBookmark] reads.  An
    exception can only leave the storage calls, which come before the
    button and the notifications are touched. *)
Definition toggleBookmark `{Browser} (mangaData : MangaData) (now : string)
    (button : BookmarkButton) (body : list Notification)
    : M (BookmarkButton * list Notification) :=
  bookmarked ← isBookmarked (md_title mangaData);
  if bookmarked : bool then
    removeBookmark (md_title mangaData);;
    mret (set_bookmark_text "Bookmark" (button_remove "bookmarked" button),
          showNotification "Removed from bookmarks" "success" body)
  else
    addBookmark mangaData now;;
    mret (set_bookmark_text "Bookmarked" (button_add "bookmarked" button),
          showNotification "Added to bookmarks" "success" body).

(** The history page: the entries its elements were created from, in
    the order displayed, and the notifications. *)
Record HistoryPage : Type := {
  history_elements : list Value;
  history_notifications : list Notification
}.

(** [removeHistoryItem(id, element)], [element] being the one at
    position [element] of the page. *)
Definition removeHistoryItem `{Browser} (id : string) (element : nat) (page : HistoryPage)
    : M HistoryPage :=
  stored ← get keys_readingHistory;
  history ← lift (as_array (or_else stored (VArr [])));
  filtered ← lift (filterR (id_is_not id) history);
  set keys_readingHistory (VArr filtered);;
  mret {| history_elements := delete element (history_elements page);
          history_notifications :=
            showNotification "Removed from history" "success" (history_notifications page) |}.

(** [formatTimeAgo].  [date] is the time value of [new Date(dateString)]
    in milliseconds, [None] when the string is not a date; [now] is the
    clock.  [toLocaleDateString] is the formatting of the locale. *)
Definition formatTimeAgo (toLocaleDateString : Z → string) (date : option Z) (now : Z)
    : string :=
  match date with
  | None => "Invalid Date"
  | Some d =>
      let diffInSeconds := ((now - d) / 1000)%Z in
      if (diffInSeconds <? 60)%Z then "Just now"
      else if (diffInSeconds <? 3600)%Z then pretty (diffInSeconds / 60)%Z +:+ "m ago"
      else if (diffInSeconds <? 86400)%Z then pretty (diffInSeconds / 3600)%Z +:+ "h ago"
      else if (diffInSeconds <? 2592000)%Z then pretty (diffInSeconds / 86400)%Z +:+ "d ago"
      else toLocaleDateString d
  end.

End UIComponents.

(* ===================================================================== *)
(** ** The authentication script: session *)
(* ===================================================================== *)

Module Auth.

(** A text held by [localStorage]: the serialization of a JSON value, or
    any other text, which JSON.parse rejects. *)
Inductive Text : Type :=
| Json (v : Value)
| Raw (s : string).

(** The three entries the authentication script uses, under
    [STORAGE_KEYS.USER], [STORAGE_KEYS.TOKEN] and [STORAGE_KEYS.REMEMBER];
    the token and the flag are never parsed and are kept as texts. *)
Record AuthStorage : Type := {
  USER : option Text;
  TOKEN : option string;
  REMEMBER : option string
}.

(** How the storage of the page can fail, as for [StorageManager]. *)
Class AuthBrowser : Type := {
  access_denied : bool;
  storage_full : AuthStorage → bool
}.

(** The module variables and the storage. *)
Record AuthState : Type := {
  currentUser : Value;
  authToken : option string;
  entries : AuthStorage
}.

(** A text is truthy unless it is empty. *)
Definition nonempty (t : option Text) : bool :=
  match t with
  | Some (Json _) => true
  | Some (Raw s) => negb (String.eqb s EmptyString)
  | None => false
  end.

Definition nonempty_string (t : option string) : bool :=
  match t with
  | Some s => negb (String.eqb s EmptyString)
  | None => false
  end.

(** [clearSession]: the removals come first and are outside any [try]. *)
Definition clearSession `{AuthBrowser} (st : AuthState) : Result AuthState :=
  if access_denied then Throw SecurityError
  else Ok {| currentUser := VNull; authToken := None;
             entries := {| USER := None; TOKEN := None; REMEMBER := None |} |}.

(** [initializeAuth].  Inside the [try], the parsed user is assigned,
    then the token, then [currentUser.username] is read for the log,
    which raises a TypeError when the stored text was [null]. *)
Definition initializeAuth `{AuthBrowser} (st : AuthState) : Result AuthState :=
  if access_denied then Throw SecurityError
  else
    let savedUser := USER (entries st) in
    let savedToken := TOKEN (entries st) in
    if nonempty savedUser && nonempty_string savedToken then
      match savedUser with
      | Some (Json user) =>
          match prop user "username" with
          | Ok _ => Ok {| currentUser := user; authToken := savedToken; entries := entries st |}
          | Throw _ =>
              clearSession {| currentUser := user; authToken := savedToken; entries := entries st |}
          end
      | _ => clearSession st
      end
    else Ok st.

(** One [localStorage.setItem] of [saveSession]. *)
Definition entry_write `{AuthBrowser} (update : AuthStorage → AuthStorage) (st : AuthState)
    : Result AuthState :=
  if access_denied then Throw SecurityError
  else if storage_full (update (entries st)) then Throw QuotaExceededError
  else Ok {| currentUser := currentUser st; authToken := authToken st;
             entries := update (entries st) |}.

(** [saveSession(remember)].  The three writes are outside any [try]:
    the state reached when one raises is the first component. *)
Definition saveSession `{AuthBrowser} (remember : bool) (st : AuthState)
    : AuthState * Result unit :=
  if truthy (currentUser st) && nonempty_string (authToken st) then
    match entry_write (λ e, {| USER := Some (Json (currentUser st)); TOKEN := TOKEN e;
                         REMEMBER := REMEMBER e |}) st with
    | Throw e => (st, Throw e)
    | Ok st1 =>
        match entry_write (λ e, {| USER := USER e; TOKEN := authToken st; REMEMBER := REMEMBER e |})
                    st1 with
        | Throw e => (st1, Throw e)
        | Ok st2 =>
            match entry_write (λ e, {| USER := USER e; TOKEN := TOKEN e;
                                 REMEMBER := Some (if remember then "true" else "false") |})
                        st2 with
            | Throw e => (st2, Throw e)
            | Ok st3 => (st3, Ok ())
            end
        end
    end
  else (st, Ok ()).

(** [verifyToken]: [response] is the outcome of the request, [Ok ok]
    with the [ok] flag of the answer or the exception of [fetch].  Its
    own [catch] turns every failure into [false]. *)
Definition verifyToken (response : Result bool) : Result bool :=
  match response with
  | Ok true => Ok true
  | Ok false => Ok false
  | Throw _ => Ok false
  end.

(** [checkExistingSession]: [clearSession] runs when the promise of
    [verifyToken] is rejected. *)
Definition checkExistingSession `{AuthBrowser} (response : Result bool) (st : AuthState)
    : Result AuthState :=
  if truthy (currentUser st) && nonempty_string (authToken st) then
    match verifyToken response with
    | Ok _ => Ok st
    | Throw _ => clearSession st
    end
  else Ok st.

(** [currentUser !== null && authToken !== null]. *)
Definition isAuthenticated (st : AuthState) : bool :=
  match currentUser st, authToken st with
  | VNull, _ => false
  | _, None => false
  | _, Some _ => true
  end.

(** The state of a page that has just loaded over a storage. *)
Definition page_load (e : AuthStorage) : AuthState :=
  {| currentUser := VNull; authToken := None; entries := e |}.

End Auth.

(* ===================================================================== *)
(** ** Regular expressions *)
(* ===================================================================== *)

Module RegExp.

(** Regular expressions over UTF-16 code units, as far as the patterns
    of the scripts need them: a character class, alternation, sequence
    and repetition. *)
Inductive Re : Type :=
| Never
| Epsilon
| Chr (p : Z → bool)
| Alt (r1 r2 : Re)
| Seq (r1 r2 : Re)
| Star (r : Re).

(** [r+]. *)
Definition Plus (r : Re) : Re := Seq r (Star r).

Fixpoint nullable (r : Re) : bool :=
  match r with
  | Never => false
  | Epsilon => true
  | Chr _ => false
  | Alt r1 r2 => nullable r1 || nullable r2
  | Seq r1 r2 => nullable r1 && nullable r2
  | Star _ => true
  end.

(** What is left of [r] to match once the unit [c] has been read. *)
Fixpoint derivative (c : Z) (r : Re) : Re :=
  match r with
  | Never => Never
  | Epsilon => Never
  | Chr p => if p c then Epsilon else Never
  | Alt r1 r2 => Alt (derivative c r1) (derivative c r2)
  | Seq r1 r2 =>
      if nullable r1 then Alt (Seq (derivative c r1) r2) (derivative c r2)
      else Seq (derivative c r1) r2
  | Star r1 => Seq (derivative c r1) (Star r1)
  end.

(** [/^r$/.test(s)]: the whole of [s] matches [r]. *)
Fixpoint test (r : Re) (s : list Z) : bool :=
  match s with
  | [] => nullable r
  | c :: s' => test (derivative c r) s'
  end.

(** [\s]: the white space and line terminators of the language. *)
Definition white_space (c : Z) : bool :=
  ((9 <=? c) && (c <=? 13) || (c =? 32) || (c =? 160) || (c =? 5760)
   || (8192 <=? c) && (c <=? 8202) || (c =? 8232) || (c =? 8233) || (c =? 8239)
   || (c =? 8287) || (c =? 12288) || (c =? 65279))%Z.

(** The strings a pattern denotes. *)
Inductive matches : Re → list Z → Prop :=
| matches_epsilon : matches Epsilon []
| matches_chr (p : Z → bool) (c : Z) : p c = true → matches (Chr p) [c]
| matches_alt_l (r1 r2 : Re) (s : list Z) : matches r1 s → matches (Alt r1 r2) s
| matches_alt_r (r1 r2 : Re) (s : list Z) : matches r2 s → matches (Alt r1 r2) s
| matches_seq (r1 r2 : Re) (s1 s2 : list Z) :
    matches r1 s1 → matches r2 s2 → matches (Seq r1 r2) (s1 ++ s2)
| matches_star_nil (r : Re) : matches (Star r) []
| matches_star_cons (r : Re) (s1 s2 : list Z) :
    matches r s1 → matches (Star r) s2 → matches (Star r) (s1 ++ s2).

End RegExp.

(* ===================================================================== *)
(** ** The authentication script: forms *)
(* ===================================================================== *)

Module AuthForms.

Import RegExp.

(** [[^\s@]]. *)
Definition address_unit (c : Z) : bool := negb (white_space c) && negb (c =? 64)%Z.

(** [/^[^\s@]+@[^\s@]+\.[^\s@]+$/]. *)
Definition emailRegex : Re :=
  Seq (Plus (Chr address_unit))
    (Seq (Chr (λ c, c =? 64)%Z)
       (Seq (Plus (Chr address_unit))
          (Seq (Chr (λ c, c =? 46)%Z) (Plus (Chr address_unit))))).

(** [validateEmail]; the address is given by its code units. *)
Definition validateEmail (email : list Z) : bool := test emailRegex email.

End AuthForms.

(* ===================================================================== *)
(** ** [assets/js/main.js]: reader and homepage *)
(* ===================================================================== *)

Module Main.

(** *** Chapter navigation ([handleReaderPage]) *)

(** An entry of [current_manga_chapters]. *)
Record ChapterRef : Type := {
  chapter_title : string;
  chapter_url : string
}.

(** What the navigation part of [handleReaderPage] settles: the index
    found, the two neighbours handed to [updateChapterNavigation], and
    whether the chapter was found.  [currentIndex] is [-1] when the
    chapter was not found, and also for the empty list, which the code
    does not search. *)
Record Navigation : Type := {
  currentIndex : Z;
  prevChapter : option ChapterRef;
  nextChapter : option ChapterRef;
  found : bool
}.

(** [showBasicChapterInfo] hands [null, null] to
    [updateChapterNavigation], together with [source].  [source] is a
    [let] of [handleReaderPage]; in [showBasicChapterInfo] it is neither a
    parameter nor a local, so it is looked up in the global scope.
    [global_source] is that binding, [None] when the page declares no
    global of that name (no script of the repository does): reading the
    identifier then raises a ReferenceError while the arguments of the
    call are evaluated, before the navigation is touched. *)
Definition showBasicChapterInfo (global_source : option string) : Result Navigation :=
  match global_source with
  | Some _ =>
      Ok {| currentIndex := (-1)%Z; prevChapter := None; nextChapter := None; found := false |}
  | None => Throw ReferenceError
  end.

(** The navigation part of [handleReaderPage], from the chapter list
    read from the session.  An exception leaves through the [catch] of
    [handleReaderPage], which replaces the reader by the error state. *)
Definition handleReaderPage_navigation (global_source : option string)
    (chapterList : list ChapterRef) (chapterUrl : string) : Result Navigation :=
  if bool_decide (0 < length chapterList)%nat then
    currentIndex ← findIndex (λ chapter, Ok (String.eqb (chapter_url chapter) chapterUrl)) chapterList;
    if bool_decide (currentIndex ≠ (-1)%Z) then
      Ok {| currentIndex := currentIndex;
            prevChapter :=
              if bool_decide (currentIndex < Z.of_nat (length chapterList) - 1)%Z
              then chapterList !! Z.to_nat (currentIndex + 1) else None;
            nextChapter :=
              if bool_decide (currentIndex > 0)%Z
              then chapterList !! Z.to_nat (currentIndex - 1) else None;
            found := true |}
    else showBasicChapterInfo global_source
  else showBasicChapterInfo global_source.

(** *** Progressive scroll ([setupProgressiveScroll]) *)

(** The variables [loadMoreContent] closes over, with the cards of the
    container and whether the loading indicator is displayed. *)
Record Scroll (Card : Type) : Type := {
  isLoading : bool;
  hasMoreData : bool;
  currentOffset : nat;
  container : list Card;
  indicator : bool
}.

Arguments isLoading {Card} _.
Arguments hasMoreData {Card} _.
Arguments currentOffset {Card} _.
Arguments container {Card} _.
Arguments indicator {Card} _.

Definition setupProgressiveScroll {Card : Type} (cards : list Card) (startOffset : nat) : Scroll Card :=
  {| isLoading := false; hasMoreData := true; currentOffset := startOffset;
     container := cards; indicator := false |}.

(** [Array.prototype.slice(start, end)] for non-negative bounds. *)
Definition slice {A : Type} (start stop : nat) (l : list A) : list A :=
  take (stop - start) (drop start l).

(** The turn of one entry in [nextBatch.forEach].  A card that cannot
    be created is logged and skipped; the log reads [manga.title], which
    raises in its turn when the entry is [null] or [undefined], and that
    exception leaves the [forEach].  [manga_title] is this read.  The
    template of [createEnhancedMangaCard] is never empty and has one root
    element, so both [if] tests pass whenever the call returns. *)
Definition insert_card {A Card : Type} (createEnhancedMangaCard : A → Result Card)
    (manga_title : A → Result unit) (cards : list Card) (manga : A) : Result (list Card) :=
  match createEnhancedMangaCard manga with
  | Ok card => Ok (cards ++ [card])
  | Throw _ =>
      match manga_title manga with
      | Ok _ => Ok cards
      | Throw e => Throw e
      end
  end.

(** [nextBatch.forEach]: the entries whose turn ended, the cards of the
    container, and the outcome.  The loop stops at the first entry whose
    turn raises; the cards inserted before it stay in the container. *)
Fixpoint insert_cards {A Card : Type} (createEnhancedMangaCard : A → Result Card)
    (manga_title : A → Result unit) (nextBatch : list A) (cards : list Card)
    : list A * list Card * Result unit :=
  match nextBatch with
  | [] => ([], cards, Ok ())
  | manga :: rest =>
      match insert_card createEnhancedMangaCard manga_title cards manga with
      | Ok cards' =>
          let r := insert_cards createEnhancedMangaCard manga_title rest cards' in
          (manga :: r.1.1, r.1.2, r.2)
      | Throw e => ([], cards, Throw e)
      end
  end.

(** One call of [loadMoreContent]; the first component is the items
    handed to the container: [nextBatch], or its entries before the one
    whose turn raised (none when the guard returns).  [allMangaData] is
    [window.allMangaData], [None] when it is unset.  An exception that
    leaves the [forEach] is caught by the outer [catch], which ends the
    scroll and leaves the offset where it was; [finally] clears
    [isLoading] on every path. *)
Definition loadMoreContent {A Card : Type} (createEnhancedMangaCard : A → Result Card)
    (manga_title : A → Result unit) (allMangaData : option (list A)) (st : Scroll Card)
    : list A * Scroll Card :=
  if isLoading st || negb (hasMoreData st) then ([], st)
  else
    let allData := default [] allMangaData in
    let nextBatch := slice (currentOffset st) (currentOffset st + 20) allData in
    if bool_decide (0 < length nextBatch)%nat then
      let r := insert_cards createEnhancedMangaCard manga_title nextBatch (container st) in
      match r.2 with
      | Ok _ =>
          let offset := (currentOffset st + length nextBatch)%nat in
          let more := bool_decide (offset < length allData)%nat in
          (r.1.1,
           {| isLoading := false; hasMoreData := more; currentOffset := offset;
              container := r.1.2; indicator := more |})
      | Throw _ =>
          (r.1.1,
           {| isLoading := false; hasMoreData := false; currentOffset := currentOffset st;
              container := r.1.2; indicator := false |})
      end
    else
      (nextBatch,
       {| isLoading := false; hasMoreData := false; currentOffset := currentOffset st;
          container := container st; indicator := false |}).

(** A bound on the calls still to be made before the guard returns. *)
Definition remaining {A Card : Type} (allMangaData : option (list A)) (st : Scroll Card) : nat :=
  if isLoading st || negb (hasMoreData st) then 0
  else S (length (default [] allMangaData) - currentOffset st).

Definition inspect {A : Type} (a : A) : {b : A | a = b} := exist _ a eq_refl.

(** The observer keeps calling [loadMoreContent] while the indicator is
    in view: the batches of the calls made until the guard returns. *)
Equations? drain {A Card : Type} (render : A → Result Card) (manga_title : A → Result unit)
    (allMangaData : option (list A)) (st : Scroll Card)
    : list (list A) * Scroll Card by wf (remaining allMangaData st) lt :=
  drain render manga_title allMangaData st
    with inspect (isLoading st || negb (hasMoreData st)) := {
    | exist _ true _ => ([], st)
    | exist _ false Hg =>
        let r := drain render manga_title allMangaData
                   (loadMoreContent render manga_title allMangaData st).2 in
        ((loadMoreContent render manga_title allMangaData st).1 :: r.1, r.2) }.
Proof.
  unfold remaining at 2. rewrite Hg.
  unfold loadMoreContent. rewrite Hg. cbn zeta.
  case_bool_decide; [|unfold remaining; cbn; lia].
  destruct (insert_cards render manga_title _ (container st)).2;
    unfold remaining; cbn; [case_bool_decide; cbn|]; lia.
Qed.

(** *** Chapter images ([displayChapterImages]) *)

Inductive Priority : Type := high | low.

Inductive LoadingAttr : Type := eager | lazy.

(** The attributes of an [<img>] the two functions set. *)
Record Img : Type := {
  src : string;
  alt : string;
  className : list string;
  loading : LoadingAttr;
  fetchPriority : Priority;
  style : list (string * string);
  textContent : string
}.

(** An image of the chapter with its two event handlers. *)
Record ImageTask : Type := {
  img : Img;
  onload : Img → Img;
  onerror : Img → Img
}.

(** [this.classList.add(c)]. *)
Definition classList_add (c : string) (i : Img) : Img :=
  {| src := src i; alt := alt i;
     className := if bool_decide (c ∈ className i) then className i else className i ++ [c];
     loading := loading i; fetchPriority := fetchPriority i; style := style i;
     textContent := textContent i |}.

(** [this.textContent = t]. *)
Definition set_textContent (t : string) (i : Img) : Img :=
  {| src := src i; alt := alt i; className := className i; loading := loading i;
     fetchPriority := fetchPriority i; style := style i; textContent := t |}.

(** The element built by the [forEach] of [displayChapterImages]; its
    [onerror] only logs a warning. *)
Definition firstImage (index : nat) (imageUrl : string) : ImageTask :=
  {| img := {| src := imageUrl; alt := "Chapter page " +:+ pretty (index + 1)%nat;
               className := ["reader-image"; "immediate-load"];
               loading := eager; fetchPriority := high; style := []; textContent := EmptyString |};
     onload := classList_add "loaded";
     onerror := λ this, this |}.

(** The element built by the [forEach] of [preloadRemainingImages]. *)
Definition preloadedImage (index : nat) (imageUrl : string) : ImageTask :=
  {| img := {| src := imageUrl; alt := "Chapter page " +:+ pretty (index + 11)%nat;
               className := ["reader-image"; "preloaded-image"];
               loading := eager; fetchPriority := low;
               style := [("backgroundColor", "#f3f4f6"); ("minHeight", "400px");
                         ("display", "flex"); ("alignItems", "center");
                         ("justifyContent", "center"); ("color", "#6b7280")];
               textContent := "Preloading page " +:+ pretty (index + 11)%nat +:+ "..." |};
     onload := λ this, set_textContent EmptyString (classList_add "loaded" this);
     onerror := λ this,
       set_textContent ("Failed to load page " +:+ pretty (index + 11)%nat)
         (classList_add "error" this) |}.

(** The reader container: an empty-state message or the images. *)
Inductive Reader : Type :=
| EmptyState (message : string)
| Pages (tasks : list ImageTask).

Definition preloadRemainingImages (images : list string) (tasks : list ImageTask) : list ImageTask :=
  tasks ++ imap preloadedImage images.

(** [images] is [None] for a missing [image_urls], [container] is [None]
    when the element does not exist. *)
Definition displayChapterImages (images : option (list string)) (container : option Reader)
    : option Reader :=
  match container with
  | None => None
  | Some _ =>
      match images with
      | None => Some (EmptyState "No chapter images found.")
      | Some [] => Some (EmptyState "No chapter images found.")
      | Some images =>
          let firstImages := slice 0 10 images in
          let remainingImages := drop 10 images in
          let shown := imap firstImage firstImages in
          Some (Pages (if bool_decide (0 < length remainingImages)%nat
                       then preloadRemainingImages remainingImages shown
                       else shown))
      end
  end.

(** The browser reports the outcome of one image. *)
Inductive ImageEvent : Type := load | error.

Definition fire (ev : ImageEvent) (t : ImageTask) : ImageTask :=
  {| img := match ev with
            | load => onload t (img t)
            | error => onerror t (img t)
            end;
     onload := onload t;
     onerror := onerror t |}.

Definition dispatch (ev : ImageEvent) (ordinal : nat) (tasks : list ImageTask) : list ImageTask :=
  alter (fire ev) ordinal tasks.

(** The terminal state an element shows: the class [loaded] or [error]
    its handlers add. *)
Inductive TaskState : Type := pending | loaded | failed.

Definition state (i : Img) : TaskState :=
  if bool_decide ("error" ∈ className i) then failed
  else if bool_decide ("loaded" ∈ className i) then loaded
  else pending.

(** *** Homepage ([loadHomepageContent]) *)

(** The envelope [makeApiRequest] returns; [data] is [None] when the
    envelope carries no list. *)
Record Response (A : Type) : Type := {
  data : option (list A)
}.

Arguments data {A} _.

(** What a grid container shows. *)
Inductive Grid (Card : Type) : Type :=
| LoadingState (message : string)
| ErrorState (message : string) (retry : bool)
| Message (text : string)
| Cards (cards : list Card).

Arguments LoadingState {Card} message.
Arguments ErrorState {Card} message retry.
Arguments Message {Card} text.
Arguments Cards {Card} cards.

(** [Array.prototype.map] with a callback that may raise. *)
Fixpoint mapR {A B : Type} (f : A → Result B) (l : list A) : Result (list B) :=
  match l with
  | [] => Ok []
  | x :: l' =>
      y ← f x;
      r ← mapR f l';
      Ok (y :: r)
  end.

(** The new content of the container, or the exception raised before
    [innerHTML] is assigned. *)
Definition displayEnhancedMangaGrid {A Card : Type} (createEnhancedMangaCard : A → Result Card)
    (mangaList : option (list A)) : Result (Grid Card) :=
  match mangaList with
  | None => Ok (Message "No manga data available")
  | Some [] => Ok (Message "No manga found")
  | Some l =>
      cards ← mapR createEnhancedMangaCard l;
      Ok (Cards cards)
  end.

Definition showLoadingState {Card : Type} (container : option (Grid Card)) (message : string)
    : option (Grid Card) :=
  (λ _, LoadingState message) <$> container.

Definition showErrorState {Card : Type} (container : option (Grid Card)) (message : string)
    (retry : bool) : option (Grid Card) :=
  (λ _, ErrorState message retry) <$> container.

Definition cards_of {Card : Type} (g : Grid Card) : list Card :=
  match g with
  | Cards l => l
  | _ => []
  end.

(** The updates grid ([None] when the page has none),
    [window.allMangaData] and the progressive scroll set up on the grid. *)
Record Home (A Card : Type) : Type := {
  updatesGrid : option (Grid Card);
  allMangaData : option (list A);
  progressive : option (Scroll Card)
}.

Arguments updatesGrid {A Card} _.
Arguments allMangaData {A Card} _.
Arguments progressive {A Card} _.

Definition with_grid {A Card : Type} (g : option (Grid Card)) (st : Home A Card) : Home A Card :=
  {| updatesGrid := g; allMangaData := allMangaData st; progressive := progressive st |}.

(** The inner [try] of [loadHomepageContent]: the value left in
    [quickResult] and the page after the quick display.  [quick] is the
    outcome of the request to [/quick-load]. *)
Definition quick_load {A Card : Type} (createEnhancedMangaCard : A → Result Card)
    (quick : Result (Response A)) (st : Home A Card) : option (Response A) * Home A Card :=
  match quick with
  | Throw _ => (None, st)
  | Ok quickResult =>
      match data quickResult with
      | Some l =>
          if bool_decide (0 < length l)%nat then
            match updatesGrid st with
            | Some _ =>
                match displayEnhancedMangaGrid createEnhancedMangaCard (Some (slice 0 10 l)) with
                | Ok g => (Some quickResult, with_grid (Some g) st)
                | Throw _ => (Some quickResult, st)
                end
            | None => (Some quickResult, st)
            end
          else (Some quickResult, st)
      | None => (Some quickResult, st)
      end
  end.

(** The [catch] of the outer [try]. *)
Definition load_failed {A Card : Type} (st : Home A Card) : Home A Card :=
  with_grid (showErrorState (updatesGrid st) "Failed to load latest updates." true) st.

(** The branch that replaces the grid with the first 20 entries of the
    full result and starts the progressive scroll at offset 20. *)
Definition update_with_full {A Card : Type} (createEnhancedMangaCard : A → Result Card)
    (full : list A) (st : Home A Card) : Home A Card :=
  match updatesGrid st with
  | Some _ =>
      match displayEnhancedMangaGrid createEnhancedMangaCard (Some (slice 0 20 full)) with
      | Ok g =>
          {| updatesGrid := Some g; allMangaData := allMangaData st;
             progressive := Some (setupProgressiveScroll (cards_of g) 20) |}
      | Throw _ => load_failed st
      end
  | None => st
  end.

(** The branch that keeps the quick display and starts the progressive
    scroll at offset 10. *)
Definition keep_quick {A Card : Type} (st : Home A Card) : Home A Card :=
  match updatesGrid st with
  | Some g =>
      {| updatesGrid := Some g; allMangaData := allMangaData st;
         progressive := Some (setupProgressiveScroll (cards_of g) 10) |}
  | None => st
  end.

Definition is_empty {A : Type} (r : Response A) : bool :=
  match data r with
  | Some (_ :: _) => false
  | _ => true
  end.

(** The rest of the outer [try], run when the full aggregate arrives.
    [unified] and [popular] are the outcomes of the requests to
    [/unified-popular] and to the fallback [/popular], the latter made
    only when the former has no entries. *)
Definition full_load {A Card : Type} (createEnhancedMangaCard : A → Result Card)
    (quickResult : option (Response A)) (unified popular : Result (Response A))
    (st : Home A Card) : Home A Card :=
  match unified with
  | Throw _ => load_failed st
  | Ok first =>
      match (if is_empty first then popular else Ok first) with
      | Throw _ => load_failed st
      | Ok result =>
          match data result with
          | Some (x :: rest) =>
              let st1 := {| updatesGrid := updatesGrid st; allMangaData := Some (x :: rest);
                            progressive := progressive st |} in
              match quickResult with
              | None => update_with_full createEnhancedMangaCard (x :: rest) st1
              | Some q =>
                  match data q with
                  | None => load_failed st1
                  | Some ql =>
                      if bool_decide (length ql < 20)%nat
                      then update_with_full createEnhancedMangaCard (x :: rest) st1
                      else keep_quick st1
                  end
              end
          | _ => with_grid (showErrorState (updatesGrid st) "No updates available" true) st
          end
      end
  end.

(** [loadHomepageContent] as far as the updates grid goes; the trending
    grid is filled by [loadComickGenres], which writes no other
    container. *)
Definition loadHomepageContent {A Card : Type} (createEnhancedMangaCard : A → Result Card)
    (trendingGrid : bool) (quick unified popular : Result (Response A))
    (st : Home A Card) : Home A Card :=
  if negb trendingGrid && bool_decide (updatesGrid st = None) then st
  else
    let st0 := with_grid (showLoadingState (updatesGrid st) "Loading latest updates...") st in
    let '(quickResult, st1) := quick_load createEnhancedMangaCard quick st0 in
    full_load createEnhancedMangaCard quickResult unified popular st1.


Import StorageManager.

(** *** Legacy infinite scroll ([setupInfiniteScroll]) *)

(** The envelope of [/load-more]: [page_data] is [None] when it carries
    no list, [has_more] is the truth value of its [has_more] field. *)
Record Page (A : Type) : Type := {
  page_data : option (list A);
  has_more : bool
}.

Arguments page_data {A} _.
Arguments has_more {A} _.

Definition setupInfiniteScroll {Card : Type} (cards : list Card) : Scroll Card :=
  {| isLoading := false; hasMoreData := true; currentOffset := 8;
     container := cards; indicator := false |}.

(** [loadMoreContent] of [setupInfiniteScroll] up to its [await]: the
    offset and limit of the request it sends, if any. *)
Definition loadMoreContent_send {Card : Type} (st : Scroll Card)
    : option (nat * nat) * Scroll Card :=
  if isLoading st || negb (hasMoreData st) then (None, st)
  else (Some (currentOffset st, 12%nat),
        {| isLoading := true; hasMoreData := hasMoreData st; currentOffset := currentOffset st;
           container := container st; indicator := true |}).

(** ... and from the outcome of the request on.  The [forEach] is the
    one of the progressive scroll; an exception that leaves it, like a
    failed request, is caught by the outer [catch], which ends the scroll
    and leaves the offset where it was; [finally] clears [isLoading] on
    every path. *)
Definition loadMoreContent_receive {A Card : Type} (createEnhancedMangaCard : A → Result Card)
    (manga_title : A → Result unit) (result : Result (Page A)) (st : Scroll Card)
    : Scroll Card :=
  let stop cards := {| isLoading := false; hasMoreData := false; currentOffset := currentOffset st;
                       container := cards; indicator := false |} in
  match result with
  | Ok page =>
      match page_data page with
      | Some (x :: rest) =>
          let r := insert_cards createEnhancedMangaCard manga_title (x :: rest) (container st) in
          match r.2 with
          | Ok _ =>
              let more := has_more page || bool_decide (length (x :: rest) = 12%nat) in
              {| isLoading := false; hasMoreData := more;
                 currentOffset := currentOffset st + length (x :: rest);
                 container := r.1.2;
                 indicator := if more then indicator st else false |}
          | Throw _ => stop r.1.2
          end
      | _ => stop (container st)
      end
  | Throw _ => stop (container st)
  end.

(** The calls made one after the other while the indicator is in view,
    the n-th answered by the n-th outcome: the requests sent and the
    cursor reached.  Once a call sends nothing, no later call does. *)
Fixpoint infinite_scroll {A Card : Type} (render : A → Result Card)
    (manga_title : A → Result unit) (results : list (Result (Page A))) (st : Scroll Card)
    : list (nat * nat) * Scroll Card :=
  match results with
  | [] => ([], st)
  | result :: results' =>
      match loadMoreContent_send st with
      | (Some request, st1) =>
          let r := infinite_scroll render manga_title results'
                     (loadMoreContent_receive render manga_title result st1) in
          (request :: r.1, r.2)
      | (None, st1) => ([], st1)
      end
  end.

(** *** Reading entries of the homepage ([saveReadingProgress]) *)

(** The fields of [AppState] these functions use. *)
Record AppState : Type := {
  currentPage : option string;
  lastSearchQuery : list Z;
  readingHistory : list Value
}.

(** The continue-reading section: the entry its card shows and whether
    the section is displayed. *)
Record ContinueReading : Type := {
  continue_card : option Value;
  continue_displayed : bool
}.

(** [elements] is [None] when the page lacks the section or the card. *)
Definition initializeContinueReading (app : AppState) (elements : option ContinueReading)
    : option ContinueReading :=
  match elements with
  | None => None
  | Some shown =>
      match readingHistory app !! 0%nat with
      | Some lastRead =>
          if truthy lastRead
          then Some {| continue_card := Some lastRead; continue_displayed := true |}
          else Some shown
      | None => Some shown
      end
  end.

(** [chapterTitle] is the argument as JSON.stringify writes it,
    [timestamp] the reading of [Date.now()]. *)
Definition readingEntry (mangaData : MangaData) (chapterUrl : string) (chapterTitle : Value)
    (timestamp : Z) : Value :=
  object [("title", Some (VStr (md_title mangaData)));
          ("cover_url", VStr <$> or_string (md_cover_image mangaData) (md_cover_url mangaData));
          ("detail_url", VStr <$> md_detail_url mangaData);
          ("chapter_url", Some (VStr chapterUrl));
          ("chapter_title", Some chapterTitle);
          ("timestamp", Some (VNum timestamp));
          ("source", Some (VStr (or_literal (md_source mangaData) "AsuraScanz")))].

(** [x === s] for a string or [undefined] [s]. *)
Definition strict_eq_optional (o : option Value) (s : option string) : bool :=
  match o, s with
  | None, None => true
  | Some (VStr a), Some b => String.eqb a b
  | _, _ => false
  end.

(** The callback [entry => entry.detail_url !== readingEntry.detail_url]. *)
Definition other_detail_url (detail_url : option string) (entry : Value) : Result bool :=
  o ← prop entry "detail_url";
  Ok (negb (strict_eq_optional o detail_url)).

(** What a call leaves: its outcome, [AppState], the continue-reading
    section and the storage. *)
Record Saved : Type := {
  outcome : Result unit;
  saved_app : AppState;
  saved_section : option ContinueReading;
  saved_storage : LocalStorage
}.

(** [saveReadingProgress].  [AppState.readingHistory] is assigned before
    [localStorage.setItem], which is outside any [try]. *)
Definition saveReadingProgress `{Browser} (mangaData : MangaData) (chapterUrl : string)
    (chapterTitle : Value) (timestamp : Z) (app : AppState)
    (elements : option ContinueReading) (ls : LocalStorage) : Saved :=
  match filterR (other_detail_url (md_detail_url mangaData)) (readingHistory app) with
  | Throw e =>
      {| outcome := Throw e; saved_app := app; saved_section := elements; saved_storage := ls |}
  | Ok kept =>
      let history := slice 0 10 (readingEntry mangaData chapterUrl chapterTitle timestamp :: kept) in
      let app' := {| currentPage := currentPage app; lastSearchQuery := lastSearchQuery app;
                     readingHistory := history |} in
      match setItem "readingHistory" (VArr history) ls with
      | (Throw e, ls') =>
          {| outcome := Throw e; saved_app := app'; saved_section := elements;
             saved_storage := ls' |}
      | (Ok _, ls') =>
          {| outcome := Ok (); saved_app := app';
             saved_section :=
               if bool_decide (currentPage app = Some "home")
               then initializeContinueReading app' elements else elements;
             saved_storage := ls' |}
      end
  end.

(** *** Live search ([handleLiveSearch]) *)

Inductive Display : Type := display_unset | display_none | display_block.

(** What the results dropdown holds. *)
Inductive DropdownContent (A : Type) : Type :=
| dropdown_untouched
| dropdown_searching
| dropdown_no_results
| dropdown_failed
| dropdown_items (items : list A).

Arguments dropdown_untouched {A}.
Arguments dropdown_searching {A}.
Arguments dropdown_no_results {A}.
Arguments dropdown_failed {A}.
Arguments dropdown_items {A} items.

Record Dropdown (A : Type) : Type := {
  dropdown_display : Display;
  dropdown_content : DropdownContent A
}.

Arguments dropdown_display {A} _.
Arguments dropdown_content {A} _.

(** The [forEach] of [displaySearchResults]: the items are appended one
    by one until [createSearchResultItem] raises. *)
Fixpoint append_items {A Item : Type} (createSearchResultItem : A → Result Item)
    (results : list A) (items : list Item) : list Item * Result unit :=
  match results with
  | [] => (items, Ok ())
  | manga :: results' =>
      match createSearchResultItem manga with
      | Ok item => append_items createSearchResultItem results' (items ++ [item])
      | Throw e => (items, Throw e)
      end
  end.

(** [displaySearchResults] on a container that exists; [results] is
    [None] when the envelope carries no list.  The container is returned
    as the call leaves it, with the outcome of the call. *)
Definition displaySearchResults {A Item : Type} (createSearchResultItem : A → Result Item)
    (container : Dropdown Item) (results : option (list A)) : Dropdown Item * Result unit :=
  match results with
  | Some (x :: rest) =>
      let r := append_items createSearchResultItem (slice 0 7 (x :: rest)) [] in
      ({| dropdown_display := dropdown_display container;
          dropdown_content := dropdown_items r.1 |}, r.2)
  | _ => ({| dropdown_display := dropdown_display container;
             dropdown_content := dropdown_no_results |}, Ok ())
  end.

(** [handleLiveSearch] up to its [await].  [query] is the trimmed value
    of the input, by its code units; [resultsContainer] is [None] when the
    page has no search container to hold the dropdown, and the first
    access to it then raises a TypeError.  The result is the query of the
    request sent, if any, or the exception, with [AppState] and the
    dropdown as the call leaves them. *)
Definition handleLiveSearch_send {Item : Type} (query : list Z) (app : AppState)
    (resultsContainer : option (Dropdown Item))
    : Result (option (list Z)) * AppState * option (Dropdown Item) :=
  if bool_decide (length query < 2)%nat then
    match resultsContainer with
    | Some box =>
        (Ok None, app, Some {| dropdown_display := display_none;
                               dropdown_content := dropdown_content box |})
    | None => (Throw TypeError, app, None)
    end
  else if bool_decide (query = lastSearchQuery app) then (Ok None, app, resultsContainer)
  else
    let app' := {| currentPage := currentPage app; lastSearchQuery := query;
                   readingHistory := readingHistory app |} in
    match resultsContainer with
    | Some box =>
        (Ok (Some query), app', Some {| dropdown_display := display_block;
                                        dropdown_content := dropdown_searching |})
    | None => (Throw TypeError, app', None)
    end.

(** ... and from the outcome of the request on: an exception of the
    request or of [displaySearchResults] is caught and replaces the
    content of the dropdown by the failure message. *)
Definition handleLiveSearch_receive {A Item : Type} (createSearchResultItem : A → Result Item)
    (result : Result (Response A)) (resultsContainer : Dropdown Item) : Dropdown Item :=
  let failed := {| dropdown_display := dropdown_display resultsContainer;
                   dropdown_content := dropdown_failed |} in
  match result with
  | Ok r =>
      match displaySearchResults createSearchResultItem resultsContainer (data r) with
      | (shown, Ok _) => shown
      | (_, Throw _) => failed
      end
  | Throw _ => failed
  end.

(** *** Titles read from a chapter URL *)

(** [\w] of a regular expression without flags. *)
Definition is_word (a : ascii) : bool :=
  let n := N_of_ascii a in
  ((48 <=? n) && (n <=? 57) || (65 <=? n) && (n <=? 90) || (n =? 95)
   || (97 <=? n) && (n <=? 122))%N.

(** [l.toUpperCase()] for a character [l] that [\w] matched. *)
Definition toUpperCase (a : ascii) : ascii :=
  let n := N_of_ascii a in
  if ((97 <=? n) && (n <=? 122))%N then ascii_of_N (n - 32) else a.

(** [.replace(/-/g, ' ')]. *)
Fixpoint replace_hyphens (s : string) : string :=
  match s with
  | EmptyString => EmptyString
  | String a s' => String (if Ascii.eqb a "-" then " "%char else a) (replace_hyphens s')
  end.

(** [.replace(/\b\w/g, l => l.toUpperCase())]: a word character is
    matched where the character before it, if any, is not one.
    [after_word] tells whether the previous character was a word
    character. *)
Fixpoint capitalize (after_word : bool) (s : string) : string :=
  match s with
  | EmptyString => EmptyString
  | String a s' =>
      String (if is_word a && negb after_word then toUpperCase a else a)
             (capitalize (is_word a) s')
  end.

Definition titleCase (part : string) : string := capitalize false (replace_hyphens part).

(** [String.prototype.split] on a one-character separator. *)
Fixpoint String_split (separator : ascii) (s : string) : list string :=
  match s with
  | EmptyString => [EmptyString]
  | String a s' =>
      if Ascii.eqb a separator then EmptyString :: String_split separator s'
      else match String_split separator s' with
           | part :: parts => String a part :: parts
           | [] => [String a EmptyString]
           end
  end.

(** [String.prototype.includes]. *)
Fixpoint includes (needle s : string) : bool :=
  String.prefix needle s
  || match s with
     | EmptyString => false
     | String _ s' => includes needle s'
     end.

(** [url.pathname.split('/').filter(part => part)]. *)
Definition pathParts (pathname : string) : list string :=
  filter (λ part, part ≠ EmptyString) (String_split "/" pathname).

Definition chapter_part (part : string) : bool :=
  includes "chapter" part || includes "ch" part.

(** The [for] loop of [extractMangaTitleFromUrl]; [previous] is the part
    before the current one, [None] at index 0. *)
Fixpoint manga_before_chapter (previous : option string) (parts : list string) : option string :=
  match parts with
  | [] => None
  | part :: parts' =>
      if chapter_part part then
        match previous with
        | Some p => Some (titleCase p)
        | None => manga_before_chapter (Some part) parts'
        end
      else manga_before_chapter (Some part) parts'
  end.

(** [pathname] is [new URL(chapterUrl).pathname], or the TypeError of
    the constructor for a string that is not an absolute URL. *)
Definition extractMangaTitleFromUrl (pathname : Result string) : string :=
  match pathname with
  | Throw _ => "Unknown Manga"
  | Ok p =>
      let parts := pathParts p in
      match manga_before_chapter None parts with
      | Some title => title
      | None =>
          if bool_decide (1 < length parts)%nat
          then default "Unknown Manga" (titleCase <$> parts !! (length parts - 2)%nat)
          else "Unknown Manga"
      end
  end.

(** Reading [lastPart] of an empty path gives [undefined], whose
    [replace] raises the TypeError the [catch] turns into ['Chapter']. *)
Definition extractChapterTitleFromUrl (pathname : Result string) : string :=
  match pathname with
  | Throw _ => "Chapter"
  | Ok p =>
      let parts := pathParts p in
      match list_find (λ part, chapter_part part = true) parts with
      | Some (_, part) => titleCase part
      | None =>
          match parts !! (length parts - 1)%nat with
          | Some lastPart => titleCase lastPart
          | None => "Chapter"
          end
      end
  end.

(** *** The rating shown when the API gives none *)

(** ToInt32: a number wrapped into the signed 32-bit range. *)
Definition ToInt32 (z : Z) : Z := ((z + 2147483648) mod 4294967296 - 2147483648)%Z.

(** The [reduce] over [manga.title.split('')]; [units] are the UTF-16
    code units of the title ([b.charCodeAt(0)]).  [a << 5] wraps to 32
    bits, the subtraction and the addition are exact, [a & a] wraps
    again. *)
Definition titleHash (units : list Z) : Z :=
  foldl (λ a b, ToInt32 (ToInt32 (a * 32) - a + b)) 0%Z units.

(** [(Math.abs(titleHash) % 20 + 80) / 10], in tenths. *)
Definition fallback_rating (units : list Z) : Z := (Z.abs (titleHash units) mod 20 + 80)%Z.

End Main.

(* ===================================================================== *)
(** ** Notions used to state the properties *)
(* ===================================================================== *)

Module Props.

Import StorageManager Main.

(** *** Reader and homepage *)

(** The chapter at position [i] has the URL, and no earlier one has. *)
Definition first_match (chapterList : list ChapterRef) (chapterUrl : string) (i : nat) : Prop :=
  (∃ c, chapterList !! i = Some c ∧ chapter_url c = chapterUrl)
  ∧ ∀ (j : nat) (c : ChapterRef), (j < i)%nat → chapterList !! j = Some c → chapter_url c ≠ chapterUrl.

(** The images of a reader container. *)
Definition tasks_of (r : option Reader) : list ImageTask :=
  match r with
  | Some (Pages tasks) => tasks
  | _ => []
  end.

(** *** Storage *)

(** Value a key holds for [get]: what JSON.parse reads back, [null] for
    a missing key or for text that does not parse. *)
Definition stored_value (ls : LocalStorage) (key : string) : Value :=
  match ls !! key with
  | Some (Parsed v) => v
  | _ => VNull
  end.

(** What [get] returns. *)
Definition read `{Browser} (ls : LocalStorage) (key : string) : Value :=
  if storage_blocked then VNull else stored_value ls key.

(** The underlying read of a key fails: access is refused or the text
    does not parse. *)
Definition read_fails `{Browser} (ls : LocalStorage) (key : string) : Prop :=
  storage_blocked = true ∨ ls !! key = Some Malformed.

(** The underlying write fails: access is refused or the quota is
    exceeded. *)
Definition write_fails `{Browser} (ls : LocalStorage) (key : string) (value : Value) : bool :=
  storage_blocked || quota_exceeded ls key value.

(** A computation returns: it raises nothing. *)
Definition returns {A : Type} (m : M A) (ls : LocalStorage) : Prop :=
  ∃ a ls', m ls = (Ok a, ls').

(** What [init] writes under each key when it writes. *)
Definition init_defaults : list (string * Value) :=
  [(keys_readingHistory, VArr []); (keys_bookmarks, VArr []);
   (keys_readingProgress, VObj ∅); (keys_userPreferences, default_preferences)].

(** The [id] of a stored entry when it is a string. *)
Definition item_id (v : Value) : option string :=
  match v with
  | VObj m => match m !! "id" with
              | Some (VStr s) => Some s
              | _ => None
              end
  | _ => None
  end.

(** The [readAt] timestamp of a stored history entry. *)
Definition item_readAt (v : Value) : string :=
  match v with
  | VObj m => match m !! "readAt" with
              | Some (VStr s) => s
              | _ => EmptyString
              end
  | _ => EmptyString
  end.

(** Most recent first: every entry was read no earlier than any entry
    after it (ISO-8601 strings are compared as strings). *)
Definition recent_first (l : list Value) : Prop :=
  StronglySorted (λ a b, String.leb (item_readAt b) (item_readAt a) = true) l.

(** The part of the history invariant that needs no clock: every entry
    has an id, no id occurs twice, at most 100 entries. *)
Record history_ok (l : list Value) : Prop := {
  ok_entries : Forall (λ v, is_Some (item_id v)) l;
  ok_unique : NoDup (item_id <$> l);
  ok_length : (length l ≤ 100)%nat
}.

(** The part that reads the clock: most recent first, and nothing read
    after the clock reading [t]. *)
Definition history_dated (t : string) (l : list Value) : Prop :=
  recent_first l ∧ Forall (λ v, String.leb (item_readAt v) t = true) l.

(** The list edits of [addToHistory] as the claim words them: every entry
    with the id is removed, the new one is put in front, the list is cut
    after 100. *)
Definition history_spec (id : string) (item : Value) (history : list Value) : list Value :=
  take 100 (item :: filter (λ v, item_id v ≠ Some id) history).

(** The history list the storage holds. *)
Definition stored_history (ls : LocalStorage) : list Value :=
  match ls !! keys_readingHistory with
  | Some (Parsed (VArr l)) => l
  | _ => []
  end.

(** The history key is unset or holds a list that meets the invariant. *)
Definition history_inv (ls : LocalStorage) : Prop :=
  ls !! keys_readingHistory = None
  ∨ ∃ l, ls !! keys_readingHistory = Some (Parsed (VArr l)) ∧ history_ok l.

(** One call of [addToHistory] with the two clock readings it makes. *)
Record HistoryCall : Type := {
  call_manga : MangaData;
  call_chapter : ChapterData;
  call_now : string;
  call_now' : string
}.

Definition run_call `{Browser} (ls : LocalStorage) (c : HistoryCall) : LocalStorage :=
  (addToHistory (call_manga c) (call_chapter c) (call_now c) (call_now' c) ls).2.

Definition run_calls `{Browser} (calls : list HistoryCall) (ls : LocalStorage) : LocalStorage :=
  foldl run_call ls calls.

(** The clock does not run backwards between two calls. *)
Definition clock_le (a b : HistoryCall) : Prop :=
  String.leb (call_now a) (call_now b) = true.

(** The composite id as the claim words it: the title and the chapter
    title of the entry, which the code joins with ["_"]. *)
Definition composite_id (v : Value) : option string :=
  match v with
  | VObj m =>
      match m !! "mangaTitle", m !! "chapterTitle" with
      | Some (VStr title), Some (VStr chapter) => Some (title +:+ "_" +:+ chapter)
      | _, _ => None
      end
  | _ => None
  end.

(** The entry a call writes. *)
Definition call_item (c : HistoryCall) : Value :=
  historyItem (call_manga c) (call_chapter c) (call_now c).

(** Most recent first, by the calls: the entries are entries of calls of
    the sequence, each written by a later call than every entry after
    it. *)
Definition by_recency (calls : list HistoryCall) (l : list Value) : Prop :=
  ∃ indices : list nat,
    StronglySorted (λ i j, (j < i)%nat) indices
    ∧ Forall2 (λ i v, call_item <$> calls !! i = Some v) indices l.

(** The bookmark list the storage holds. *)
Definition stored_bookmarks (ls : LocalStorage) : list Value :=
  match ls !! keys_bookmarks with
  | Some (Parsed (VArr l)) => l
  | _ => []
  end.

(** The bookmarks key is unset, unreadable or falsy, or it holds an
    array. *)
Definition bookmarks_shape (ls : LocalStorage) : Prop :=
  or_else (stored_value ls keys_bookmarks) (VArr []) = VArr (stored_bookmarks ls).

(** The title is among the bookmarks read from the storage. *)
Definition bookmark_found `{Browser} (mangaTitle : string) (ls : LocalStorage) : bool :=
  match or_else (read ls keys_bookmarks) (VArr []) with
  | VArr l => match findIndex (id_is mangaTitle) l with
              | Ok i => bool_decide (i ≠ (-1)%Z)
              | Throw _ => false
              end
  | _ => false
  end.

(** A value read for a list category is falsy or an array without
    [null] entries. *)
Definition list_shape (v : Value) : Prop :=
  ∃ l, or_else v (VArr []) = VArr l ∧ Forall (λ x, x ≠ VNull) l.

(** A value read for the progress dictionary is falsy or an object. *)
Definition dict_shape (v : Value) : Prop :=
  ∃ m, or_else v (VObj ∅) = VObj m.

(** The stored categories have the shape the operations expect. *)
Definition well_shaped (ls : LocalStorage) : Prop :=
  list_shape (stored_value ls keys_readingHistory)
  ∧ list_shape (stored_value ls keys_bookmarks)
  ∧ dict_shape (stored_value ls keys_readingProgress).

(** The entry of a title in the progress dictionary [get] reads. *)
Definition progress_entry `{Browser} (ls : LocalStorage) (mangaTitle : string) : option Value :=
  match or_else (read ls keys_readingProgress) (VObj ∅) with
  | VObj m => m !! mangaTitle
  | _ => None
  end.

(** A property can be assigned on the entry, or on the record that
    replaces it: the entry is missing, falsy, or an object (an array
    included).  It cannot when the entry is a truthy primitive: a number
    other than 0, a string that is not empty, or [true]. *)
Definition assignable (entry : option Value) : bool :=
  match entry with
  | None | Some (VObj _) | Some (VArr _) => true
  | Some v => negb (truthy v)
  end.

(** *** The entries of a batch *)

(** The turn of the entry in the [forEach] ends: when its card cannot be
    created, the log can read its title. *)
Definition skippable {A Card : Type} (render : A → Result Card)
    (manga_title : A → Result unit) (manga : A) : Prop :=
  ∀ e, render manga = Throw e → manga_title manga = Ok ().

(** *** Storage: what the operations read and leave *)

(** The storage is reachable and accepts every write. *)
Definition accepting `{Browser} : Prop :=
  storage_blocked = false ∧ ∀ ls key value, quota_exceeded ls key value = false.

(** The progress dictionary the storage holds. *)
Definition stored_progress (ls : LocalStorage) : gmap string Value :=
  match ls !! keys_readingProgress with
  | Some (Parsed (VObj m)) => m
  | _ => ∅
  end.

(** The progress key is unset, unreadable or falsy, or holds an object. *)
Definition progress_shape (ls : LocalStorage) : Prop :=
  or_else (stored_value ls keys_readingProgress) (VObj ∅) = VObj (stored_progress ls).

(** The record [setTotalChapters] finds or creates for a title, from
    the entry the dictionary holds: the entry when it is an object, an
    empty record when there is none or it is falsy. *)
Definition record_of (entry : option Value) : option (gmap string Value) :=
  match entry with
  | None => Some ∅
  | Some (VObj old) => Some old
  | Some (VArr _) => None
  | Some v => if truthy v then None else Some ∅
  end.

(** Some entry of the list has the id. *)
Definition listed (id : string) (l : list Value) : bool :=
  bool_decide (Exists (λ v, item_id v = Some id) l).

(** The store a key falls back to when it holds nothing truthy. *)
Definition defaulted (key : string) (value : Value) (ls : LocalStorage) : LocalStorage :=
  if truthy (stored_value ls key) then ls else <[key := Parsed value]> ls.

(** The history key is unset, unreadable or falsy, or holds an array. *)
Definition history_shape (ls : LocalStorage) : Prop :=
  or_else (stored_value ls keys_readingHistory) (VArr []) = VArr (stored_history ls).

(** The four keys of the store. *)
Definition store_keys : list string :=
  [keys_readingHistory; keys_bookmarks; keys_readingProgress; keys_userPreferences].

(** *** Scroll, reading entries and titles *)

(** The items the legacy infinite scroll takes from a sequence of
    outcomes: the pages up to the first outcome that ends the scroll (a
    failure, an envelope without entries, or a page that is the last
    one). *)
Fixpoint delivered {A : Type} (results : list (Result (Page A))) : list A :=
  match results with
  | Ok page :: results' =>
      match page_data page with
      | Some (x :: rest) =>
          (x :: rest)
          ++ (if has_more page || bool_decide (length (x :: rest) = 12%nat)
              then delivered results' else [])
      | _ => []
      end
  | _ => []
  end.

(** The [detail_url] of a reading entry. *)
Definition entry_detail_url (v : Value) : option Value :=
  match v with
  | VObj m => m !! "detail_url"
  | _ => None
  end.

(** The entry is of the manga with this [detail_url]. *)
Definition same_manga (detail_url : option string) (v : Value) : bool :=
  strict_eq_optional (entry_detail_url v) detail_url.

(** No hyphen occurs in the text. *)
Definition hyphen_free (s : string) : Prop :=
  Forall (λ a, a ≠ "-"%char) (list_ascii_of_string s).

End Props.

(* ===================================================================== *)
(** ** Sample inputs *)
(* ===================================================================== *)

Module Samples.

Import StorageManager Main Props.

(** Three browsers: storage that works, storage whose quota rejects every
    write, and storage the page may not access. *)
Definition reliable : Browser :=
  {| storage_blocked := false; quota_exceeded := λ _ _ _, false |}.

Definition quota_full : Browser :=
  {| storage_blocked := false; quota_exceeded := λ _ _ _, true |}.

Definition no_access : Browser :=
  {| storage_blocked := true; quota_exceeded := λ _ _ _, false |}.

Definition solo_leveling : MangaData :=
  {| md_title := "Solo Leveling"; md_cover_image := None;
     md_cover_url := Some "https://cdn.example/solo.jpg";
     md_detail_url := Some "https://asurascanz.com/manga/solo-leveling";
     md_source := Some "Alpha" |}.

Definition solo_leveling_beta : MangaData :=
  {| md_title := "Solo Leveling"; md_cover_image := Some "https://beta.example/sl.png";
     md_cover_url := None; md_detail_url := Some "https://beta.example/solo-leveling";
     md_source := Some "Beta" |}.

Definition chapter_1 : ChapterData :=
  {| cd_title := "Chapter 1"; cd_url := Some "https://asurascanz.com/solo-leveling/chapter-1" |}.

Definition chapter_2 : ChapterData :=
  {| cd_title := "Chapter 2"; cd_url := Some "https://asurascanz.com/solo-leveling/chapter-2" |}.

(** Chapter 1, chapter 2, then chapter 1 again. *)
Definition reading_session : list HistoryCall :=
  [ {| call_manga := solo_leveling; call_chapter := chapter_1;
       call_now := "2025-03-01T10:00:00.000Z"; call_now' := "2025-03-01T10:00:00.001Z" |};
    {| call_manga := solo_leveling; call_chapter := chapter_2;
       call_now := "2025-03-01T10:20:00.000Z"; call_now' := "2025-03-01T10:20:00.000Z" |};
    {| call_manga := solo_leveling_beta; call_chapter := chapter_1;
       call_now := "2025-03-02T08:00:00.000Z"; call_now' := "2025-03-02T08:00:00.002Z" |} ].

(** A bundle with valid history and bookmarks and a preferences payload
    that is not a record. *)
Definition corrupted_bundle : Value :=
  object [("readingHistory",
           Some (VArr [historyItem solo_leveling chapter_1 "2025-03-01T10:00:00.000Z"]));
          ("bookmarks", Some (VArr [bookmarkOf solo_leveling "2025-03-01T09:00:00.000Z"]));
          ("userPreferences", Some (VStr "{theme:"))].



(** A chapter list, newest first, in which chapter 2 is listed twice. *)
Definition chapters3 : list ChapterRef :=
  [ {| chapter_title := "Chapter 3"; chapter_url := "https://asurascanz.com/solo/chapter-3" |};
    {| chapter_title := "Chapter 2"; chapter_url := "https://asurascanz.com/solo/chapter-2" |};
    {| chapter_title := "Chapter 2"; chapter_url := "https://asurascanz.com/solo/chapter-2" |};
    {| chapter_title := "Chapter 1"; chapter_url := "https://asurascanz.com/solo/chapter-1" |} ].

(** A chapter of 11 pages. *)
Definition chapter11 : list string :=
  (λ n : nat, "https://cdn.example/page-" +:+ pretty n +:+ ".jpg") <$> seq 1 11.

(** The homepage while the updates grid shows its loading state. *)
Definition home0 : Home nat nat :=
  {| updatesGrid := Some (LoadingState "Loading latest updates...");
     allMangaData := None; progressive := None |}.

Import UIComponents Auth.

(** A store that holds one bookmark, and one that holds one history
    entry. *)
Definition shelf : LocalStorage :=
  {[ keys_bookmarks := Parsed (VArr [bookmarkOf solo_leveling "2025-03-01T09:00:00.000Z"]) ]}.

Definition journal : LocalStorage :=
  {[ keys_readingHistory :=
       Parsed (VArr [historyItem solo_leveling chapter_1 "2025-03-01T10:00:00.000Z"]) ]}.

(** The button of a title that is not bookmarked, and the history page
    over [journal]. *)
Definition plain_button : BookmarkButton :=
  {| button_classList := ["bookmark-btn"]; bookmark_text := "Bookmark" |}.

Definition journal_page : HistoryPage :=
  {| history_elements := [historyItem solo_leveling chapter_1 "2025-03-01T10:00:00.000Z"];
     history_notifications := [] |}.

(** Storage the authentication script can use, an account and a storage
    without session. *)
Definition open_storage : AuthBrowser :=
  {| access_denied := false; storage_full := λ _, false |}.

Definition reader_account : gmap string Value := {["username" := VStr "reader"]}.

Definition signed_out : AuthStorage := {| USER := None; TOKEN := None; REMEMBER := None |}.

(** A page of 12 entries, then a request that fails. *)
Definition two_requests : list (Result (Page nat)) :=
  [Ok {| page_data := Some (seq 0 12); has_more := true |}; Throw ApiError].

(** The homepage before any search or reading, and a dropdown nothing
    has touched. *)
Definition home_app : AppState :=
  {| currentPage := Some "home"; lastSearchQuery := []; readingHistory := [] |}.

Definition closed_dropdown : Dropdown nat :=
  {| dropdown_display := display_unset; dropdown_content := dropdown_untouched |}.

(** Catalog entries as the API sends them; a stand-in for
    [createEnhancedMangaCard] that shows the title and, as the real one,
    raises a TypeError on [null]; and the read of [manga.title]. *)
Definition entry (title : string) : Value := VObj {["title" := VStr title]}.





(** The code units of "so" and of "s". *)
Definition query_so : list Z := [115; 111]%Z.

Definition query_s : list Z := [115]%Z.

End Samples.

(* ===================================================================== *)
(** ** Facts about arrays, lists and strings *)
(* ===================================================================== *)

Module JsFacts.

Lemma findIndex_from_found {A : Type} (p : A → Result bool) (l : list A) (k : Z) (i : nat) (x : A) :
  l !! i = Some x →
  p x = Ok true →
  (∀ (j : nat) (y : A), (j < i)%nat → l !! j = Some y → p y = Ok false) →
  findIndex_from p l k = Ok (k + Z.of_nat i)%Z.
Proof.
  revert k i. induction l as [|a l IH]; intros k i Hi Hx Hbefore; [done|].
  destruct i as [|i]; simpl in *.
  - injection Hi as ->. rewrite Hx. cbn. f_equal. lia.
  - rewrite (Hbefore 0%nat a); [|lia|done]. cbn.
    rewrite (IH (k + 1)%Z i); [f_equal; lia|done|done|].
    intros j y Hj Hy. apply (Hbefore (S j)); [lia|done].
Qed.

Lemma findIndex_from_absent {A : Type} (p : A → Result bool) (l : list A) (k : Z) :
  Forall (λ y, p y = Ok false) l →
  findIndex_from p l k = Ok (-1)%Z.
Proof.
  intros Hall. revert k. induction Hall as [|a l Ha _ IH]; intros k; [done|].
  simpl. rewrite Ha. cbn. apply IH.
Qed.

(** When the callback returns on every element, [findIndex] returns
    either [-1] with no element accepted, or the first accepted index. *)
Lemma findIndex_from_cases {A : Type} (p : A → Result bool) (l : list A) (k : Z) :
  Forall (λ y, ∃ b, p y = Ok b) l →
  (findIndex_from p l k = Ok (-1)%Z ∧ Forall (λ y, p y = Ok false) l)
  ∨ (∃ (i : nat) (x : A),
        findIndex_from p l k = Ok (k + Z.of_nat i)%Z ∧ l !! i = Some x ∧ p x = Ok true
        ∧ ∀ (j : nat) (y : A), (j < i)%nat → l !! j = Some y → p y = Ok false).
Proof.
  intros Hall. revert k. induction Hall as [|a l [b Ha] _ IH]; intros k.
  - left. done.
  - destruct b.
    + right. exists 0%nat, a. simpl. rewrite Ha. cbn.
      repeat split; [f_equal; lia|]. intros j y Hj. lia.
    + destruct (IH (k + 1)%Z) as [[Hnone Hall']|(i & x & Hres & Hi & Hx & Hbefore)].
      * left. simpl. rewrite Ha. cbn. split; [done|]. by constructor.
      * right. exists (S i), x. simpl. rewrite Ha. cbn.
        repeat split; [rewrite Hres; f_equal; lia|done|done|].
        intros [|j] y Hj Hy; simpl in Hy; [by injection Hy as <-|].
        apply (Hbefore j); [lia|done].
Qed.

Lemma filter_all {A : Type} (P : A → Prop) `{∀ x, Decision (P x)} (l : list A) :
  Forall P l → filter P l = l.
Proof.
  induction 1 as [|x l Hx _ IH]; [done|]. rewrite filter_cons_True by done. by rewrite IH.
Qed.

Lemma Forall_sublist {A : Type} (P : A → Prop) (l1 l2 : list A) :
  l1 `sublist_of` l2 → Forall P l2 → Forall P l1.
Proof.
  intros Hsub. rewrite !Forall_forall. intros Hall x Hx.
  apply Hall. by eapply elem_of_sublist.
Qed.

Lemma fmap_sublist {A B : Type} (f : A → B) (l1 l2 : list A) :
  l1 `sublist_of` l2 → f <$> l1 `sublist_of` f <$> l2.
Proof. induction 1; cbn; by constructor. Qed.

Lemma StronglySorted_sublist {A : Type} (R : A → A → Prop) (l1 l2 : list A) :
  l1 `sublist_of` l2 → StronglySorted R l2 → StronglySorted R l1.
Proof.
  induction 1 as [|x l1 l2 Hsub IH|x l1 l2 Hsub IH]; intros Hs; [done| |].
  - apply StronglySorted_cons in Hs as [Hall Hs]. apply StronglySorted_cons. split; [|by apply IH].
    by eapply Forall_sublist.
  - apply StronglySorted_cons in Hs as [_ Hs]. by apply IH.
Qed.

Lemma take_ne_nil {A : Type} (n : nat) (l : list A) : l ≠ [] → (0 < n)%nat → take n l ≠ [].
Proof. destruct l, n; simpl; try done; lia. Qed.

Lemma String_compare_refl (s : string) : String.compare s s = Eq.
Proof.
  induction s as [|a s IH]; [done|]. simpl.
  unfold Ascii.compare. by rewrite N.compare_refl.
Qed.

Lemma String_leb_refl (s : string) : String.leb s s = true.
Proof. unfold String.leb. by rewrite String_compare_refl. Qed.

Lemma String_leb_trans (s1 s2 s3 : string) :
  String.leb s1 s2 = true → String.leb s2 s3 = true → String.leb s1 s3 = true.
Proof.
  unfold String.leb. revert s2 s3.
  induction s1 as [|a1 s1 IH]; intros [|a2 s2] [|a3 s3]; simpl; try done.
  unfold Ascii.compare.
  destruct (N.compare_spec (N_of_ascii a1) (N_of_ascii a2)) as [E12|L12|G12];
  destruct (N.compare_spec (N_of_ascii a2) (N_of_ascii a3)) as [E23|L23|G23];
  destruct (N.compare_spec (N_of_ascii a1) (N_of_ascii a3)) as [E13|L13|G13];
    try done; try lia.
  apply IH.
Qed.

End JsFacts.

(* ===================================================================== *)
(** ** The reader and the homepage: theorems *)
(* ===================================================================== *)

Module MainTheory.

Import Main Props Samples JsFacts.

(** The navigation of [handleReaderPage].  For a chapter list of length
    N and a URL whose first matching position is i: found, previous =
    list[i+1] when i+1 < N and null otherwise, next = list[i-1] when
    i-1 >= 0 and null otherwise.  For a URL that no chapter of the list
    has (the empty list included): not found with both neighbours null
    when the page binds a global [source], a ReferenceError otherwise. *)
Lemma navigation_neighbours (global_source : option string) (chapterList : list ChapterRef)
    (chapterUrl : string) :
  (∀ i : nat, first_match chapterList chapterUrl i →
     handleReaderPage_navigation global_source chapterList chapterUrl =
       Ok {| currentIndex := Z.of_nat i;
             prevChapter := if bool_decide (i + 1 < length chapterList)%nat
                            then chapterList !! (i + 1)%nat else None;
             nextChapter := if bool_decide (0 ≤ Z.of_nat i - 1)%Z
                            then chapterList !! (i - 1)%nat else None;
             found := true |})
  ∧ ((∀ c, c ∈ chapterList → chapter_url c ≠ chapterUrl) →
     handleReaderPage_navigation global_source chapterList chapterUrl =
       match global_source with
       | Some _ => Ok {| currentIndex := (-1)%Z; prevChapter := None; nextChapter := None;
                         found := false |}
       | None => Throw ReferenceError
       end).
Proof.
  split.
  - intros i [(c & Hi & Hc) Hbefore]. unfold handleReaderPage_navigation.
    assert (i < length chapterList)%nat as Hlt by (by eapply lookup_lt_Some).
    rewrite bool_decide_eq_true_2 by lia.
    unfold findIndex.
    rewrite (findIndex_from_found _ _ 0%Z i c); [|done| |].
    + cbn. rewrite bool_decide_eq_true_2 by lia.
      f_equal. f_equal.
      * repeat case_bool_decide; try lia; [|done].
        f_equal. lia.
      * repeat case_bool_decide; try lia; [|done].
        f_equal. lia.
    + f_equal. by apply String.eqb_eq.
    + intros j y Hj Hy. f_equal. apply String.eqb_neq. by eapply Hbefore.
  - intros Habsent. unfold handleReaderPage_navigation. case_bool_decide; [|done].
    unfold findIndex. rewrite findIndex_from_absent; [done|].
    apply Forall_forall. intros y Hy. f_equal. apply String.eqb_neq. by apply Habsent.
Qed.

(** C1 (defect of the code).  With the chapter found, the neighbours
    are the claimed ones: in the sample list, where chapter 2 is listed
    twice, the first match at index 1 gives previous = list[2] and next =
    list[0].  With the chapter absent, or the list empty, the page has no
    global [source] to hand to [updateChapterNavigation]: the call raises
    a ReferenceError instead of settling on not found with both
    neighbours null. *)
Theorem showBasicChapterInfo_raises :
  handleReaderPage_navigation None chapters3 "https://asurascanz.com/solo/chapter-2" =
    Ok {| currentIndex := 1; prevChapter := chapters3 !! 2%nat; nextChapter := chapters3 !! 0%nat;
          found := true |}
  ∧ handleReaderPage_navigation None chapters3 "https://asurascanz.com/solo/chapter-9"
    = Throw ReferenceError
  ∧ handleReaderPage_navigation None [] "https://asurascanz.com/solo/chapter-2"
    = Throw ReferenceError.
Proof. repeat split. Qed.

Lemma drain_stop {A Card : Type} (render : A → Result Card) (manga_title : A → Result unit)
    (allMangaData : option (list A)) (st : Scroll Card) :
  isLoading st || negb (hasMoreData st) = true →
  drain render manga_title allMangaData st = ([], st).
Proof.
  intros Hg. funelim (drain render manga_title allMangaData st); [done|congruence].
Qed.


Lemma skippable_total {A Card : Type} (render : A → Result Card) (manga_title : A → Result unit)
    (card : A → Card) (l : list A) :
  (∀ a, render a = Ok (card a)) → Forall (skippable render manga_title) l.
Proof. intros Hrender. apply Forall_forall. intros a _ e. by rewrite Hrender. Qed.


(** When the turn of every entry ends, the [forEach] runs over the whole
    batch. *)
Lemma insert_cards_ends {A Card : Type} (render : A → Result Card)
    (manga_title : A → Result unit) (batch : list A) (cards : list Card) :
  Forall (skippable render manga_title) batch →
  ∃ cards', insert_cards render manga_title batch cards = (batch, cards', Ok ()).
Proof.
  intros Hall. revert cards.
  induction Hall as [|manga batch Hm _ IH]; intros cards; cbn [insert_cards].
  - by eexists.
  - unfold insert_card. destruct (render manga) as [card|e] eqn:Hr.
    + destruct (IH (cards ++ [card])) as [cards' ->]. by eexists.
    + rewrite (Hm e Hr). destruct (IH cards) as [cards' ->]. by eexists.
Qed.

Lemma insert_cards_total {A Card : Type} (render : A → Result Card)
    (manga_title : A → Result unit) (card : A → Card) (batch : list A) (cards : list Card) :
  (∀ a, render a = Ok (card a)) →
  insert_cards render manga_title batch cards = (batch, cards ++ (card <$> batch), Ok ()).
Proof.
  intros Hrender. revert cards. induction batch as [|a batch IH]; intros cards; cbn [insert_cards].
  - by rewrite app_nil_r.
  - unfold insert_card. rewrite Hrender, IH. cbn. by rewrite <- app_assoc.
Qed.


(** A call that passes the guard, when the turn of every entry ends. *)
Lemma loadMoreContent_run {A Card : Type} (render : A → Result Card)
    (manga_title : A → Result unit) (allMangaData : option (list A)) (st : Scroll Card) :
  isLoading st || negb (hasMoreData st) = false →
  Forall (skippable render manga_title) (default [] allMangaData) →
  let allData := default [] allMangaData in
  let nextBatch := take 20 (drop (currentOffset st) allData) in
  let more := bool_decide (currentOffset st + length nextBatch < length allData)%nat in
  ∃ cards',
    insert_cards render manga_title nextBatch (container st) = (nextBatch, cards', Ok ())
    ∧ loadMoreContent render manga_title allMangaData st =
        (nextBatch,
         {| isLoading := false; hasMoreData := more;
            currentOffset := currentOffset st + length nextBatch;
            container := cards'; indicator := more |}).
Proof.
  intros Hg Hall allData nextBatch more.
  assert (Forall (skippable render manga_title) nextBatch) as Hbatch.
  { unfold nextBatch. eapply Forall_sublist; [|exact Hall].
    etrans; [apply sublist_take|apply sublist_drop]. }
  destruct (insert_cards_ends render manga_title nextBatch (container st) Hbatch)
    as [cards' Hcards].
  exists cards'. split; [done|].
  unfold loadMoreContent. rewrite Hg. cbn zeta. fold allData. unfold slice.
  replace (currentOffset st + 20 - currentOffset st)%nat with 20%nat by lia.
  fold nextBatch. case_bool_decide as Hlen.
  - by rewrite Hcards.
  - assert (nextBatch = []) as Hnil by (apply length_zero_iff_nil; lia).
    rewrite Hnil in Hcards. cbn in Hcards. injection Hcards as <-.
    unfold more. rewrite Hnil. cbn [length]. rewrite Nat.add_0_r.
    assert (length allData ≤ currentOffset st)%nat as Hge.
    { unfold nextBatch in Hnil. apply (f_equal length) in Hnil.
      rewrite length_take, length_drop in Hnil. cbn [length] in Hnil. lia. }
    by rewrite bool_decide_eq_false_2 by lia.
Qed.

Lemma loadMoreContent_isLoading {A Card : Type} (render : A → Result Card)
    (manga_title : A → Result unit) (allMangaData : option (list A)) (st : Scroll Card) :
  isLoading st = false →
  isLoading (loadMoreContent render manga_title allMangaData st).2 = false.
Proof.
  intros Hl. unfold loadMoreContent. rewrite Hl. cbn.
  destruct (hasMoreData st); cbn; [|done]. case_bool_decide; [|done].
  by destruct (insert_cards render manga_title _ (container st)).2.
Qed.

Lemma drain_concat {A Card : Type} (render : A → Result Card) (manga_title : A → Result unit)
    (allMangaData : option (list A)) (st : Scroll Card) :
  Forall (skippable render manga_title) (default [] allMangaData) →
  isLoading st = false → hasMoreData st = true →
  concat (drain render manga_title allMangaData st).1
  = drop (currentOffset st) (default [] allMangaData)
  ∧ hasMoreData (drain render manga_title allMangaData st).2 = false.
Proof.
  funelim (drain render manga_title allMangaData st).
  - intros _ Hl Hm. clear H Heqcall. rewrite Hl, Hm in e. done.
  - intros Hall Hl Hm. cbn [fst snd].
    destruct (loadMoreContent_run render manga_title allMangaData0 st Hg Hall)
      as (cards' & _ & Hrun).
    rewrite Hrun in *. cbn [fst snd] in *.
    set (allData := default [] allMangaData0) in *.
    set (nextBatch := take 20 (drop (currentOffset st) allData)) in *.
    case_bool_decide as Hmore.
    + destruct (H Hall eq_refl eq_refl) as [Hc Hf]. split; [|done].
      cbn [concat]. rewrite Hc. cbn [currentOffset].
      assert (length nextBatch = 20%nat) as Hlen.
      { unfold nextBatch in *. rewrite length_take, length_drop in *. lia. }
      rewrite Hlen. unfold nextBatch. rewrite <- drop_drop. apply take_drop.
    + rewrite drain_stop by done.
      cbn. split; [|done]. rewrite app_nil_r. unfold nextBatch. apply take_ge.
      unfold nextBatch in Hmore. rewrite length_take, length_drop in *. lia.
Qed.

Lemma loadMoreContent_container {A Card : Type} (render : A → Result Card)
    (manga_title : A → Result unit) (card : A → Card)
    (allMangaData : option (list A)) (st : Scroll Card) :
  (∀ a, render a = Ok (card a)) →
  container (loadMoreContent render manga_title allMangaData st).2
  = container st ++ (card <$> (loadMoreContent render manga_title allMangaData st).1).
Proof.
  intros Hrender. unfold loadMoreContent. cbn zeta.
  destruct (isLoading st || negb (hasMoreData st)); cbn [fst snd container fmap list_fmap].
  { by rewrite app_nil_r. }
  case_bool_decide as Hlen.
  - by rewrite (insert_cards_total render manga_title card).
  - cbn [fst snd container].
    assert (slice (currentOffset st) (currentOffset st + 20) (default [] allMangaData) = []) as ->.
    { apply length_zero_iff_nil. lia. }
    cbn. by rewrite app_nil_r.
Qed.

Lemma drain_container {A Card : Type} (render : A → Result Card) (manga_title : A → Result unit)
    (card : A → Card) (allMangaData : option (list A)) (st : Scroll Card) :
  (∀ a, render a = Ok (card a)) →
  container (drain render manga_title allMangaData st).2
  = container st ++ (card <$> concat (drain render manga_title allMangaData st).1).
Proof.
  funelim (drain render manga_title allMangaData st); intros Hrender.
  - cbn. by rewrite app_nil_r.
  - cbn [fst snd concat]. rewrite (H card Hrender).
    rewrite (loadMoreContent_container render manga_title card) by done.
    rewrite fmap_app. by rewrite app_assoc.
Qed.




(** C8. A call of [loadMoreContent] made while [isLoading] is set, or
    once [hasMoreData] is false, delivers nothing and leaves the whole
    cursor (flags, offset, cards of the container) as it was. *)
Theorem loadMoreContent_guard {A Card : Type} (render : A → Result Card)
    (manga_title : A → Result unit) (allMangaData : option (list A)) (st : Scroll Card) :
  isLoading st = true ∨ hasMoreData st = false →
  loadMoreContent render manga_title allMangaData st = ([], st).
Proof.
  intros Hguard. unfold loadMoreContent.
  destruct Hguard as [-> | ->]; [done|]. by rewrite orb_true_r.
Qed.

Lemma loadMoreContent_guard_witness :
  loadMoreContent (λ n : nat, Ok n) (λ _, Ok ()) (Some (seq 0 45))
      {| isLoading := true; hasMoreData := true; currentOffset := 20;
         container := seq 0 20; indicator := true |}
    = ([], {| isLoading := true; hasMoreData := true; currentOffset := 20;
              container := seq 0 20; indicator := true |}).
Proof.
  apply (loadMoreContent_guard (λ n : nat, Ok n) (λ _, Ok ()) (Some (seq 0 45))). left.
  reflexivity.
Defined.

Lemma imap_firstImage_priority (g : nat → nat) (l : list string) :
  (λ t, (fetchPriority (img t), loading (img t))) <$> imap (λ i, firstImage (g i)) l
  = replicate (length l) (high, eager).
Proof.
  revert g. induction l as [|u l IH]; intros g; [done|].
  cbn. f_equal. apply (IH (g ∘ S)).
Qed.

Lemma imap_preloadedImage_priority (g : nat → nat) (l : list string) :
  (λ t, (fetchPriority (img t), loading (img t))) <$> imap (λ i, preloadedImage (g i)) l
  = replicate (length l) (low, eager).
Proof.
  revert g. induction l as [|u l IH]; intros g; [done|].
  cbn. f_equal. apply (IH (g ∘ S)).
Qed.

Lemma imap_firstImage_src (g : nat → nat) (l : list string) :
  (λ t, src (img t)) <$> imap (λ i, firstImage (g i)) l = l.
Proof.
  revert g. induction l as [|u l IH]; intros g; [done|].
  cbn. f_equal. apply (IH (g ∘ S)).
Qed.

Lemma imap_preloadedImage_src (g : nat → nat) (l : list string) :
  (λ t, src (img t)) <$> imap (λ i, preloadedImage (g i)) l = l.
Proof.
  revert g. induction l as [|u l IH]; intros g; [done|].
  cbn. f_equal. apply (IH (g ∘ S)).
Qed.

Lemma displayChapterImages_tasks (images : list string) (c : Reader) :
  images ≠ [] →
  displayChapterImages (Some images) (Some c)
  = Some (Pages (imap firstImage (take 10 images) ++ imap preloadedImage (drop 10 images))).
Proof.
  intros Hne. unfold displayChapterImages. destruct images as [|u images]; [done|].
  unfold slice. replace (10 - 0)%nat with 10%nat by lia. rewrite drop_0.
  case_bool_decide as Hrem; [done|].
  assert (drop 10 (u :: images) = []) as -> by (apply length_zero_iff_nil; lia).
  by rewrite app_nil_r.
Qed.

(** The part of the scheduling that holds for every chapter: with N
    images the first min(N,10) are requested with high priority and the
    rest with low priority, every one eagerly and with its own URL. *)
Lemma displayChapterImages_priorities (images : list string) (c : Reader) :
  images ≠ [] →
  let tasks := tasks_of (displayChapterImages (Some images) (Some c)) in
  (λ t, (fetchPriority (img t), loading (img t))) <$> tasks
  = replicate (length images `min` 10) (high, eager)
    ++ replicate (length images - length images `min` 10) (low, eager)
  ∧ (λ t, src (img t)) <$> tasks = images.
Proof.
  intros Hne. rewrite displayChapterImages_tasks by done. cbn [tasks_of].
  rewrite !fmap_app.
  rewrite (imap_firstImage_priority id), (imap_preloadedImage_priority id).
  rewrite (imap_firstImage_src id), (imap_preloadedImage_src id).
  rewrite length_take, length_drop, take_drop.
  split; [|done]. f_equal; f_equal; lia.
Qed.

(** An event on one image leaves every other image as it was. *)
Lemma dispatch_isolated (ev : ImageEvent) (i j : nat) (tasks : list ImageTask) :
  i ≠ j → dispatch ev i tasks !! j = tasks !! j.
Proof. intros Hne. unfold dispatch. by apply list_lookup_alter_ne. Qed.

Lemma imap_firstImage_keeps_src (g : nat → nat) (l : list string) :
  Forall (λ t, ∀ ev, src (img (fire ev t)) = src (img t)) (imap (λ i, firstImage (g i)) l).
Proof.
  revert g. induction l as [|u l IH]; intros g; cbn; constructor.
  - by intros [].
  - apply (IH (g ∘ S)).
Qed.

Lemma imap_preloadedImage_keeps_src (g : nat → nat) (l : list string) :
  Forall (λ t, ∀ ev, src (img (fire ev t)) = src (img t)) (imap (λ i, preloadedImage (g i)) l).
Proof.
  revert g. induction l as [|u l IH]; intros g; cbn; constructor.
  - by intros [].
  - apply (IH (g ∘ S)).
Qed.

(** No handler reloads an image: after any event every image still has
    the URL it was created with. *)
Lemma dispatch_keeps_src (images : list string) (c : Reader) (ev : ImageEvent) (i : nat) :
  images ≠ [] →
  (λ t, src (img t)) <$> dispatch ev i (tasks_of (displayChapterImages (Some images) (Some c)))
  = images.
Proof.
  intros Hne.
  destruct (displayChapterImages_priorities images c Hne) as [_ Hsrc].
  rewrite <- Hsrc at 2.
  rewrite displayChapterImages_tasks by done. cbn [tasks_of].
  assert (Forall (λ t, ∀ ev, src (img (fire ev t)) = src (img t))
            (imap firstImage (take 10 images) ++ imap preloadedImage (drop 10 images))) as Hall.
  { apply Forall_app. split.
    - apply (imap_firstImage_keeps_src id).
    - apply (imap_preloadedImage_keeps_src id). }
  revert i. induction Hall as [|t l Ht _ IH]; intros i; [done|].
  destruct i as [|i].
  - change (dispatch ev 0 (t :: l)) with (fire ev t :: l). by rewrite !fmap_cons, Ht.
  - change (dispatch ev (S i) (t :: l)) with (t :: dispatch ev i l).
    rewrite !fmap_cons. f_equal. apply IH.
Qed.

(** C7 (defect of the code).  In a chapter of 11 pages, an error on the
    first page (high priority) leaves its element as it was: no [error]
    class, no placeholder text, still [pending]; the same error on the
    11th page (low priority) marks the element [failed] and shows
    "Failed to load page 11". *)
Theorem first_image_error_unmarked :
  let tasks := tasks_of (displayChapterImages (Some chapter11) (Some (EmptyState EmptyString))) in
  (img <$> dispatch error 0 tasks) = (img <$> tasks)
  ∧ (λ t, (state (img t), textContent (img t))) <$> dispatch error 0 tasks !! 0%nat
    = Some (pending, EmptyString)
  ∧ (λ t, (state (img t), textContent (img t))) <$> dispatch error 10 tasks !! 10%nat
    = Some (failed, "Failed to load page 11").
Proof. vm_compute. done. Qed.

Lemma mapR_total {A B : Type} (f : A → B) (l : list A) :
  mapR (λ a, Ok (f a)) l = Ok (f <$> l).
Proof. induction l as [|a l IH]; [done|]. cbn. by rewrite IH. Qed.

Lemma displayEnhancedMangaGrid_total {A Card : Type} (card : A → Card) (l : list A) :
  l ≠ [] →
  displayEnhancedMangaGrid (λ a, Ok (card a)) (Some l) = Ok (Cards (card <$> l)).
Proof.
  intros Hne. unfold displayEnhancedMangaGrid. destruct l as [|a l]; [done|].
  by rewrite mapR_total.
Qed.




End MainTheory.

(* ===================================================================== *)
(** ** The persistent store: theorems *)
(* ===================================================================== *)

Module StorageTheory.

Import StorageManager Props Samples JsFacts.

Section run.
Context `{Browser}.

Lemma get_run (key : string) (ls : LocalStorage) :
  get key ls = (Ok (if storage_blocked then VNull else stored_value ls key), ls).
Proof.
  unfold get, try_catch, getItem, stored_value, mbind, M_bind.
  destruct storage_blocked; [done|].
  destruct (ls !! key) as [[v|]|]; done.
Qed.

Lemma set_run (key : string) (value : Value) (ls : LocalStorage) :
  set key value ls =
    if storage_blocked || quota_exceeded ls key value then (Ok false, ls)
    else (Ok true, <[key := Parsed value]> ls).
Proof.
  unfold set, try_catch, setItem, mbind, M_bind.
  destruct storage_blocked; [done|]. cbn.
  destruct (quota_exceeded ls key value); done.
Qed.

Lemma bind_run {A B : Type} (m : M A) (f : A → M B) (ls : LocalStorage) :
  (m ≫= f) ls = match m ls with
                | (Ok a, ls') => f a ls'
                | (Throw e, ls') => (Throw e, ls')
                end.
Proof. done. Qed.

Lemma lift_run {A : Type} (r : Result A) (ls : LocalStorage) : lift r ls = (r, ls).
Proof. done. Qed.

Lemma ret_run {A : Type} (a : A) (ls : LocalStorage) : (mret a : M A) ls = (Ok a, ls).
Proof. done. Qed.

(** [set] writes at most its own key. *)
Lemma set_other (key key' : string) (value : Value) (ls : LocalStorage) :
  key ≠ key' → (set key value ls).2 !! key' = ls !! key'.
Proof.
  intros Hne. rewrite set_run.
  destruct (storage_blocked || quota_exceeded ls key value); [done|].
  cbn. by rewrite lookup_insert_ne.
Qed.

Lemma updateReadingProgress_other (mangaTitle chapterTitle now key : string) (ls : LocalStorage) :
  key ≠ keys_readingProgress →
  (updateReadingProgress mangaTitle chapterTitle now ls).2 !! key = ls !! key.
Proof.
  intros Hne. unfold updateReadingProgress.
  rewrite bind_run, get_run. rewrite bind_run, lift_run.
  destruct (prop _ mangaTitle) as [old|e]; [|done].
  rewrite bind_run, lift_run.
  destruct (put _ mangaTitle _) as [progress'|e]; [|done].
  rewrite bind_run.
  pose proof (set_other keys_readingProgress key progress' ls (not_eq_sym Hne)) as Hset.
  destruct (set keys_readingProgress progress' ls) as [[b|e] ls']; done.
Qed.

End run.

Lemma item_id_historyItem (mangaData : MangaData) (chapterData : ChapterData) (now : string) :
  item_id (historyItem mangaData chapterData now) = Some (history_id mangaData chapterData).
Proof.
  unfold historyItem.
  destruct (or_string _ _), (md_detail_url mangaData), (cd_url chapterData); reflexivity.
Qed.

Lemma item_readAt_historyItem (mangaData : MangaData) (chapterData : ChapterData) (now : string) :
  item_readAt (historyItem mangaData chapterData now) = now.
Proof.
  unfold historyItem.
  destruct (or_string _ _), (md_detail_url mangaData), (cd_url chapterData); reflexivity.
Qed.

Lemma id_is_item (id : string) (v : Value) (s : string) :
  item_id v = Some s → id_is id v = Ok (String.eqb s id).
Proof.
  destruct v as [| | | | |m]; try done. cbn.
  destruct (m !! "id") as [[| | |s'| |]|]; try done. by intros [= ->].
Qed.

Lemma id_is_returns (id : string) (l : list Value) :
  Forall (λ v, is_Some (item_id v)) l → Forall (λ v, ∃ b, id_is id v = Ok b) l.
Proof.
  intros Hl. eapply Forall_impl; [done|]. intros v [s Hs]. eexists. by apply id_is_item.
Qed.

Lemma filter_other_ids_delete (l : list Value) (i : nat) (x : Value) (id : string) :
  NoDup (item_id <$> l) → l !! i = Some x → item_id x = Some id →
  filter (λ v, item_id v ≠ Some id) l = delete i l.
Proof.
  revert i. induction l as [|a l IH]; intros i Hnd Hi Hx; [done|].
  rewrite fmap_cons in Hnd. apply NoDup_cons in Hnd as [Hnotin Hnd].
  destruct i as [|i]; simpl in Hi.
  - injection Hi as ->. rewrite filter_cons_False by (intros Hne; by apply Hne).
    cbn. apply filter_all. apply Forall_forall. intros v Hv Heq.
    apply Hnotin. rewrite Hx, <- Heq. by apply list_elem_of_fmap_2.
  - assert (item_id a ≠ Some id) as Hne.
    { intros Heq. apply Hnotin. rewrite Heq, <- Hx.
      apply list_elem_of_fmap_2. by eapply list_elem_of_lookup_2. }
    rewrite filter_cons_True by done. cbn. f_equal. by eapply IH.
Qed.

Lemma history_spec_ok (mangaData : MangaData) (chapterData : ChapterData) (now : string)
    (l : list Value) :
  history_ok l →
  history_ok (history_spec (history_id mangaData chapterData)
                (historyItem mangaData chapterData now) l).
Proof.
  intros [He Hu _]. unfold history_spec.
  set (item := historyItem mangaData chapterData now).
  set (l' := filter _ l).
  assert (l' `sublist_of` l) as Hsub by apply sublist_filter.
  pose proof (sublist_take (item :: l') 100) as Hcut.
  split.
  - eapply Forall_sublist; [exact Hcut|].
    constructor; [|by eapply Forall_sublist].
    unfold item. rewrite item_id_historyItem. by eexists.
  - eapply sublist_NoDup; [|by apply fmap_sublist].
    rewrite fmap_cons. apply NoDup_cons. split.
    + unfold item. rewrite item_id_historyItem.
      intros (v & Heq & Hv)%list_elem_of_fmap.
      apply list_elem_of_filter in Hv as [Hne _]. by apply Hne.
    + eapply sublist_NoDup; [exact Hu|]. by apply fmap_sublist.
  - rewrite length_take. lia.
Qed.

Lemma history_spec_dated (t now : string) (mangaData : MangaData) (chapterData : ChapterData)
    (l : list Value) :
  history_dated t l → String.leb t now = true →
  history_dated now (history_spec (history_id mangaData chapterData)
                       (historyItem mangaData chapterData now) l).
Proof.
  intros [Hr Hp] Hle. unfold history_spec.
  set (item := historyItem mangaData chapterData now).
  set (l' := filter _ l).
  assert (l' `sublist_of` l) as Hsub by apply sublist_filter.
  pose proof (sublist_take (item :: l') 100) as Hcut.
  assert (Forall (λ v, String.leb (item_readAt v) now = true) l') as Hp'.
  { eapply Forall_sublist; [exact Hsub|].
    eapply Forall_impl; [exact Hp|]. intros v Hv. simpl in *.
    eapply String_leb_trans; [exact Hv|exact Hle]. }
  split.
  - eapply StronglySorted_sublist; [exact Hcut|].
    apply StronglySorted_cons. split; [|by eapply StronglySorted_sublist].
    eapply Forall_impl; [exact Hp'|].
    intros v Hv. unfold item. by rewrite item_readAt_historyItem.
  - eapply Forall_sublist; [exact Hcut|].
    constructor; [|done]. unfold item. rewrite item_readAt_historyItem. apply String_leb_refl.
Qed.

Lemma history_dated_later (t t' : string) (l : list Value) :
  String.leb t t' = true → history_dated t l → history_dated t' l.
Proof.
  intros Hle [Hr Hp]. split; [done|].
  eapply Forall_impl; [exact Hp|]. intros v Hv. simpl in *.
  eapply String_leb_trans; [exact Hv|exact Hle].
Qed.

Lemma history_ok_nil : history_ok [].
Proof. split; try constructor. simpl. lia. Qed.

Lemma history_dated_nil (t : string) : history_dated t [].
Proof. split; constructor. Qed.

Lemma history_update_cut (i : Z) (item : Value) (l : list Value) :
  history_update i item l =
    take 100 (item :: if bool_decide (i ≠ (-1)%Z) then delete (Z.to_nat i) l else l).
Proof.
  unfold history_update. case_bool_decide as Hlen; [done|].
  symmetry. apply take_ge. lia.
Qed.

(** On a list that meets the invariant, the edits of the code are the
    edits of [history_spec]. *)
Lemma history_update_spec (mangaData : MangaData) (chapterData : ChapterData) (item : Value)
    (l : list Value) :
  history_ok l →
  ∃ i, findIndex (id_is (history_id mangaData chapterData)) l = Ok i
       ∧ history_update i item l = history_spec (history_id mangaData chapterData) item l.
Proof.
  intros [He Hu _].
  set (id := history_id mangaData chapterData).
  destruct (findIndex_from_cases (id_is id) l 0%Z (id_is_returns id l He))
    as [[Hnone Hall]|(i & x & Hres & Hi & Hx & Hbefore)].
  - exists (-1)%Z. split; [done|].
    assert (Forall (λ v, item_id v ≠ Some id) l) as Hids.
    { rewrite Forall_forall in *. intros v Hv Heq.
      specialize (Hall v Hv). rewrite (id_is_item id v id Heq) in Hall.
      rewrite String.eqb_refl in Hall. discriminate Hall. }
    rewrite history_update_cut. rewrite bool_decide_eq_false_2 by (intros Hne; by apply Hne).
    unfold history_spec. by rewrite filter_all.
  - exists (0 + Z.of_nat i)%Z. split; [done|].
    assert (item_id x = Some id) as Hxid.
    { rewrite Forall_forall in He.
      destruct (He x) as [s Hs]; [by eapply list_elem_of_lookup_2|].
      rewrite (id_is_item id x s Hs) in Hx. injection Hx as Hx.
      apply String.eqb_eq in Hx. by rewrite Hs, Hx. }
    rewrite history_update_cut. rewrite bool_decide_eq_true_2 by lia.
    replace (Z.to_nat (0 + Z.of_nat i)) with i by lia.
    unfold history_spec. by rewrite (filter_other_ids_delete l i x id).
Qed.

Section history.
Context `{Browser}.

Lemma history_inv_stored (ls : LocalStorage) :
  history_inv ls →
  history_ok (stored_history ls)
  ∧ or_else (stored_value ls keys_readingHistory) (VArr []) = VArr (stored_history ls).
Proof.
  unfold stored_history, stored_value.
  intros [-> | (l & -> & Hok)]; [|done].
  split; [apply history_ok_nil|done].
Qed.

(** What one call does to the stored history. *)
Lemma addToHistory_history (mangaData : MangaData) (chapterData : ChapterData)
    (now now' : string) (ls : LocalStorage) :
  history_inv ls →
  let new := history_spec (history_id mangaData chapterData)
               (historyItem mangaData chapterData now) (stored_history ls) in
  (addToHistory mangaData chapterData now now' ls).2 !! keys_readingHistory =
    if storage_blocked || quota_exceeded ls keys_readingHistory (VArr new)
    then ls !! keys_readingHistory
    else Some (Parsed (VArr new)).
Proof.
  intros Hinv new.
  destruct (history_inv_stored ls Hinv) as [Hok Hor].
  set (l0 := if storage_blocked then [] else stored_history ls).
  assert (history_ok l0) as Hok0.
  { unfold l0. destruct storage_blocked; [apply history_ok_nil|done]. }
  assert (or_else (if storage_blocked then VNull else stored_value ls keys_readingHistory)
            (VArr []) = VArr l0) as Hread.
  { unfold l0. by destruct storage_blocked. }
  destruct (history_update_spec mangaData chapterData
              (historyItem mangaData chapterData now) l0 Hok0) as (i & Hfind & Hupd).
  unfold addToHistory. rewrite bind_run, get_run, Hread. cbn [as_array].
  rewrite bind_run, lift_run, bind_run, lift_run, Hfind, Hupd.
  rewrite bind_run, set_run.
  destruct storage_blocked eqn:Hblocked; cbn [orb].
  - rewrite bind_run.
    pose proof (updateReadingProgress_other (md_title mangaData) (cd_title chapterData) now'
                  keys_readingHistory ls) as Hother.
    destruct (updateReadingProgress _ _ _ ls) as [[[]|e] ls']; cbn in *; by apply Hother.
  - unfold l0. fold new.
    destruct (quota_exceeded ls keys_readingHistory (VArr new)); rewrite bind_run.
    + pose proof (updateReadingProgress_other (md_title mangaData) (cd_title chapterData) now'
                    keys_readingHistory ls) as Hother.
      destruct (updateReadingProgress _ _ _ ls) as [[[]|e] ls']; cbn in *; by apply Hother.
    + pose proof (updateReadingProgress_other (md_title mangaData) (cd_title chapterData) now'
                    keys_readingHistory (<[keys_readingHistory := Parsed (VArr new)]> ls))
        as Hother.
      destruct (updateReadingProgress _ _ _ _) as [[[]|e] ls']; cbn in *;
        (rewrite Hother by done); by rewrite lookup_insert_eq.
Qed.

Lemma run_call_stored (c : HistoryCall) (ls : LocalStorage) :
  history_inv ls →
  let new := history_spec (history_id (call_manga c) (call_chapter c))
               (historyItem (call_manga c) (call_chapter c) (call_now c))
               (stored_history ls) in
  stored_history (run_call ls c) =
    if storage_blocked || quota_exceeded ls keys_readingHistory (VArr new)
    then stored_history ls else new.
Proof.
  intros Hinv new. unfold run_call, stored_history at 1.
  rewrite (addToHistory_history _ _ _ _ ls Hinv). fold new.
  by destruct (storage_blocked || quota_exceeded ls keys_readingHistory (VArr new)).
Qed.

Lemma run_call_inv (c : HistoryCall) (ls : LocalStorage) :
  history_inv ls → history_inv (run_call ls c).
Proof.
  intros Hinv. unfold run_call, history_inv.
  rewrite (addToHistory_history _ _ _ _ ls Hinv).
  destruct (storage_blocked || quota_exceeded _ _ _); [done|].
  right. eexists. split; [done|].
  apply history_spec_ok. by apply history_inv_stored.
Qed.

Lemma run_calls_inv (calls : list HistoryCall) (ls : LocalStorage) :
  history_inv ls → history_inv (run_calls calls ls).
Proof.
  revert ls. induction calls as [|c calls IH]; intros ls Hinv; [done|].
  cbn [run_calls foldl]. apply IH. by apply run_call_inv.
Qed.

Lemma run_call_dated (t : string) (c : HistoryCall) (ls : LocalStorage) :
  history_inv ls → history_dated t (stored_history ls) →
  String.leb t (call_now c) = true →
  history_dated (call_now c) (stored_history (run_call ls c)).
Proof.
  intros Hinv Hdated Hle. rewrite (run_call_stored c ls Hinv).
  destruct (storage_blocked || quota_exceeded _ _ _).
  - by eapply history_dated_later.
  - by eapply history_spec_dated.
Qed.

Lemma run_calls_dated (t : string) (calls : list HistoryCall) (ls : LocalStorage) :
  Sorted clock_le calls →
  (∀ c, head calls = Some c → String.leb t (call_now c) = true) →
  history_inv ls → history_dated t (stored_history ls) →
  history_dated (from_option call_now t (last calls)) (stored_history (run_calls calls ls)).
Proof.
  revert t ls. induction calls as [|c calls IH]; intros t ls Hsorted Hhead Hinv Hdated; [done|].
  cbn [run_calls foldl].
  replace (from_option call_now t (last (c :: calls)))
    with (from_option call_now (call_now c) (last calls))
    by (rewrite last_cons; by destruct (last calls)).
  apply IH.
  - by inversion Hsorted.
  - intros c' Hc'. inversion Hsorted as [|? ? _ Hrel]; subst.
    destruct calls as [|c'' calls]; [done|]. injection Hc' as ->.
    by inversion Hrel.
  - by apply run_call_inv.
  - apply (run_call_dated t); [done|done|]. by apply Hhead.
Qed.

Lemma when_set_run (c : bool) (key : string) (value : Value) (ls : LocalStorage) :
  when c (set key value) ls =
    (Ok (), if c && negb (storage_blocked || quota_exceeded ls key value)
            then <[key := Parsed value]> ls else ls).
Proof.
  unfold when. destruct c; [|done]. rewrite bind_run, set_run.
  by destruct (storage_blocked || quota_exceeded ls key value).
Qed.

Lemma when_set_spec (c : bool) (key : string) (value : Value) (ls : LocalStorage) :
  ∃ ls', when c (set key value) ls = (Ok (), ls')
    ∧ (∀ key', key' ≠ key → ls' !! key' = ls !! key')
    ∧ (ls' !! key = ls !! key ∨ c = true ∧ ls' !! key = Some (Parsed value)).
Proof.
  rewrite when_set_run. eexists. split; [done|].
  destruct c; cbn; [|by auto].
  destruct (storage_blocked || quota_exceeded ls key value); cbn; [by auto|].
  split; [intros key' Hne; by rewrite lookup_insert_ne|].
  right. by rewrite lookup_insert_eq.
Qed.

(** [init] returns, and every key is left as it was or holds its
    default. *)
Lemma init_spec (ls : LocalStorage) :
  ∃ ls', init ls = (Ok (), ls')
    ∧ ∀ key, ls' !! key = ls !! key
             ∨ ∃ value, (key, value) ∈ init_defaults ∧ ls' !! key = Some (Parsed value).
Proof.
  unfold init.
  rewrite bind_run, get_run, bind_run.
  match goal with |- context [when ?c (set ?k ?v) ?l] =>
    destruct (when_set_spec c k v l) as (ls1 & -> & Ho1 & Hk1) end.
  rewrite bind_run, get_run, bind_run.
  match goal with |- context [when ?c (set ?k ?v) ?l] =>
    destruct (when_set_spec c k v l) as (ls2 & -> & Ho2 & Hk2) end.
  rewrite bind_run, get_run, bind_run.
  match goal with |- context [when ?c (set ?k ?v) ?l] =>
    destruct (when_set_spec c k v l) as (ls3 & -> & Ho3 & Hk3) end.
  rewrite bind_run, get_run.
  match goal with |- context [when ?c (set ?k ?v) ?l] =>
    destruct (when_set_spec c k v l) as (ls4 & -> & Ho4 & Hk4) end.
  exists ls4. split; [done|]. intros key.
  destruct (decide (key = keys_userPreferences)) as [->|N4].
  { destruct Hk4 as [Hk4|[_ Hk4]].
    - left. rewrite Hk4, Ho3, Ho2, Ho1 by done. done.
    - right. eexists. split; [|exact Hk4]. apply list_elem_of_In; simpl; auto 10. }
  rewrite Ho4 by done.
  destruct (decide (key = keys_readingProgress)) as [->|N3].
  { destruct Hk3 as [Hk3|[_ Hk3]].
    - left. rewrite Hk3, Ho2, Ho1 by done. done.
    - right. eexists. split; [|exact Hk3]. apply list_elem_of_In; simpl; auto 10. }
  rewrite Ho3 by done.
  destruct (decide (key = keys_bookmarks)) as [->|N2].
  { destruct Hk2 as [Hk2|[_ Hk2]].
    - left. rewrite Hk2, Ho1 by done. done.
    - right. eexists. split; [|exact Hk2]. apply list_elem_of_In; simpl; auto 10. }
  rewrite Ho2 by done.
  destruct (decide (key = keys_readingHistory)) as [->|N1].
  { destruct Hk1 as [Hk1|[_ Hk1]].
    - by left.
    - right. eexists. split; [|exact Hk1]. apply list_elem_of_In; simpl; auto 10. }
  left. by rewrite Ho1.
Qed.

Lemma init_defaults_history (value : Value) :
  (keys_readingHistory, value) ∈ init_defaults → value = VArr [].
Proof.
  unfold init_defaults. rewrite !elem_of_cons, elem_of_nil.
  intros [Heq|[Heq|[Heq|[Heq|[]]]]]; by inversion Heq.
Qed.

Lemma constructor_history : history_inv (constructor ∅).2.
Proof.
  unfold constructor. destruct (init_spec ∅) as (ls' & -> & Hkeys). cbn [snd].
  destruct (Hkeys keys_readingHistory) as [Hsame|(value & Hin & Hval)].
  - left. by rewrite Hsame.
  - right. exists []. split; [|apply history_ok_nil].
    by rewrite Hval, (init_defaults_history value Hin).
Qed.

Lemma constructor_stored_history : stored_history (constructor ∅).2 = [].
Proof.
  unfold constructor. destruct (init_spec ∅) as (ls' & -> & Hkeys). cbn [snd].
  unfold stored_history.
  destruct (Hkeys keys_readingHistory) as [Hsame|(value & Hin & Hval)].
  - by rewrite Hsame.
  - by rewrite Hval, (init_defaults_history value Hin).
Qed.

Lemma composite_id_historyItem (mangaData : MangaData) (chapterData : ChapterData)
    (now : string) :
  composite_id (historyItem mangaData chapterData now)
  = Some (md_title mangaData +:+ "_" +:+ cd_title chapterData).
Proof.
  unfold historyItem.
  destruct (or_string _ _), (md_detail_url mangaData), (cd_url chapterData); reflexivity.
Qed.

Lemma run_calls_snoc (calls : list HistoryCall) (c : HistoryCall) (ls : LocalStorage) :
  run_calls (calls ++ [c]) ls = run_call (run_calls calls ls) c.
Proof. unfold run_calls. by rewrite foldl_app. Qed.

Lemma Forall2_filter_sublist {A B : Type} (R : A → B → Prop) (P : B → Prop)
    `{∀ b, Decision (P b)} (la : list A) (lb : list B) :
  Forall2 R la lb →
  ∃ la', la' `sublist_of` la ∧ Forall2 R la' (filter P lb).
Proof.
  induction 1 as [|a b la lb Hab _ (la' & Hsub & Hall)].
  - exists []. by split.
  - rewrite filter_cons. case_decide.
    + exists (a :: la'). split; [by apply sublist_skip|by constructor].
    + exists la'. split; [by apply sublist_cons|done].
Qed.

(** The stored list is ordered by the calls that wrote its entries. *)
Lemma run_calls_recency (calls : list HistoryCall) (ls : LocalStorage) :
  history_inv ls → stored_history ls = [] →
  by_recency calls (stored_history (run_calls calls ls)).
Proof.
  intros Hinv Hnil. induction calls as [|c calls IH] using rev_ind.
  { cbn. rewrite Hnil. exists []. split; constructor. }
  rewrite run_calls_snoc.
  pose proof (run_calls_inv calls ls Hinv) as Hinv'.
  rewrite (run_call_stored c _ Hinv').
  destruct IH as (indices & Hsorted & Hitems).
  assert (Forall (λ i, (i < length calls)%nat) indices) as Hbound.
  { clear -Hitems. induction Hitems as [|i v indices l Hi _ IH]; constructor; [|done].
    destruct (calls !! i) eqn:Hc; [|done]. by eapply lookup_lt_Some. }
  assert (∀ i v, call_item <$> calls !! i = Some v →
                 call_item <$> (calls ++ [c]) !! i = Some v) as Hkeep.
  { intros i v Hi. destruct (calls !! i) as [c'|] eqn:Hc; [|done].
    by rewrite (lookup_app_l_Some _ _ _ _ Hc). }
  destruct (storage_blocked || quota_exceeded _ _ _).
  - exists indices. split; [done|].
    eapply Forall2_impl; [exact Hitems|]. exact Hkeep.
  - unfold history_spec.
    destruct (Forall2_filter_sublist _
                (λ v, item_id v ≠ Some (history_id (call_manga c) (call_chapter c)))
                indices _ Hitems) as (indices' & Hsub & Hitems').
    exists (take 100 (length calls :: indices')). split.
    + eapply StronglySorted_sublist; [apply sublist_take|].
      constructor; [by eapply StronglySorted_sublist|].
      by eapply Forall_sublist.
    + apply Forall2_take. constructor.
      * by rewrite list_lookup_middle.
      * eapply Forall2_impl; [exact Hitems'|]. exact Hkeep.
Qed.

(** Every entry of a list ordered by the calls is an entry the code
    wrote: its id is its composite id. *)
Lemma by_recency_composite (calls : list HistoryCall) (l : list Value) :
  by_recency calls l →
  Forall (λ v, is_Some (composite_id v) ∧ item_id v = composite_id v) l.
Proof.
  intros (indices & _ & Hitems).
  induction Hitems as [|i v indices l Hi _ IH]; constructor; [|done].
  destruct (calls !! i) as [c|]; [|done]. injection Hi as <-.
  unfold call_item. rewrite composite_id_historyItem, item_id_historyItem. by split.
Qed.

Lemma filter_composite (id : string) (l : list Value) :
  Forall (λ v, is_Some (composite_id v) ∧ item_id v = composite_id v) l →
  filter (λ v, item_id v ≠ Some id) l = filter (λ v, composite_id v ≠ Some id) l.
Proof.
  induction 1 as [|v l [_ Hv] _ IH]; [done|].
  rewrite !filter_cons, IH, Hv. by repeat case_decide.
Qed.

(** C2. From the store a fresh [StorageManager] leaves on an empty
    [localStorage], after every sequence of [addToHistory] calls the
    stored history is ordered most recent first: its entries are entries
    of calls of the sequence, each written by a later call than every
    entry after it.  The id of every entry is its composite id, the
    title and the chapter title joined by ["_"]; no two entries have the
    same composite id, and there are at most 100 entries.  When the clock
    did not run backwards between the calls the list is also ordered by
    its [readAt] timestamps.  A further call whose write succeeds stores
    the new entry in front of the stored list with every entry of the
    same composite id removed, cut after 100 entries; a call whose write
    fails leaves the stored list as it was. *)
Theorem history_invariant (calls : list HistoryCall) :
  let ls := run_calls calls (constructor ∅).2 in
  let l := stored_history ls in
  by_recency calls l
  ∧ (Forall (λ v, is_Some (composite_id v) ∧ item_id v = composite_id v) l
     ∧ NoDup (composite_id <$> l)
     ∧ (length l ≤ 100)%nat)
  ∧ (Sorted clock_le calls → recent_first l)
  ∧ ∀ c : HistoryCall,
      let id := md_title (call_manga c) +:+ "_" +:+ cd_title (call_chapter c) in
      let new := take 100 (call_item c :: filter (λ v, composite_id v ≠ Some id) l) in
      composite_id (call_item c) = Some id
      ∧ stored_history (run_call ls c) =
          if storage_blocked || quota_exceeded ls keys_readingHistory (VArr new)
          then l else new.
Proof.
  intros ls l.
  assert (history_inv ls) as Hinv by (apply run_calls_inv, constructor_history).
  assert (by_recency calls l) as Hrecency.
  { apply run_calls_recency; [apply constructor_history|apply constructor_stored_history]. }
  pose proof (by_recency_composite calls l Hrecency) as Hcomposite.
  destruct (history_inv_stored ls Hinv) as [[He Hu Hl] _].
  split; [done|]. split; [|split].
  - split; [done|]. split; [|done].
    replace (composite_id <$> l) with (item_id <$> l); [done|].
    apply Forall_fmap_ext. eapply Forall_impl; [exact Hcomposite|]. by intros v [_ Hv].
  - intros Hsorted.
    set (t0 := from_option call_now EmptyString (head calls)).
    refine (proj1 (run_calls_dated t0 calls _ Hsorted _ constructor_history _)).
    + intros c Hc. unfold t0. rewrite Hc. apply String_leb_refl.
    + rewrite constructor_stored_history. apply history_dated_nil.
  - intros c id new. split; [apply composite_id_historyItem|].
    rewrite (run_call_stored c ls Hinv). unfold history_spec, history_id. fold l.
    rewrite (filter_composite _ l Hcomposite). reflexivity.
Qed.

End history.

Lemma history_invariant_witness :
  recent_first (stored_history (@run_calls reliable reading_session (@constructor reliable ∅).2)).
Proof.
  apply (proj1 (proj2 (proj2 (@history_invariant reliable reading_session)))).
  repeat constructor.
Defined.

Section bookmarks.
Context `{Browser}.

Lemma id_is_other (id : string) (v : Value) :
  v ≠ VNull → item_id v ≠ Some id → id_is id v = Ok false.
Proof.
  intros Hnull Hid. destruct v as [| | |s|l|m]; try done.
  unfold id_is. cbn. unfold item_id in Hid.
  destruct (m !! "id") as [[| | |s'| |]|]; try done.
  cbn. f_equal. apply String.eqb_neq. intros ->. by apply Hid.
Qed.

Lemma item_id_bookmarkOf (mangaData : MangaData) (now : string) :
  item_id (bookmarkOf mangaData now) = Some (md_title mangaData).
Proof.
  unfold bookmarkOf.
  destruct (or_string _ _), (md_detail_url mangaData); reflexivity.
Qed.

(** C4. On a store whose bookmark list has no entry for the title, and
    whose storage reads and accepts the write, two calls of [addBookmark]
    with entries of the same title (whatever their other fields, the
    source included) behave as follows: the first returns the bookmark it
    created and stores it in front of the list; the second returns
    [false] and leaves the whole storage as the first call left it; the
    stored list then holds exactly one bookmark with that id. *)
Theorem addBookmark_idempotent (mangaData mangaData' : MangaData) (now now' : string)
    (ls : LocalStorage) :
  md_title mangaData' = md_title mangaData →
  bookmarks_shape ls →
  Forall (λ v, v ≠ VNull ∧ item_id v ≠ Some (md_title mangaData)) (stored_bookmarks ls) →
  storage_blocked = false →
  quota_exceeded ls keys_bookmarks
    (VArr (bookmarkOf mangaData now :: stored_bookmarks ls)) = false →
  let first := addBookmark mangaData now ls in
  let second := addBookmark mangaData' now' first.2 in
  first.1 = Ok (bookmarkOf mangaData now)
  ∧ stored_bookmarks first.2 = bookmarkOf mangaData now :: stored_bookmarks ls
  ∧ second.1 = Ok (VBool false)
  ∧ second.2 = first.2
  ∧ filter (λ v, item_id v = Some (md_title mangaData)) (stored_bookmarks second.2)
    = [bookmarkOf mangaData now].
Proof.
  intros Htitle Hshape Hfresh Hread Hwrite first second.
  set (bookmark := bookmarkOf mangaData now) in *.
  set (l := stored_bookmarks ls) in *.
  assert (Forall (λ v, id_is (md_title mangaData) v = Ok false) l) as Hnone.
  { eapply Forall_impl; [exact Hfresh|]. intros v [Hnull Hid]. by apply id_is_other. }
  assert (first = (Ok bookmark, <[keys_bookmarks := Parsed (VArr (bookmark :: l))]> ls))
    as Hfirst.
  { unfold first, addBookmark.
    rewrite bind_run, get_run, Hread, Hshape. fold l. cbn [as_array].
    rewrite bind_run, lift_run, bind_run, lift_run.
    unfold findIndex. rewrite findIndex_from_absent by done.
    rewrite bool_decide_eq_false_2 by (intros Hne; by apply Hne).
    rewrite bind_run, set_run, Hread. cbn [orb]. fold bookmark. by rewrite Hwrite. }
  assert (stored_bookmarks first.2 = bookmark :: l) as Hstored.
  { rewrite Hfirst. unfold stored_bookmarks. cbn [snd]. by rewrite lookup_insert_eq. }
  assert (second = (Ok (VBool false), first.2)) as Hsecond.
  { unfold second, addBookmark.
    rewrite bind_run, get_run, Hread.
    assert (stored_value first.2 keys_bookmarks = VArr (bookmark :: l)) as ->.
    { rewrite Hfirst. unfold stored_value. cbn [snd]. by rewrite lookup_insert_eq. }
    cbn [or_else truthy as_array].
    rewrite bind_run, lift_run, bind_run, lift_run.
    unfold findIndex. rewrite Htitle.
    rewrite (findIndex_from_found _ _ 0%Z 0%nat bookmark); [done|done| |intros j y Hj; lia].
    unfold bookmark. rewrite (id_is_item _ _ _ (item_id_bookmarkOf mangaData now)).
    by rewrite String.eqb_refl. }
  rewrite Hsecond. cbn [fst snd]. rewrite Hstored, Hfirst. cbn [fst snd].
  repeat split.
  rewrite filter_cons_True by apply item_id_bookmarkOf.
  f_equal. fold l. clear -Hfresh. induction Hfresh as [|v l' [_ Hv] _ IH]; [done|].
  by rewrite filter_cons_False.
Qed.

End bookmarks.

Lemma addBookmark_idempotent_witness :
  (@addBookmark reliable solo_leveling_beta "2025-03-02T08:00:00.000Z"
     (@addBookmark reliable solo_leveling "2025-03-01T09:00:00.000Z" ∅).2).1
  = Ok (VBool false).
Proof.
  refine (proj1 (proj2 (proj2 (@addBookmark_idempotent reliable solo_leveling solo_leveling_beta
    "2025-03-01T09:00:00.000Z" "2025-03-02T08:00:00.000Z" ∅ eq_refl eq_refl _ eq_refl eq_refl)))).
  constructor.
Defined.

(** C4, as stated, fails: with the quota exhausted the write of the
    first call is refused and nothing is stored, so the second call with
    the same title finds no bookmark and returns the bookmark it made,
    not [false]; the store then holds no bookmark with that id, not
    exactly one. *)
Lemma addBookmark_twice_unstored :
  let first := @addBookmark quota_full solo_leveling "2025-03-01T09:00:00.000Z" ∅ in
  let second := @addBookmark quota_full solo_leveling_beta "2025-03-02T08:00:00.000Z" first.2 in
  first.1 = Ok (bookmarkOf solo_leveling "2025-03-01T09:00:00.000Z")
  ∧ second.1 = Ok (bookmarkOf solo_leveling_beta "2025-03-02T08:00:00.000Z")
  ∧ second.1 ≠ Ok (VBool false)
  ∧ filter (λ v, item_id v = Some "Solo Leveling") (stored_bookmarks second.2) = [].
Proof. vm_compute. repeat split. discriminate. Qed.

Section preferences.
Context `{Browser}.


End preferences.


Section import.
Context `{Browser}.

Lemma import_category_run (data : gmap string Value) (k key : string) (ls : LocalStorage) :
  import_category (VObj data) k key ls =
    (Ok (), if truthy_opt (data !! k)
               && negb (storage_blocked || quota_exceeded ls key (default VNull (data !! k)))
            then <[key := Parsed (default VNull (data !! k))]> ls else ls).
Proof.
  unfold import_category. rewrite bind_run, lift_run. cbn [prop]. apply when_set_run.
Qed.

(** C5, amended.  When the storage is reachable and accepts every
    write, importing a bundle whose history and bookmarks payloads are
    arrays stores both payloads as they are, whatever the preferences
    payload is; the stored preferences are left as they were when the
    preferences payload is falsy (absent, [null], [false], [0] or the
    empty string), and are replaced by the payload as it is when the
    payload is truthy, well-formed or not. *)
Theorem importData_categories (bundle : gmap string Value) (history bookmarks : list Value)
    (ls : LocalStorage) :
  storage_blocked = false →
  (∀ ls' key value, quota_exceeded ls' key value = false) →
  bundle !! "readingHistory" = Some (VArr history) →
  bundle !! "bookmarks" = Some (VArr bookmarks) →
  let r := importData (VObj bundle) ls in
  r.1 = Ok true
  ∧ r.2 !! keys_readingHistory = Some (Parsed (VArr history))
  ∧ r.2 !! keys_bookmarks = Some (Parsed (VArr bookmarks))
  ∧ r.2 !! keys_userPreferences =
      if truthy_opt (bundle !! "userPreferences")
      then Parsed <$> bundle !! "userPreferences"
      else ls !! keys_userPreferences.
Proof.
  intros Hread Hquota Hh Hb r.
  unfold r, importData, try_catch.
  rewrite bind_run, import_category_run, bind_run, import_category_run.
  rewrite bind_run, import_category_run, bind_run, import_category_run.
  rewrite Hread, !Hquota, Hh, Hb. cbn [orb negb andb truthy_opt truthy default].
  rewrite !andb_true_r. rewrite ret_run. cbn [fst snd].
  split; [done|].
  destruct (truthy_opt (bundle !! "userPreferences")) eqn:Hu;
    destruct (truthy_opt (bundle !! "readingProgress")) eqn:Hp;
    repeat split; simplify_map_eq; try done.
  all: by destruct (bundle !! "userPreferences").
Qed.

End import.

(** C5, as stated, fails: on a freshly initialized store, importing the
    bundle stores the history and the bookmarks, and also overwrites the
    stored preferences with the corrupted payload. *)
Lemma importData_corrupted_preferences :
  let ls := (@constructor reliable ∅).2 in
  let r := @importData reliable corrupted_bundle ls in
  ls !! keys_userPreferences = Some (Parsed default_preferences)
  ∧ r.1 = Ok true
  ∧ r.2 !! keys_readingHistory
    = Some (Parsed (VArr [historyItem solo_leveling chapter_1 "2025-03-01T10:00:00.000Z"]))
  ∧ r.2 !! keys_bookmarks
    = Some (Parsed (VArr [bookmarkOf solo_leveling "2025-03-01T09:00:00.000Z"]))
  ∧ r.2 !! keys_userPreferences = Some (Parsed (VStr "{theme:"))
  ∧ r.2 !! keys_userPreferences ≠ ls !! keys_userPreferences.
Proof. vm_compute. repeat split; discriminate. Qed.

Lemma importData_categories_witness :
  let ls := (@constructor reliable ∅).2 in
  (@importData reliable corrupted_bundle ls).2 !! keys_userPreferences
  = Some (Parsed (VStr "{theme:")).
Proof.
  pose proof (@importData_categories reliable
    (list_to_map [("readingHistory",
                   VArr [historyItem solo_leveling chapter_1 "2025-03-01T10:00:00.000Z"]);
                  ("bookmarks", VArr [bookmarkOf solo_leveling "2025-03-01T09:00:00.000Z"]);
                  ("userPreferences", VStr "{theme:")])
    [historyItem solo_leveling chapter_1 "2025-03-01T10:00:00.000Z"]
    [bookmarkOf solo_leveling "2025-03-01T09:00:00.000Z"]
    (@constructor reliable ∅).2
    eq_refl (λ _ _ _, eq_refl) eq_refl eq_refl) as (_ & _ & _ & Hprefs).
  exact Hprefs.
Defined.

Section failures.
Context `{Browser}.

Lemma list_shape_read (ls : LocalStorage) (key : string) :
  list_shape (stored_value ls key) → list_shape (read ls key).
Proof.
  unfold read. destruct storage_blocked; [|done]. intros _. by exists [].
Qed.

Lemma dict_shape_read (ls : LocalStorage) (key : string) :
  dict_shape (stored_value ls key) → dict_shape (read ls key).
Proof.
  unfold read. destruct storage_blocked; [|done]. intros _. by exists ∅.
Qed.

Lemma id_is_total (id : string) (l : list Value) :
  Forall (λ x, x ≠ VNull) l → Forall (λ x, ∃ b, id_is id x = Ok b) l.
Proof.
  intros Hl. eapply Forall_impl; [exact Hl|]. intros x Hx. unfold id_is.
  destruct x; try done; cbn; eauto.
Qed.

Lemma findIndex_id_is_total (id : string) (l : list Value) :
  Forall (λ x, x ≠ VNull) l → ∃ i, findIndex (id_is id) l = Ok i.
Proof.
  intros Hl. unfold findIndex.
  destruct (findIndex_from_cases (id_is id) l 0%Z (id_is_total id l Hl))
    as [[-> _]|(i & x & -> & _)]; eauto.
Qed.

Lemma filterR_id_is_not_total (id : string) (l : list Value) :
  Forall (λ x, x ≠ VNull) l → ∃ r, filterR (id_is_not id) l = Ok r.
Proof.
  induction 1 as [|x l Hx _ [r IH]]; [by eexists|].
  cbn [filterR].
  assert (∃ b, id_is_not id x = Ok b) as [b ->].
  { unfold id_is_not. destruct x; try done; cbn; eauto. }
  rewrite IH. cbn. eauto.
Qed.

Lemma id_is_true_object (id : string) (x : Value) :
  id_is id x = Ok true → ∃ m, x = VObj m.
Proof.
  unfold id_is. destruct x as [| | |s|l|m]; try done; eauto.
Qed.

Lemma set_returns (key : string) (value : Value) (ls : LocalStorage) :
  set key value ls =
    (Ok (negb (write_fails ls key value)),
     if write_fails ls key value then ls else <[key := Parsed value]> ls).
Proof. rewrite set_run. unfold write_fails. by destruct (storage_blocked || _). Qed.

Lemma updateReadingProgress_returns (mangaTitle chapterTitle now : string) (ls : LocalStorage) :
  dict_shape (stored_value ls keys_readingProgress) →
  returns (updateReadingProgress mangaTitle chapterTitle now) ls.
Proof.
  intros [m Hm]%dict_shape_read. unfold returns, updateReadingProgress.
  rewrite bind_run, get_run. fold (read ls keys_readingProgress). rewrite Hm.
  rewrite bind_run, lift_run. cbn [prop].
  rewrite bind_run, lift_run. cbn [put].
  rewrite bind_run, set_returns. rewrite ret_run. eauto.
Qed.

Lemma addToHistory_returns (mangaData : MangaData) (chapterData : ChapterData)
    (now now' : string) (ls : LocalStorage) :
  well_shaped ls →
  ∃ ls', addToHistory mangaData chapterData now now' ls
         = (Ok (historyItem mangaData chapterData now), ls').
Proof.
  intros ([l [Hl Hnn]]%list_shape_read & _ & Hp). unfold addToHistory.
  rewrite bind_run, get_run. fold (read ls keys_readingHistory). rewrite Hl.
  cbn [as_array]. rewrite bind_run, lift_run, bind_run, lift_run.
  destruct (findIndex_id_is_total (history_id mangaData chapterData) l Hnn) as [i ->].
  rewrite bind_run, set_returns.
  rewrite bind_run.
  match goal with |- context [updateReadingProgress ?a ?b ?c ?l] =>
    destruct (updateReadingProgress_returns a b c l) as ([] & ls' & ->) end.
  - unfold stored_value. destruct (write_fails _ _ _); [done|].
    by rewrite lookup_insert_ne.
  - rewrite ret_run. eauto.
Qed.

Lemma getReadingHistory_returns (limit : nat) (ls : LocalStorage) :
  well_shaped ls → returns (getReadingHistory limit) ls.
Proof.
  intros ([l [Hl Hnn]]%list_shape_read & _). unfold returns, getReadingHistory.
  rewrite bind_run, get_run. fold (read ls keys_readingHistory). rewrite Hl.
  rewrite lift_run. cbn. eauto.
Qed.

Lemma clearHistory_returns (ls : LocalStorage) : returns clearHistory ls.
Proof. unfold returns, clearHistory. rewrite bind_run, set_returns, ret_run. eauto. Qed.

Lemma addBookmark_returns (mangaData : MangaData) (now : string) (ls : LocalStorage) :
  well_shaped ls →
  ∃ ls', addBookmark mangaData now ls
         = (Ok (if bookmark_found (md_title mangaData) ls then VBool false
                else bookmarkOf mangaData now), ls').
Proof.
  intros (_ & [l [Hl Hnn]]%list_shape_read & _). unfold addBookmark, bookmark_found.
  rewrite bind_run, get_run. fold (read ls keys_bookmarks). rewrite Hl.
  cbn [as_array]. rewrite bind_run, lift_run, bind_run, lift_run.
  destruct (findIndex_id_is_total (md_title mangaData) l Hnn) as [i ->].
  case_bool_decide; [rewrite ret_run; eauto|].
  rewrite bind_run, set_returns, ret_run. eauto.
Qed.

Lemma removeBookmark_returns (mangaTitle : string) (ls : LocalStorage) :
  well_shaped ls → ∃ ls', removeBookmark mangaTitle ls = (Ok true, ls').
Proof.
  intros (_ & [l [Hl Hnn]]%list_shape_read & _). unfold removeBookmark.
  rewrite bind_run, get_run. fold (read ls keys_bookmarks). rewrite Hl.
  cbn [as_array]. rewrite bind_run, lift_run, bind_run, lift_run.
  destruct (filterR_id_is_not_total mangaTitle l Hnn) as [r ->].
  rewrite bind_run, set_returns, ret_run. eauto.
Qed.

Lemma getBookmarks_returns (ls : LocalStorage) : returns getBookmarks ls.
Proof. unfold returns, getBookmarks. rewrite bind_run, get_run, ret_run. eauto. Qed.

Lemma isBookmarked_returns (mangaTitle : string) (ls : LocalStorage) :
  well_shaped ls → returns (isBookmarked mangaTitle) ls.
Proof.
  intros (_ & [l [Hl Hnn]]%list_shape_read & _). unfold returns, isBookmarked.
  rewrite bind_run, get_run. fold (read ls keys_bookmarks). rewrite Hl.
  cbn [as_array]. rewrite bind_run, lift_run, bind_run, lift_run.
  destruct (findIndex_id_is_total mangaTitle l Hnn) as [i ->].
  rewrite ret_run. eauto.
Qed.

Lemma updateBookmarkStatus_returns (mangaTitle status : string) (ls : LocalStorage) :
  well_shaped ls → returns (updateBookmarkStatus mangaTitle status) ls.
Proof.
  intros (_ & [l [Hl Hnn]]%list_shape_read & _). unfold returns, updateBookmarkStatus.
  rewrite bind_run, get_run. fold (read ls keys_bookmarks). rewrite Hl.
  cbn [as_array]. rewrite bind_run, lift_run, bind_run, lift_run. unfold findIndex.
  destruct (findIndex_from_cases (id_is mangaTitle) l 0%Z (id_is_total mangaTitle l Hnn))
    as [[-> _]|(i & x & -> & Hi & Hx & _)].
  - rewrite bool_decide_eq_true_2 by done. rewrite ret_run. eauto.
  - rewrite bool_decide_eq_false_2 by lia.
    replace (Z.to_nat (0 + Z.of_nat i)) with i by lia. rewrite Hi.
    destruct (id_is_true_object _ _ Hx) as [m ->]. cbn [truthy put].
    rewrite bind_run, lift_run, bind_run, set_returns, ret_run. eauto.
Qed.

Lemma getReadingProgress_returns (mangaTitle : string) (ls : LocalStorage) :
  well_shaped ls → returns (getReadingProgress mangaTitle) ls.
Proof.
  intros (_ & _ & [m Hm]%dict_shape_read). unfold returns, getReadingProgress.
  rewrite bind_run, get_run. fold (read ls keys_readingProgress). rewrite Hm.
  rewrite bind_run, lift_run. cbn [prop]. rewrite ret_run. eauto.
Qed.

Lemma updatePreferences_returns (newPreferences : option Value) (ls : LocalStorage) :
  ∃ ls', updatePreferences newPreferences ls
         = (Ok (spread2 (Some (or_else (read ls keys_userPreferences) (VObj ∅))) newPreferences),
            ls').
Proof.
  unfold updatePreferences, getPreferences.
  rewrite bind_run, bind_run, get_run, ret_run, bind_run, set_returns, ret_run. eauto.
Qed.

Lemma exportData_returns (now : string) (ls : LocalStorage) : returns (exportData now) ls.
Proof.
  unfold returns, exportData.
  rewrite bind_run, get_run, bind_run, get_run, bind_run, get_run, bind_run, get_run, ret_run.
  eauto.
Qed.

Lemma importData_returns (data : Value) (ls : LocalStorage) : returns (importData data) ls.
Proof.
  unfold returns, importData, try_catch.
  match goal with |- context [let (_, _) := ?body ls in _] => destruct (body ls) as [[b|e] ls'] end.
  - eauto.
  - rewrite ret_run. eauto.
Qed.

Lemma importData_object (data : gmap string Value) (ls : LocalStorage) :
  ∃ ls', importData (VObj data) ls = (Ok true, ls').
Proof.
  unfold importData, try_catch.
  rewrite bind_run, import_category_run, bind_run, import_category_run.
  rewrite bind_run, import_category_run, bind_run, import_category_run, ret_run. eauto.
Qed.

End failures.

Section contained.
Context `{Browser}.

(** [clearAllData] is the one operation that touches [localStorage]
    outside [get] and [set]: it returns when the storage is reachable and
    raises the SecurityError of [removeItem] when it is not. *)
Lemma clearAllData_outcome (ls : LocalStorage) :
  if storage_blocked then clearAllData ls = (Throw SecurityError, ls)
  else returns clearAllData ls.
Proof.
  unfold clearAllData, returns.
  destruct storage_blocked eqn:Hb.
  { rewrite bind_run. unfold removeItem at 1. by rewrite Hb. }
  rewrite bind_run. unfold removeItem at 1. rewrite Hb.
  rewrite bind_run. unfold removeItem at 1. rewrite Hb.
  rewrite bind_run. unfold removeItem at 1. rewrite Hb.
  rewrite bind_run. unfold removeItem at 1. rewrite Hb.
  destruct (init_spec (delete keys_userPreferences (delete keys_readingProgress
              (delete keys_bookmarks (delete keys_readingHistory ls))))) as (ls' & -> & _).
  eauto.
Qed.

Lemma getPreferences_returns (ls : LocalStorage) : returns getPreferences ls.
Proof. unfold returns, getPreferences. rewrite bind_run, get_run, ret_run. eauto. Qed.

(** [setTotalChapters] assigns a property on the entry of the title: it
    raises the TypeError of that assignment exactly when the entry is a
    truthy primitive, before anything is written. *)
Lemma setTotalChapters_outcome (mangaTitle : string) (totalChapters : Value)
    (ls : LocalStorage) :
  dict_shape (stored_value ls keys_readingProgress) →
  if assignable (progress_entry ls mangaTitle)
  then returns (setTotalChapters mangaTitle totalChapters) ls
  else setTotalChapters mangaTitle totalChapters ls = (Throw TypeError, ls).
Proof.
  intros [m Hm]%dict_shape_read. unfold progress_entry, returns, setTotalChapters.
  rewrite bind_run, get_run. fold (read ls keys_readingProgress). rewrite Hm.
  rewrite bind_run, lift_run. cbn [prop].
  destruct (m !! mangaTitle) as [[|b|z|s|l|old]|]; cbn [assignable truthy_opt truthy negb].
  - rewrite bind_run, lift_run. cbn [put]. rewrite bind_run, set_returns, ret_run. eauto.
  - destruct b; cbn [negb].
    + by rewrite bind_run, bind_run, lift_run.
    + rewrite bind_run, lift_run. cbn [put]. rewrite bind_run, set_returns, ret_run. eauto.
  - destruct (negb (z =? 0)%Z); cbn [negb].
    + by rewrite bind_run, bind_run, lift_run.
    + rewrite bind_run, lift_run. cbn [put]. rewrite bind_run, set_returns, ret_run. eauto.
  - destruct (negb (String.eqb s EmptyString)); cbn [negb].
    + by rewrite bind_run, bind_run, lift_run.
    + rewrite bind_run, lift_run. cbn [put]. rewrite bind_run, set_returns, ret_run. eauto.
  - rewrite bind_run, bind_run, lift_run. cbn [from_option]. unfold id.
    assert (put (VArr l) "totalChapters" totalChapters = Ok (VArr l)) as -> by reflexivity.
    rewrite lift_run. cbn [put]. rewrite bind_run, set_returns, ret_run. eauto.
  - rewrite bind_run, bind_run, lift_run. cbn [from_option]. unfold id. cbn [put].
    rewrite lift_run. cbn [put]. rewrite bind_run, set_returns, ret_run. eauto.
  - rewrite bind_run, lift_run. cbn [put]. rewrite bind_run, set_returns, ret_run. eauto.
Qed.

(** C6, amended.  [get] and [set] raise nothing: [get] returns [null]
    when the underlying read fails, and [set] returns [false], leaving
    the storage as it was, when the underlying write fails.  On a store
    whose categories have the expected shape, no operation built on them
    raises, whatever fails underneath, with one exception:
    [setTotalChapters] raises a TypeError, and writes nothing, exactly
    when the progress entry it reads for the title is a truthy primitive.
    [clearAllData], which removes the keys outside [get] and [set],
    raises exactly when the storage cannot be accessed.
    The operations that write discard
    the result of [set]: what they return is fixed by their arguments and
    by what [get] reads (the entry for [addToHistory], the bookmark or
    [false] for a duplicate for [addBookmark], [true] for
    [removeBookmark] and [importData], the merge for
    [updatePreferences]), the same whether the write succeeded or
    failed. *)
Theorem storage_failures_contained (ls : LocalStorage) :
  well_shaped ls →
  (∀ key, get key ls = (Ok (read ls key), ls)
          ∧ (read_fails ls key → read ls key = VNull))
  ∧ (∀ key value,
       set key value ls =
         (Ok (negb (write_fails ls key value)),
          if write_fails ls key value then ls else <[key := Parsed value]> ls))
  ∧ (∀ mangaData chapterData now now',
       ∃ ls', addToHistory mangaData chapterData now now' ls
              = (Ok (historyItem mangaData chapterData now), ls'))
  ∧ (∀ mangaData now,
       ∃ ls', addBookmark mangaData now ls
              = (Ok (if bookmark_found (md_title mangaData) ls then VBool false
                     else bookmarkOf mangaData now), ls'))
  ∧ (∀ mangaTitle, ∃ ls', removeBookmark mangaTitle ls = (Ok true, ls'))
  ∧ (∀ newPreferences,
       ∃ ls', updatePreferences newPreferences ls
              = (Ok (spread2 (Some (or_else (read ls keys_userPreferences) (VObj ∅)))
                       newPreferences), ls'))
  ∧ (∀ data : gmap string Value, ∃ ls', importData (VObj data) ls = (Ok true, ls'))
  ∧ (∀ data : Value, returns (importData data) ls)
  ∧ (∀ limit, returns (getReadingHistory limit) ls)
  ∧ returns clearHistory ls
  ∧ returns getBookmarks ls
  ∧ (∀ mangaTitle, returns (isBookmarked mangaTitle) ls)
  ∧ (∀ mangaTitle status, returns (updateBookmarkStatus mangaTitle status) ls)
  ∧ (∀ mangaTitle chapterTitle now, returns (updateReadingProgress mangaTitle chapterTitle now) ls)
  ∧ (∀ mangaTitle, returns (getReadingProgress mangaTitle) ls)
  ∧ (∀ now, returns (exportData now) ls)
  ∧ returns init ls
  ∧ returns constructor ls
  ∧ returns getPreferences ls
  ∧ (∀ mangaTitle totalChapters,
       if assignable (progress_entry ls mangaTitle)
       then returns (setTotalChapters mangaTitle totalChapters) ls
       else setTotalChapters mangaTitle totalChapters ls = (Throw TypeError, ls))
  ∧ (if storage_blocked then clearAllData ls = (Throw SecurityError, ls)
     else returns clearAllData ls).
Proof.
  intros Hshape. repeat apply conj.
  - intros key. split; [apply get_run|].
    unfold read, read_fails, stored_value.
    intros [-> | ->]; [done|]. by destruct storage_blocked.
  - intros key value. apply set_returns.
  - intros. by apply addToHistory_returns.
  - intros. by apply addBookmark_returns.
  - intros. by apply removeBookmark_returns.
  - intros. apply updatePreferences_returns.
  - intros. apply importData_object.
  - intros. apply importData_returns.
  - intros. by apply getReadingHistory_returns.
  - apply clearHistory_returns.
  - apply getBookmarks_returns.
  - intros. by apply isBookmarked_returns.
  - intros. by apply updateBookmarkStatus_returns.
  - intros. apply updateReadingProgress_returns. by destruct Hshape as (_ & _ & ?).
  - intros. by apply getReadingProgress_returns.
  - intros. apply exportData_returns.
  - destruct (init_spec ls) as (ls' & Hrun & _). unfold returns. eauto.
  - destruct (init_spec ls) as (ls' & Hrun & _). unfold returns, constructor. eauto.
  - apply getPreferences_returns.
  - intros. apply setTotalChapters_outcome. by destruct Hshape as (_ & _ & ?).
  - apply clearAllData_outcome.
Qed.

End contained.

(** C6, as stated, fails: with the quota exhausted the write of the
    bookmark fails ([set] returns [false] and nothing is stored), yet
    [addBookmark] returns the bookmark, the very value it returns when
    the write succeeds, and not [false]. *)
Lemma addBookmark_hides_write_failure :
  let bookmark := bookmarkOf solo_leveling "2025-03-01T09:00:00.000Z" in
  @set quota_full keys_bookmarks (VArr [bookmark]) ∅ = (Ok false, ∅)
  ∧ @addBookmark quota_full solo_leveling "2025-03-01T09:00:00.000Z" ∅ = (Ok bookmark, ∅)
  ∧ (@addBookmark reliable solo_leveling "2025-03-01T09:00:00.000Z" ∅).1 = Ok bookmark
  ∧ bookmark ≠ VBool false
  ∧ @isBookmarked quota_full "Solo Leveling" ∅ = (Ok false, ∅).
Proof. vm_compute. repeat split. discriminate. Qed.

(** A progress dictionary in which the entry of the title is the number
    of chapters itself: [setTotalChapters] raises, on storage that works. *)
Lemma setTotalChapters_raises :
  let ls : LocalStorage :=
    {[ keys_readingProgress := Parsed (VObj {["Solo Leveling" := VNum 179]}) ]} in
  well_shaped ls
  ∧ @setTotalChapters reliable "Solo Leveling" (VNum 180) ls = (Throw TypeError, ls).
Proof.
  split; [|vm_compute; reflexivity].
  repeat split.
  - exists []. by split.
  - exists []. by split.
  - by eexists.
Qed.

Lemma well_shaped_empty : well_shaped ∅.
Proof.
  repeat split.
  - exists []. by split.
  - exists []. by split.
  - by exists ∅.
Defined.

Lemma storage_failures_contained_witness :
  ∃ ls', @addToHistory no_access solo_leveling chapter_1
           "2025-03-01T10:00:00.000Z" "2025-03-01T10:00:00.001Z" ∅
         = (Ok (historyItem solo_leveling chapter_1 "2025-03-01T10:00:00.000Z"), ls').
Proof.
  destruct (@storage_failures_contained no_access ∅ well_shaped_empty) as (_ & _ & Hadd & _).
  exact (Hadd solo_leveling chapter_1 "2025-03-01T10:00:00.000Z" "2025-03-01T10:00:00.001Z").
Defined.

End StorageTheory.

(* ===================================================================== *)
(** ** The persistent store: what the operations do *)
(* ===================================================================== *)

Module StorageLaws.

Import StorageManager Props Samples JsFacts StorageTheory.

Lemma reliable_accepting : @accepting reliable.
Proof. split; [reflexivity|]. intros ls key value. reflexivity. Qed.

Lemma shelf_shape :
  bookmarks_shape shelf ∧ Forall (λ v, v ≠ VNull) (stored_bookmarks shelf).
Proof. split; [reflexivity|]. repeat constructor. discriminate. Qed.

Lemma journal_shape :
  history_shape journal ∧ history_ok (stored_history journal) ∧ progress_shape journal.
Proof.
  split; [reflexivity|]. split; [|reflexivity]. split.
  - repeat constructor. by eexists.
  - repeat constructor. by intros ?%elem_of_nil.
  - vm_compute. lia.
Qed.

Lemma journal_entries : Forall (λ v, v ≠ VNull) (stored_history journal).
Proof. repeat constructor. discriminate. Qed.

Lemma empty_shape : progress_shape ∅ ∧ history_shape ∅ ∧ bookmarks_shape ∅.
Proof. repeat split; vm_compute; reflexivity. Qed.

Lemma solo_leveling_own : "Solo Leveling" ∉ Object_prototype.
Proof.
  unfold Object_prototype. rewrite !not_elem_of_cons.
  repeat split; try discriminate. apply not_elem_of_nil.
Qed.

Lemma id_is_bool (id : string) (v : Value) :
  v ≠ VNull → id_is id v = Ok (bool_decide (item_id v = Some id)).
Proof.
  intros Hnull. destruct v as [| | |s|l|m]; try done.
  unfold id_is, item_id. cbn.
  destruct (m !! "id") as [[| | |s'| |]|]; try done.
  cbn. f_equal. destruct (String.eqb_spec s' id) as [->|Hne].
  - by rewrite bool_decide_eq_true_2.
  - rewrite bool_decide_eq_false_2; [done|]. by intros [= ->].
Qed.

Lemma id_is_not_bool (id : string) (v : Value) :
  v ≠ VNull → id_is_not id v = Ok (bool_decide (item_id v ≠ Some id)).
Proof.
  intros Hnull. destruct v as [| | |s|l|m]; try done.
  unfold id_is_not, item_id. cbn.
  destruct (m !! "id") as [[| | |s'| |]|]; try done.
  cbn. f_equal. destruct (String.eqb_spec s' id) as [->|Hne]; cbn.
  - rewrite bool_decide_eq_false_2; [done|]. by intros Hne.
  - rewrite bool_decide_eq_true_2; [done|]. by intros [= ->].
Qed.

Lemma filterR_id_is_not (id : string) (l : list Value) :
  Forall (λ v, v ≠ VNull) l →
  filterR (id_is_not id) l = Ok (filter (λ v, item_id v ≠ Some id) l).
Proof.
  induction 1 as [|v l Hv _ IH]; [done|].
  cbn [filterR]. rewrite id_is_not_bool, IH by done.
  rewrite filter_cons. cbn [mbind Result_bind].
  case_bool_decide; by case_decide.
Qed.

Lemma findIndex_id_is (id : string) (l : list Value) :
  Forall (λ v, v ≠ VNull) l →
  (findIndex (id_is id) l = Ok (-1)%Z ∧ Forall (λ v, item_id v ≠ Some id) l)
  ∨ (∃ (i : nat) (x : Value),
        findIndex (id_is id) l = Ok (Z.of_nat i) ∧ l !! i = Some x ∧ item_id x = Some id
        ∧ ∀ (j : nat) (y : Value), (j < i)%nat → l !! j = Some y → item_id y ≠ Some id).
Proof.
  intros Hnn.
  assert (Forall (λ v, id_is id v = Ok (bool_decide (item_id v = Some id))) l) as Hb.
  { eapply Forall_impl; [exact Hnn|]. intros v Hv. by apply id_is_bool. }
  destruct (findIndex_from_cases (id_is id) l 0%Z) as [[Hnone Hall]|(i & x & Hres & Hi & Hx & Hbefore)].
  { eapply Forall_impl; [exact Hb|]. intros v Hv. simpl in Hv. eauto. }
  - left. split; [done|].
    rewrite Forall_forall in *. intros v Hv Hid.
    specialize (Hall v Hv). rewrite (Hb v Hv) in Hall.
    rewrite bool_decide_eq_true_2 in Hall by done. discriminate.
  - right. exists i, x. rewrite Forall_forall in Hb.
    split; [by rewrite Z.add_0_l in Hres|]. split; [done|]. split.
    + rewrite (Hb x) in Hx by (by eapply list_elem_of_lookup_2).
      injection Hx as Hx. by apply bool_decide_eq_true in Hx.
    + intros j y Hj Hy Hid. specialize (Hbefore j y Hj Hy).
      rewrite (Hb y) in Hbefore by (by eapply list_elem_of_lookup_2).
      rewrite bool_decide_eq_true_2 in Hbefore by done. discriminate.
Qed.

Lemma findIndex_id_is_listed (id : string) (l : list Value) :
  Forall (λ v, v ≠ VNull) l →
  ∃ i, findIndex (id_is id) l = Ok i ∧ bool_decide (i ≠ (-1)%Z) = listed id l.
Proof.
  intros Hnn. unfold listed.
  destruct (findIndex_id_is id l Hnn) as [[-> Hall]|(i & x & -> & Hi & Hx & _)].
  - exists (-1)%Z. split; [done|].
    rewrite bool_decide_eq_false_2 by (intros Hne; by apply Hne).
    symmetry. apply bool_decide_eq_false. rewrite Exists_exists.
    intros (v & Hv & Hid). rewrite Forall_forall in Hall. by apply (Hall v).
  - exists (Z.of_nat i). split; [done|].
    rewrite bool_decide_eq_true_2 by lia.
    symmetry. apply bool_decide_eq_true. rewrite Exists_exists.
    exists x. split; [by eapply list_elem_of_lookup_2|done].
Qed.

Section bookmarks.
Context `{Browser}.

Lemma isBookmarked_run (mangaTitle : string) (ls : LocalStorage) :
  storage_blocked = false → bookmarks_shape ls →
  Forall (λ v, v ≠ VNull) (stored_bookmarks ls) →
  isBookmarked mangaTitle ls = (Ok (listed mangaTitle (stored_bookmarks ls)), ls).
Proof.
  intros Hread Hshape Hnn. unfold isBookmarked.
  rewrite bind_run, get_run, Hread, Hshape. cbn [as_array].
  rewrite bind_run, lift_run, bind_run, lift_run.
  destruct (findIndex_id_is_listed mangaTitle _ Hnn) as (i & -> & <-).
  by rewrite ret_run.
Qed.

Lemma stored_bookmarks_insert (l : list Value) (ls : LocalStorage) :
  stored_bookmarks (<[keys_bookmarks := Parsed (VArr l)]> ls) = l.
Proof. unfold stored_bookmarks. by rewrite lookup_insert_eq. Qed.

Lemma bookmarks_shape_insert (l : list Value) (ls : LocalStorage) :
  bookmarks_shape (<[keys_bookmarks := Parsed (VArr l)]> ls).
Proof.
  unfold bookmarks_shape, stored_value. rewrite stored_bookmarks_insert.
  by rewrite lookup_insert_eq.
Qed.

Lemma removeBookmark_run (mangaTitle : string) (ls : LocalStorage) :
  accepting → bookmarks_shape ls → Forall (λ v, v ≠ VNull) (stored_bookmarks ls) →
  removeBookmark mangaTitle ls =
    (Ok true, <[keys_bookmarks :=
                 Parsed (VArr (filter (λ v, item_id v ≠ Some mangaTitle) (stored_bookmarks ls)))]> ls).
Proof.
  intros [Hread Hquota] Hshape Hnn. unfold removeBookmark.
  rewrite bind_run, get_run, Hread, Hshape. cbn [as_array].
  rewrite bind_run, lift_run, bind_run, lift_run, filterR_id_is_not by done.
  by rewrite bind_run, set_run, Hread, Hquota.
Qed.

Lemma listed_filter_other (id other : string) (l : list Value) :
  other ≠ id →
  listed other (filter (λ v, item_id v ≠ Some id) l) = listed other l.
Proof.
  intros Hne. unfold listed. apply bool_decide_ext. rewrite !Exists_exists.
  split.
  - intros (v & [_ Hv]%list_elem_of_filter & Hid). eauto.
  - intros (v & Hv & Hid). exists v. split; [|done].
    apply list_elem_of_filter. split; [|done]. rewrite Hid. by intros [= ->].
Qed.

Lemma listed_filter_same (id : string) (l : list Value) :
  listed id (filter (λ v, item_id v ≠ Some id) l) = false.
Proof.
  unfold listed. apply bool_decide_eq_false. rewrite Exists_exists.
  intros (v & [Hne _]%list_elem_of_filter & Hid). by apply Hne.
Qed.

Lemma Forall_filter_keep {A : Type} (P Q : A → Prop) `{∀ x, Decision (Q x)} (l : list A) :
  Forall P l → Forall P (filter Q l).
Proof. intros Hl. eapply Forall_sublist; [apply sublist_filter|done]. Qed.

(** X1. [removeBookmark] deletes every bookmark with the title and nothing else. *)
Theorem removeBookmark_removes (mangaTitle : string) (ls : LocalStorage) :
  accepting → bookmarks_shape ls → Forall (λ v, v ≠ VNull) (stored_bookmarks ls) →
  let r := removeBookmark mangaTitle ls in
  r.1 = Ok true
  ∧ stored_bookmarks r.2 = filter (λ v, item_id v ≠ Some mangaTitle) (stored_bookmarks ls)
  ∧ isBookmarked mangaTitle r.2 = (Ok false, r.2)
  ∧ (∀ other, other ≠ mangaTitle → (isBookmarked other r.2).1 = (isBookmarked other ls).1)
  ∧ (∀ key, key ≠ keys_bookmarks → r.2 !! key = ls !! key).
Proof.
  intros Hacc Hshape Hnn r. unfold r. rewrite removeBookmark_run by done. cbn [fst snd].
  pose proof (proj1 Hacc) as Hread.
  split; [done|]. split; [apply stored_bookmarks_insert|].
  assert (Forall (λ v, v ≠ VNull) (filter (λ v, item_id v ≠ Some mangaTitle) (stored_bookmarks ls)))
    as Hnn' by (by apply Forall_filter_keep).
  split; [|split].
  - rewrite isBookmarked_run; [|done|apply bookmarks_shape_insert|by rewrite stored_bookmarks_insert].
    by rewrite stored_bookmarks_insert, listed_filter_same.
  - intros other Hne.
    rewrite isBookmarked_run; [|done|apply bookmarks_shape_insert|by rewrite stored_bookmarks_insert].
    rewrite isBookmarked_run by done. cbn [fst].
    by rewrite stored_bookmarks_insert, listed_filter_other.
  - intros key Hne. by rewrite lookup_insert_ne.
Qed.

Lemma item_id_status (m : gmap string Value) (status : Value) :
  item_id (VObj (<["status" := status]> m)) = item_id (VObj m).
Proof. unfold item_id. by rewrite lookup_insert_ne. Qed.

(** X2. [updateBookmarkStatus] edits the status of the first bookmark with
    the title and nothing else: the list keeps its length, its order and
    its ids.  Without such a bookmark it returns [false] and writes
    nothing. *)
Theorem updateBookmarkStatus_edits (mangaTitle status : string) (ls : LocalStorage) :
  accepting → bookmarks_shape ls → Forall (λ v, v ≠ VNull) (stored_bookmarks ls) →
  let l := stored_bookmarks ls in
  let r := updateBookmarkStatus mangaTitle status ls in
  (listed mangaTitle l = true →
   ∃ (i : nat) (m : gmap string Value),
     l !! i = Some (VObj m) ∧ item_id (VObj m) = Some mangaTitle
     ∧ (∀ (j : nat) (y : Value), (j < i)%nat → l !! j = Some y → item_id y ≠ Some mangaTitle)
     ∧ r.1 = Ok true
     ∧ stored_bookmarks r.2 = <[i := VObj (<["status" := VStr status]> m)]> l
     ∧ item_id <$> stored_bookmarks r.2 = item_id <$> l
     ∧ ∀ key, key ≠ keys_bookmarks → r.2 !! key = ls !! key)
  ∧ (listed mangaTitle l = false → r = (Ok false, ls)).
Proof.
  intros [Hread Hquota] Hshape Hnn l r. unfold r, updateBookmarkStatus.
  rewrite bind_run, get_run, Hread, Hshape. fold l. cbn [as_array].
  rewrite bind_run, lift_run, bind_run, lift_run.
  destruct (findIndex_id_is_listed mangaTitle l Hnn) as (i0 & Hfind & Hlisted).
  rewrite <- Hlisted.
  destruct (findIndex_id_is mangaTitle l Hnn) as [[Hnone Hall]|(i & x & Hres & Hi & Hx & Hbefore)].
  - rewrite Hnone in Hfind. injection Hfind as <-.
    rewrite Hnone. rewrite bool_decide_eq_false_2 by (intros Hne; by apply Hne).
    split; [done|]. intros _. by rewrite bool_decide_eq_true_2.
  - rewrite Hres in Hfind. injection Hfind as <-. rewrite Hres.
    rewrite bool_decide_eq_true_2 by lia. split; [|done]. intros _.
    rewrite bool_decide_eq_false_2 by lia.
    rewrite Nat2Z.id, Hi.
    destruct x as [| | | | |m]; try done. cbn [truthy put].
    rewrite bind_run, lift_run, bind_run, set_run, Hread, Hquota. cbn [orb].
    rewrite ret_run. cbn [fst snd].
    exists i, m. rewrite stored_bookmarks_insert.
    repeat split; try done.
    + rewrite list_fmap_insert, item_id_status. apply list_insert_id.
      by rewrite list_lookup_fmap, Hi.
    + intros key Hne. by rewrite lookup_insert_ne.
Qed.

End bookmarks.

Lemma removeBookmark_removes_witness :
  let ls := (@removeBookmark reliable "Solo Leveling" shelf).2 in
  @isBookmarked reliable "Solo Leveling" ls = (Ok false, ls).
Proof.
  destruct (@removeBookmark_removes reliable "Solo Leveling" shelf reliable_accepting
              (proj1 shelf_shape) (proj2 shelf_shape)) as (_ & _ & Hgone & _).
  exact Hgone.
Defined.

Lemma updateBookmarkStatus_edits_witness :
  (@updateBookmarkStatus reliable "Solo Leveling" "completed" shelf).1 = Ok true.
Proof.
  destruct (@updateBookmarkStatus_edits reliable "Solo Leveling" "completed" shelf
              reliable_accepting (proj1 shelf_shape) (proj2 shelf_shape)) as [Hlisted _].
  destruct (Hlisted ltac:(vm_compute; reflexivity)) as (i & m & _ & _ & _ & Hdone & _).
  exact Hdone.
Defined.

Section progress.
Context `{Browser}.

Lemma stored_progress_insert (m : gmap string Value) (ls : LocalStorage) :
  stored_progress (<[keys_readingProgress := Parsed (VObj m)]> ls) = m.
Proof. unfold stored_progress. by rewrite lookup_insert_eq. Qed.

Lemma progress_shape_insert (m : gmap string Value) (ls : LocalStorage) :
  progress_shape (<[keys_readingProgress := Parsed (VObj m)]> ls).
Proof.
  unfold progress_shape, stored_value. rewrite stored_progress_insert.
  by rewrite lookup_insert_eq.
Qed.

Lemma getReadingProgress_run (mangaTitle : string) (ls : LocalStorage) :
  storage_blocked = false → progress_shape ls →
  getReadingProgress mangaTitle ls =
    (Ok (let record := stored_progress ls !! mangaTitle in
         if truthy_opt record then default VNull record else VNull), ls).
Proof.
  intros Hread Hshape. unfold getReadingProgress.
  rewrite bind_run, get_run, Hread, Hshape. cbn [prop].
  by rewrite bind_run, lift_run, ret_run.
Qed.

Lemma updateReadingProgress_run (mangaTitle chapterTitle now : string) (ls : LocalStorage) :
  accepting → progress_shape ls →
  updateReadingProgress mangaTitle chapterTitle now ls =
    (Ok (),
     <[keys_readingProgress :=
         Parsed (VObj (<[mangaTitle :=
           let total := opt_prop (stored_progress ls !! mangaTitle) "totalChapters" in
           object [("lastChapter", Some (VStr chapterTitle));
                   ("lastReadAt", Some (VStr now));
                   ("totalChapters",
                    Some (if truthy_opt total then default VNull total else VNum 0))]]>
           (stored_progress ls)))]> ls).
Proof.
  intros [Hread Hquota] Hshape. unfold updateReadingProgress.
  rewrite bind_run, get_run, Hread, Hshape. cbn [prop put].
  rewrite bind_run, lift_run, bind_run, lift_run.
  by rewrite bind_run, set_run, Hread, Hquota.
Qed.

(** X3. What [getReadingProgress] returns after [updateReadingProgress],
    for titles that are not property names of [Object.prototype]. *)
Theorem updateReadingProgress_roundtrip (mangaTitle chapterTitle now : string)
    (ls : LocalStorage) :
  accepting → progress_shape ls → mangaTitle ∉ Object_prototype →
  let ls' := (updateReadingProgress mangaTitle chapterTitle now ls).2 in
  (∃ record : gmap string Value,
     getReadingProgress mangaTitle ls' = (Ok (VObj record), ls')
     ∧ record !! "lastChapter" = Some (VStr chapterTitle)
     ∧ record !! "lastReadAt" = Some (VStr now)
     ∧ (stored_progress ls !! mangaTitle = None → record !! "totalChapters" = Some (VNum 0))
     ∧ (∀ (old : gmap string Value) (n : Z),
          stored_progress ls !! mangaTitle = Some (VObj old) →
          old !! "totalChapters" = Some (VNum n) →
          record !! "totalChapters" = Some (VNum n)))
  ∧ (∀ other, other ≠ mangaTitle → other ∉ Object_prototype →
       (getReadingProgress other ls').1 = (getReadingProgress other ls).1)
  ∧ (∀ key, key ≠ keys_readingProgress → ls' !! key = ls !! key).
Proof.
  intros Hacc Hshape _ ls'. unfold ls'. rewrite updateReadingProgress_run by done. cbn [snd].
  pose proof (proj1 Hacc) as Hread.
  split; [|split].
  - eexists. rewrite getReadingProgress_run; [|done|apply progress_shape_insert].
    rewrite stored_progress_insert. cbn zeta. rewrite lookup_insert_eq.
    split; [reflexivity|]. split; [done|]. split; [done|]. split.
    + intros ->. done.
    + intros old n -> Hn. cbn [opt_prop prop]. rewrite Hn. cbn [truthy_opt truthy].
      destruct (Z.eqb_spec n 0) as [->|Hne]; done.
  - intros other Hne _.
    rewrite getReadingProgress_run; [|done|apply progress_shape_insert].
    rewrite getReadingProgress_run by done.
    rewrite stored_progress_insert. cbn zeta. by rewrite lookup_insert_ne.
  - intros key Hne. by rewrite lookup_insert_ne.
Qed.

Lemma put_array_totalChapters (l : list Value) (x : Value) :
  put (VArr l) "totalChapters" x = Ok (VArr l).
Proof. reflexivity. Qed.

Lemma setTotalChapters_run (mangaTitle : string) (totalChapters : Value) (ls : LocalStorage) :
  accepting → progress_shape ls →
  setTotalChapters mangaTitle totalChapters ls =
    match stored_progress ls !! mangaTitle with
    | Some (VObj old) =>
        (Ok (), <[keys_readingProgress :=
                   Parsed (VObj (<[mangaTitle := VObj (<["totalChapters" := totalChapters]> old)]>
                                   (stored_progress ls)))]> ls)
    | Some (VArr l) =>
        (Ok (), <[keys_readingProgress :=
                   Parsed (VObj (<[mangaTitle := VArr l]> (stored_progress ls)))]> ls)
    | Some v =>
        if truthy v then (Throw TypeError, ls)
        else (Ok (), <[keys_readingProgress :=
                        Parsed (VObj (<[mangaTitle := VObj {["totalChapters" := totalChapters]}]>
                                        (stored_progress ls)))]> ls)
    | None =>
        (Ok (), <[keys_readingProgress :=
                   Parsed (VObj (<[mangaTitle := VObj {["totalChapters" := totalChapters]}]>
                                   (stored_progress ls)))]> ls)
    end.
Proof.
  intros [Hread Hquota] Hshape. unfold setTotalChapters.
  rewrite bind_run, get_run, Hread, Hshape. cbn [prop].
  rewrite bind_run, lift_run.
  destruct (stored_progress ls !! mangaTitle) as [[|b|z|s|l|old]|] eqn:Hold; cbn [truthy_opt truthy].
  - rewrite bind_run, lift_run. cbn [put]. by rewrite bind_run, set_run, Hread, Hquota.
  - destruct b.
    + rewrite bind_run, bind_run, lift_run. done.
    + rewrite bind_run, lift_run. cbn [put]. by rewrite bind_run, set_run, Hread, Hquota.
  - destruct (z =? 0)%Z; cbn [negb].
    + rewrite bind_run, lift_run. cbn [put]. by rewrite bind_run, set_run, Hread, Hquota.
    + rewrite bind_run, bind_run, lift_run. done.
  - destruct (String.eqb s EmptyString); cbn [negb].
    + rewrite bind_run, lift_run. cbn [put]. by rewrite bind_run, set_run, Hread, Hquota.
    + rewrite bind_run, bind_run, lift_run. done.
  - rewrite bind_run, bind_run, lift_run. cbn [from_option]. unfold id.
    rewrite put_array_totalChapters. rewrite lift_run. cbn [put].
    by rewrite bind_run, set_run, Hread, Hquota.
  - rewrite bind_run, bind_run, lift_run. cbn [from_option]. unfold id. cbn [put].
    rewrite lift_run. by rewrite bind_run, set_run, Hread, Hquota.
  - rewrite bind_run, lift_run. cbn [put]. by rewrite bind_run, set_run, Hread, Hquota.
Qed.

Lemma setTotalChapters_record (mangaTitle : string) (totalChapters : Value)
    (old : gmap string Value) (ls : LocalStorage) :
  accepting → progress_shape ls →
  record_of (stored_progress ls !! mangaTitle) = Some old →
  setTotalChapters mangaTitle totalChapters ls =
    (Ok (), <[keys_readingProgress :=
               Parsed (VObj (<[mangaTitle := VObj (<["totalChapters" := totalChapters]> old)]>
                               (stored_progress ls)))]> ls).
Proof.
  intros Hacc Hshape Hold. rewrite setTotalChapters_run by done.
  destruct (stored_progress ls !! mangaTitle) as [[|b|z|s|l|m]|]; cbn in Hold.
  - injection Hold as <-. cbn. by rewrite insert_empty.
  - destruct b; [done|]. injection Hold as <-. cbn. by rewrite insert_empty.
  - cbn [truthy]. destruct (negb (z =? 0)%Z); [done|]. injection Hold as <-.
    by rewrite insert_empty.
  - cbn [truthy]. destruct (negb (String.eqb s EmptyString)); [done|]. injection Hold as <-.
    by rewrite insert_empty.
  - done.
  - by injection Hold as <-.
  - injection Hold as <-. by rewrite insert_empty.
Qed.

(** X4. For a title that is not a property name of [Object.prototype]:
    [setTotalChapters] on a title without a record creates one that holds
    only the total; on a title with a record it sets the total and keeps
    the other fields; the progress of the other such titles and the other
    keys of the storage are not touched; a later [updateReadingProgress]
    keeps a total that is a number other than [0].  For every title: when
    its entry is a truthy primitive the assignment raises a TypeError
    that leaves the function, and nothing is written. *)
Theorem setTotalChapters_roundtrip (mangaTitle : string) (totalChapters : Value)
    (ls : LocalStorage) :
  accepting → progress_shape ls →
  let r := setTotalChapters mangaTitle totalChapters ls in
  (∀ old : gmap string Value,
     mangaTitle ∉ Object_prototype →
     record_of (stored_progress ls !! mangaTitle) = Some old →
     r.1 = Ok ()
     ∧ getReadingProgress mangaTitle r.2
       = (Ok (VObj (<["totalChapters" := totalChapters]> old)), r.2)
     ∧ (∀ other, other ≠ mangaTitle → other ∉ Object_prototype →
          (getReadingProgress other r.2).1 = (getReadingProgress other ls).1)
     ∧ (∀ key, key ≠ keys_readingProgress → r.2 !! key = ls !! key)
     ∧ ∀ (n : Z) (chapterTitle now : string),
         totalChapters = VNum n → n ≠ 0%Z →
         let ls' := (updateReadingProgress mangaTitle chapterTitle now r.2).2 in
         getReadingProgress mangaTitle ls'
         = (Ok (VObj (list_to_map [("lastChapter", VStr chapterTitle); ("lastReadAt", VStr now);
                                   ("totalChapters", VNum n)])), ls'))
  ∧ (∀ v : Value,
       stored_progress ls !! mangaTitle = Some v → truthy v = true →
       (∀ old, v ≠ VObj old) → (∀ l, v ≠ VArr l) →
       r = (Throw TypeError, ls)).
Proof.
  intros Hacc Hshape r. pose proof (proj1 Hacc) as Hread. split.
  - intros old _ Hold. unfold r. rewrite (setTotalChapters_record _ _ old) by done.
    cbn [fst snd]. split; [done|].
    split; [|split; [|split]].
    + rewrite getReadingProgress_run; [|done|apply progress_shape_insert].
      rewrite stored_progress_insert. cbn zeta. by rewrite lookup_insert_eq.
    + intros other Hne _.
      rewrite getReadingProgress_run; [|done|apply progress_shape_insert].
      rewrite getReadingProgress_run by done.
      rewrite stored_progress_insert. cbn zeta. by rewrite lookup_insert_ne.
    + intros key Hne. by rewrite lookup_insert_ne.
    + intros n chapterTitle now -> Hn.
      rewrite updateReadingProgress_run; [|done|apply progress_shape_insert].
      cbn [snd]. rewrite getReadingProgress_run; [|done|apply progress_shape_insert].
      rewrite !stored_progress_insert. cbn zeta. rewrite !lookup_insert_eq.
      cbn [opt_prop prop]. rewrite lookup_insert_eq. cbn [truthy_opt truthy].
      destruct (Z.eqb_spec n 0) as [->|_]; done.
  - intros v Hv Ht Hobj Harr. unfold r. rewrite setTotalChapters_run by done. rewrite Hv.
    destruct v as [|b|z|s|l|old]; cbn in Ht; try done.
    + by rewrite Ht.
    + cbn [truthy]. by rewrite Ht.
    + cbn [truthy]. by rewrite Ht.
    + by destruct (Harr l).
    + by destruct (Hobj old).
Qed.

End progress.

Lemma updateReadingProgress_roundtrip_witness :
  let ls := (@updateReadingProgress reliable "Solo Leveling" "Chapter 1"
               "2025-03-01T10:00:00.000Z" ∅).2 in
  ∃ record : gmap string Value,
    @getReadingProgress reliable "Solo Leveling" ls = (Ok (VObj record), ls)
    ∧ record !! "lastChapter" = Some (VStr "Chapter 1").
Proof.
  destruct (@updateReadingProgress_roundtrip reliable "Solo Leveling" "Chapter 1"
              "2025-03-01T10:00:00.000Z" ∅ reliable_accepting (proj1 empty_shape)
              solo_leveling_own)
    as ((record & Hget & Hlast & _) & _).
  exists record. split; [exact Hget|exact Hlast].
Defined.

Lemma setTotalChapters_roundtrip_witness :
  let ls := (@setTotalChapters reliable "Solo Leveling" (VNum 179) ∅).2 in
  @getReadingProgress reliable "Solo Leveling" ls
  = (Ok (VObj (<["totalChapters" := VNum 179]> ∅)), ls).
Proof.
  destruct (@setTotalChapters_roundtrip reliable "Solo Leveling" (VNum 179) ∅
              reliable_accepting (proj1 empty_shape)) as [Hrecord _].
  destruct (Hrecord ∅ solo_leveling_own ltac:(vm_compute; reflexivity)) as (_ & Hget & _).
  exact Hget.
Defined.

Section history.
Context `{Browser}.

Lemma stored_history_insert (l : list Value) (ls : LocalStorage) :
  stored_history (<[keys_readingHistory := Parsed (VArr l)]> ls) = l.
Proof. unfold stored_history. by rewrite lookup_insert_eq. Qed.

Lemma history_shape_insert (l : list Value) (ls : LocalStorage) :
  history_shape (<[keys_readingHistory := Parsed (VArr l)]> ls).
Proof.
  unfold history_shape, stored_value. rewrite stored_history_insert.
  by rewrite lookup_insert_eq.
Qed.

Lemma getReadingHistory_run (limit : nat) (ls : LocalStorage) :
  storage_blocked = false → history_shape ls →
  getReadingHistory limit ls = (Ok (VArr (take limit (stored_history ls))), ls).
Proof.
  intros Hread Hshape. unfold getReadingHistory.
  by rewrite bind_run, get_run, Hread, Hshape, lift_run.
Qed.

Lemma progress_shape_other (key : string) (item : Stored) (ls : LocalStorage) :
  key ≠ keys_readingProgress → progress_shape ls → progress_shape (<[key := item]> ls).
Proof.
  intros Hne. unfold progress_shape, stored_value, stored_progress.
  by rewrite lookup_insert_ne.
Qed.

Lemma stored_progress_other (key : string) (item : Stored) (ls : LocalStorage) :
  key ≠ keys_readingProgress → stored_progress (<[key := item]> ls) = stored_progress ls.
Proof. intros Hne. unfold stored_progress. by rewrite lookup_insert_ne. Qed.

Lemma history_shape_other (key : string) (item : Stored) (ls : LocalStorage) :
  key ≠ keys_readingHistory → history_shape ls → history_shape (<[key := item]> ls).
Proof.
  intros Hne. unfold history_shape, stored_value, stored_history.
  by rewrite lookup_insert_ne.
Qed.

Lemma stored_history_other (key : string) (item : Stored) (ls : LocalStorage) :
  key ≠ keys_readingHistory → stored_history (<[key := item]> ls) = stored_history ls.
Proof. intros Hne. unfold stored_history. by rewrite lookup_insert_ne. Qed.

Lemma addToHistory_run (mangaData : MangaData) (chapterData : ChapterData) (now now' : string)
    (ls : LocalStorage) :
  accepting → history_shape ls → Forall (λ v, v ≠ VNull) (stored_history ls) →
  progress_shape ls →
  ∃ i, findIndex (id_is (history_id mangaData chapterData)) (stored_history ls) = Ok i
    ∧ addToHistory mangaData chapterData now now' ls =
        (Ok (historyItem mangaData chapterData now),
         (updateReadingProgress (md_title mangaData) (cd_title chapterData) now'
            (<[keys_readingHistory :=
                 Parsed (VArr (history_update i (historyItem mangaData chapterData now)
                                 (stored_history ls)))]> ls)).2).
Proof.
  intros Hacc Hshape Hnn Hp. pose proof Hacc as [Hread Hquota].
  destruct (findIndex_id_is_listed (history_id mangaData chapterData) _ Hnn) as (i & Hfind & _).
  exists i. split; [done|]. unfold addToHistory.
  rewrite bind_run, get_run, Hread, Hshape. cbn [as_array].
  rewrite bind_run, lift_run, bind_run, lift_run, Hfind.
  rewrite bind_run, set_run, Hread, Hquota. cbn [orb].
  rewrite bind_run, updateReadingProgress_run; [done|done|].
  by apply progress_shape_other.
Qed.

(** X5. After [addToHistory] the entry just read is the first of
    [getReadingHistory], the reading progress of the title points at the
    chapter when the title is not a property name of [Object.prototype],
    and bookmarks and preferences are as they were. *)
Theorem addToHistory_effects (mangaData : MangaData) (chapterData : ChapterData)
    (now now' : string) (ls : LocalStorage) :
  accepting → history_shape ls → Forall (λ v, v ≠ VNull) (stored_history ls) →
  progress_shape ls →
  let r := addToHistory mangaData chapterData now now' ls in
  r.1 = Ok (historyItem mangaData chapterData now)
  ∧ (∀ limit, (0 < limit)%nat →
       ∃ rest, getReadingHistory limit r.2
               = (Ok (VArr (historyItem mangaData chapterData now :: rest)), r.2))
  ∧ (md_title mangaData ∉ Object_prototype →
     ∃ record : gmap string Value,
       getReadingProgress (md_title mangaData) r.2 = (Ok (VObj record), r.2)
       ∧ record !! "lastChapter" = Some (VStr (cd_title chapterData))
       ∧ record !! "lastReadAt" = Some (VStr now'))
  ∧ r.2 !! keys_bookmarks = ls !! keys_bookmarks
  ∧ r.2 !! keys_userPreferences = ls !! keys_userPreferences.
Proof.
  intros Hacc Hshape Hnn Hp r. pose proof Hacc as [Hread Hquota].
  destruct (addToHistory_run mangaData chapterData now now' ls Hacc Hshape Hnn Hp)
    as (i & _ & Hrun).
  unfold r. rewrite Hrun. cbn [fst snd].
  rewrite updateReadingProgress_run; [|done|by apply progress_shape_other]. cbn [snd].
  split; [done|]. split; [|split; [|split]].
  - intros limit Hlimit.
    rewrite getReadingHistory_run;
      [|done|by apply history_shape_other, history_shape_insert].
    rewrite stored_history_other, stored_history_insert by done.
    rewrite history_update_cut.
    destruct limit as [|limit]; [lia|]. cbn [take]. eauto.
  - intros _. eexists. rewrite getReadingProgress_run; [|done|apply progress_shape_insert].
    rewrite stored_progress_insert. cbn zeta. rewrite lookup_insert_eq.
    split; [reflexivity|]. by split.
  - by rewrite lookup_insert_ne, lookup_insert_ne.
  - by rewrite lookup_insert_ne, lookup_insert_ne.
Qed.

(** X6. [getReadingHistory] returns the first [limit] stored entries and
    writes nothing; after [clearHistory] it returns the empty list, while
    the reading progress, the bookmarks and the preferences are kept. *)
Theorem clearHistory_empties (limit : nat) (ls : LocalStorage) :
  accepting →
  (history_shape ls →
   getReadingHistory limit ls = (Ok (VArr (take limit (stored_history ls))), ls))
  ∧ (let ls' := (clearHistory ls).2 in
     getReadingHistory limit ls' = (Ok (VArr []), ls')
     ∧ ∀ key, key ≠ keys_readingHistory → ls' !! key = ls !! key).
Proof.
  intros [Hread Hquota]. split; [by apply getReadingHistory_run|].
  unfold clearHistory. rewrite bind_run, set_run, Hread, Hquota. cbn.
  split.
  - rewrite getReadingHistory_run; [|done|apply history_shape_insert].
    by rewrite stored_history_insert, take_nil.
  - intros key Hne. by rewrite lookup_insert_ne.
Qed.

End history.

Lemma addToHistory_effects_witness :
  (@addToHistory reliable solo_leveling chapter_2 "2025-03-01T10:20:00.000Z"
     "2025-03-01T10:20:00.001Z" journal).1
  = Ok (historyItem solo_leveling chapter_2 "2025-03-01T10:20:00.000Z").
Proof.
  destruct (@addToHistory_effects reliable solo_leveling chapter_2 "2025-03-01T10:20:00.000Z"
              "2025-03-01T10:20:00.001Z" journal reliable_accepting (proj1 journal_shape)
              journal_entries
              (proj2 (proj2 journal_shape))) as (Hitem & _).
  exact Hitem.
Defined.

Lemma clearHistory_empties_witness :
  let ls := (@clearHistory reliable journal).2 in
  @getReadingHistory reliable 10 ls = (Ok (VArr []), ls).
Proof.
  destruct (@clearHistory_empties reliable 10 journal reliable_accepting) as (_ & Hempty & _).
  exact Hempty.
Defined.

Section lifecycle.
Context `{Browser}.

Lemma stored_value_insert (key : string) (value : Value) (ls : LocalStorage) :
  stored_value (<[key := Parsed value]> ls) key = value.
Proof. unfold stored_value. by rewrite lookup_insert_eq. Qed.

Lemma stored_value_other (key key' : string) (item : Stored) (ls : LocalStorage) :
  key ≠ key' → stored_value (<[key := item]> ls) key' = stored_value ls key'.
Proof. intros Hne. unfold stored_value. by rewrite lookup_insert_ne. Qed.

Lemma defaulted_other (key key' : string) (value : Value) (ls : LocalStorage) :
  key ≠ key' → defaulted key value ls !! key' = ls !! key'.
Proof.
  intros Hne. unfold defaulted. destruct (truthy _); [done|]. by rewrite lookup_insert_ne.
Qed.

Lemma defaulted_same (key : string) (value : Value) (ls : LocalStorage) :
  defaulted key value ls !! key
  = if truthy (stored_value ls key) then ls !! key else Some (Parsed value).
Proof. unfold defaulted. destruct (truthy _); [done|]. by rewrite lookup_insert_eq. Qed.

Lemma stored_value_defaulted_other (key key' : string) (value : Value) (ls : LocalStorage) :
  key ≠ key' → stored_value (defaulted key value ls) key' = stored_value ls key'.
Proof. intros Hne. unfold stored_value. by rewrite defaulted_other. Qed.

Lemma when_defaulted (key : string) (value : Value) (ls : LocalStorage) :
  accepting →
  when (negb (truthy (stored_value ls key))) (set key value) ls
  = (Ok (), defaulted key value ls).
Proof.
  intros [Hread Hquota]. rewrite when_set_run, Hread, Hquota. unfold defaulted.
  by destruct (truthy _).
Qed.

Lemma init_run (ls : LocalStorage) :
  accepting →
  init ls =
    (Ok (), defaulted keys_userPreferences default_preferences
              (defaulted keys_readingProgress (VObj ∅)
                 (defaulted keys_bookmarks (VArr [])
                    (defaulted keys_readingHistory (VArr []) ls)))).
Proof.
  intros Hacc. pose proof (proj1 Hacc) as Hread. unfold init.
  rewrite bind_run, get_run, Hread, bind_run, when_defaulted by done.
  rewrite bind_run, get_run, Hread, bind_run, when_defaulted by done.
  rewrite bind_run, get_run, Hread, bind_run, when_defaulted by done.
  by rewrite bind_run, get_run, Hread, when_defaulted.
Qed.

Lemma init_key (key : string) (value : Value) (ls : LocalStorage) :
  accepting → (key, value) ∈ init_defaults →
  (init ls).2 !! key
  = if truthy (stored_value ls key) then ls !! key else Some (Parsed value).
Proof.
  intros Hacc. rewrite init_run by done. cbn [snd].
  unfold init_defaults. rewrite !elem_of_cons, elem_of_nil.
  intros [Heq|[Heq|[Heq|[Heq|[]]]]]; injection Heq as -> ->.
  - rewrite !defaulted_other by done. by rewrite defaulted_same.
  - rewrite !defaulted_other by done. rewrite defaulted_same.
    by rewrite !stored_value_defaulted_other, !defaulted_other.
  - rewrite !defaulted_other by done. rewrite defaulted_same.
    by rewrite !stored_value_defaulted_other, !defaulted_other.
  - rewrite defaulted_same.
    by rewrite !stored_value_defaulted_other, !defaulted_other.
Qed.

Lemma init_other (key : string) (ls : LocalStorage) :
  accepting → key ∉ store_keys → (init ls).2 !! key = ls !! key.
Proof.
  intros Hacc. rewrite init_run by done. cbn [snd].
  unfold store_keys. rewrite !not_elem_of_cons. intros (N1 & N2 & N3 & N4 & _).
  by rewrite !defaulted_other.
Qed.

Lemma init_defaults_truthy (key : string) (value : Value) :
  (key, value) ∈ init_defaults → truthy value = true.
Proof.
  unfold init_defaults. rewrite !elem_of_cons, elem_of_nil.
  intros [Heq|[Heq|[Heq|[Heq|[]]]]]; by injection Heq as -> ->.
Qed.

Lemma init_settled (ls : LocalStorage) :
  accepting →
  Forall (λ key, truthy (stored_value ls key) = true) store_keys →
  init ls = (Ok (), ls).
Proof.
  intros Hacc Hall. rewrite init_run by done.
  unfold store_keys in Hall.
  apply Forall_cons in Hall as [H1 Hall]. apply Forall_cons in Hall as [H2 Hall].
  apply Forall_cons in Hall as [H3 Hall]. apply Forall_cons in Hall as [H4 _].
  unfold defaulted at 4. rewrite H1.
  unfold defaulted at 3. rewrite H2.
  unfold defaulted at 2. rewrite H3.
  unfold defaulted. by rewrite H4.
Qed.

(** X7. [init] on storage that accepts writes: a category that holds a
    truthy value is kept, any other (missing, unreadable or falsy) is
    replaced by its default; keys of other scripts are not touched; a
    second [init] changes nothing. *)
Theorem init_fills_defaults (ls : LocalStorage) :
  accepting →
  let ls' := (init ls).2 in
  init ls = (Ok (), ls')
  ∧ (∀ key value, (key, value) ∈ init_defaults →
       ls' !! key = if truthy (stored_value ls key) then ls !! key else Some (Parsed value))
  ∧ (∀ key, key ∉ store_keys → ls' !! key = ls !! key)
  ∧ init ls' = (Ok (), ls').
Proof.
  intros Hacc ls'. split; [|split; [|split]].
  - unfold ls'. by rewrite init_run.
  - intros key value Hin. by apply init_key.
  - intros key Hout. by apply init_other.
  - apply init_settled; [done|].
    assert (∀ key value, (key, value) ∈ init_defaults → truthy (stored_value ls' key) = true)
      as Hkey.
    { intros key value Hin. unfold stored_value at 1. unfold ls'. rewrite (init_key key value) by done.
      destruct (truthy (stored_value ls key)) eqn:Ht.
      - exact Ht.
      - cbn. by eapply init_defaults_truthy. }
    unfold store_keys. repeat constructor.
    + apply (Hkey _ (VArr [])). set_solver.
    + apply (Hkey _ (VArr [])). set_solver.
    + apply (Hkey _ (VObj ∅)). set_solver.
    + apply (Hkey _ default_preferences). set_solver.
Qed.

(** X8. [clearAllData] on storage that accepts writes resets the four
    categories to their defaults, whatever they held, and touches no other
    key. *)
Theorem clearAllData_resets (ls : LocalStorage) :
  accepting →
  let ls' := (clearAllData ls).2 in
  clearAllData ls = (Ok (), ls')
  ∧ (∀ key value, (key, value) ∈ init_defaults → ls' !! key = Some (Parsed value))
  ∧ (∀ key, key ∉ store_keys → ls' !! key = ls !! key)
  ∧ getPreferences ls' = (Ok default_preferences, ls')
  ∧ getBookmarks ls' = (Ok (VArr []), ls').
Proof.
  intros Hacc. pose proof (proj1 Hacc) as Hread.
  set (ls0 := delete keys_userPreferences (delete keys_readingProgress
                (delete keys_bookmarks (delete keys_readingHistory ls)))).
  assert (clearAllData ls = init ls0) as Hrun.
  { unfold clearAllData.
    rewrite bind_run. unfold removeItem at 1. rewrite Hread.
    rewrite bind_run. unfold removeItem at 1. rewrite Hread.
    rewrite bind_run. unfold removeItem at 1. rewrite Hread.
    rewrite bind_run. unfold removeItem at 1. by rewrite Hread. }
  cbn zeta. rewrite Hrun.
  assert (∀ key, key ∈ store_keys → ls0 !! key = None) as Hgone.
  { intros key. unfold store_keys, ls0. rewrite !elem_of_cons, elem_of_nil.
    intros [->|[->|[->|[->|[]]]]]; by simplify_map_eq. }
  assert (∀ key value, (key, value) ∈ init_defaults → (init ls0).2 !! key = Some (Parsed value))
    as Hkeys.
  { intros key value Hin. rewrite (init_key key value) by done.
    unfold stored_value. rewrite Hgone; [done|].
    revert Hin. unfold init_defaults, store_keys. rewrite !elem_of_cons, !elem_of_nil.
    intros [Heq|[Heq|[Heq|[Heq|[]]]]]; injection Heq as -> ->; auto. }
  split; [|split; [|split; [|split]]].
  - by rewrite init_run.
  - exact Hkeys.
  - intros key Hout. rewrite init_other by done.
    revert Hout. unfold store_keys, ls0. rewrite !not_elem_of_cons. intros (N1 & N2 & N3 & N4 & _).
    by rewrite !lookup_delete_ne.
  - unfold getPreferences. rewrite bind_run, get_run, Hread. unfold stored_value.
    rewrite (Hkeys keys_userPreferences default_preferences) by set_solver. done.
  - unfold getBookmarks. rewrite bind_run, get_run, Hread. unfold stored_value.
    rewrite (Hkeys keys_bookmarks (VArr [])) by set_solver. done.
Qed.

Lemma exportData_run (now : string) (ls : LocalStorage) :
  storage_blocked = false →
  exportData now ls =
    (Ok (VObj (list_to_map [("readingHistory", stored_value ls keys_readingHistory);
                            ("bookmarks", stored_value ls keys_bookmarks);
                            ("readingProgress", stored_value ls keys_readingProgress);
                            ("userPreferences", stored_value ls keys_userPreferences);
                            ("exportDate", VStr now)])), ls).
Proof.
  intros Hread. unfold exportData.
  by rewrite bind_run, get_run, bind_run, get_run, bind_run, get_run, bind_run, get_run, Hread.
Qed.

Lemma import_one (data : gmap string Value) (k key : string) (ls : LocalStorage) :
  accepting →
  import_category (VObj data) k key ls
  = (Ok (), match data !! k with
            | Some v => if truthy v then <[key := Parsed v]> ls else ls
            | None => ls
            end).
Proof.
  intros [Hread Hquota]. rewrite import_category_run, Hread, Hquota. cbn [orb negb].
  rewrite andb_true_r. by destruct (data !! k).
Qed.

(** X9. The bundle [exportData] builds, imported into any store, sets every
    category the source held a truthy value for to that value, leaves
    the other categories of the target as they were, and touches no
    other key. *)
Theorem export_import_roundtrip (now : string) (source target : LocalStorage) :
  accepting →
  ∃ bundle : Value,
    exportData now source = (Ok bundle, source)
    ∧ let r := importData bundle target in
      r.1 = Ok true
      ∧ (∀ key, key ∈ store_keys →
           stored_value r.2 key =
             if truthy (stored_value source key) then stored_value source key
             else stored_value target key)
      ∧ (∀ key, key ∉ store_keys → r.2 !! key = target !! key).
Proof.
  intros Hacc. pose proof (proj1 Hacc) as Hread.
  eexists. split; [by apply exportData_run|].
  set (h := stored_value source keys_readingHistory).
  set (b := stored_value source keys_bookmarks).
  set (p := stored_value source keys_readingProgress).
  set (u := stored_value source keys_userPreferences).
  cbn zeta. unfold importData, try_catch.
  rewrite bind_run, import_one, bind_run, import_one by done.
  rewrite bind_run, import_one, bind_run, import_one by done.
  rewrite ret_run. cbn [fst snd].
  change (list_to_map _ !! "readingHistory") with (Some h).
  change (list_to_map _ !! "bookmarks") with (Some b).
  change (list_to_map _ !! "readingProgress") with (Some p).
  change (list_to_map _ !! "userPreferences") with (Some u).
  split; [done|]. split.
  - intros key. unfold store_keys. rewrite !elem_of_cons, elem_of_nil.
    intros [->|[->|[->|[->|[]]]]]; fold h b p u;
      destruct (truthy h), (truthy b), (truthy p), (truthy u);
      rewrite ?stored_value_insert, ?stored_value_other by done;
      rewrite ?stored_value_insert, ?stored_value_other by done;
      rewrite ?stored_value_insert, ?stored_value_other by done;
      rewrite ?stored_value_insert, ?stored_value_other by done; done.
  - intros key. unfold store_keys. rewrite !not_elem_of_cons. intros (N1 & N2 & N3 & N4 & _).
    destruct (truthy h), (truthy b), (truthy p), (truthy u);
      by rewrite ?lookup_insert_ne.
Qed.

End lifecycle.

Lemma init_fills_defaults_witness :
  let ls := (@init reliable shelf).2 in
  @init reliable ls = (Ok (), ls).
Proof.
  destruct (@init_fills_defaults reliable shelf reliable_accepting) as (_ & _ & _ & Hagain).
  exact Hagain.
Defined.

Lemma clearAllData_resets_witness :
  let ls := (@clearAllData reliable shelf).2 in
  @getBookmarks reliable ls = (Ok (VArr []), ls).
Proof.
  destruct (@clearAllData_resets reliable shelf reliable_accepting) as (_ & _ & _ & _ & Hnone).
  exact Hnone.
Defined.

Lemma export_import_roundtrip_witness :
  ∃ bundle : Value,
    @exportData reliable "2025-03-03T12:00:00.000Z" shelf = (Ok bundle, shelf)
    ∧ (@importData reliable bundle journal).1 = Ok true.
Proof.
  destruct (@export_import_roundtrip reliable "2025-03-03T12:00:00.000Z" shelf journal
              reliable_accepting) as (bundle & Hexport & Hdone & _).
  exists bundle. split; [exact Hexport|exact Hdone].
Defined.

End StorageLaws.

(* ===================================================================== *)
(** ** The UI components: theorems *)
(* ===================================================================== *)

Module UiTheory.

Import StorageManager UIComponents Props Samples JsFacts StorageTheory StorageLaws.

Section bookmarks.
Context `{Browser}.

Lemma addBookmark_run (mangaData : MangaData) (now : string) (ls : LocalStorage) :
  accepting → bookmarks_shape ls → Forall (λ v, v ≠ VNull) (stored_bookmarks ls) →
  addBookmark mangaData now ls =
    if listed (md_title mangaData) (stored_bookmarks ls) then (Ok (VBool false), ls)
    else (Ok (bookmarkOf mangaData now),
          <[keys_bookmarks := Parsed (VArr (bookmarkOf mangaData now :: stored_bookmarks ls))]> ls).
Proof.
  intros [Hread Hquota] Hshape Hnn. unfold addBookmark.
  rewrite bind_run, get_run, Hread, Hshape. cbn [as_array].
  rewrite bind_run, lift_run, bind_run, lift_run.
  destruct (findIndex_id_is_listed (md_title mangaData) _ Hnn) as (i & -> & <-).
  case_bool_decide; [done|].
  by rewrite bind_run, set_run, Hread, Hquota.
Qed.

Lemma listed_cons (id : string) (v : Value) (l : list Value) :
  listed id (v :: l) = bool_decide (item_id v = Some id) || listed id l.
Proof.
  unfold listed. rewrite <- bool_decide_or. apply bool_decide_ext. by rewrite Exists_cons.
Qed.

Lemma bookmarkOf_not_null (mangaData : MangaData) (now : string) : bookmarkOf mangaData now ≠ VNull.
Proof. done. Qed.

Lemma elem_of_button_add (c : string) (button : BookmarkButton) :
  c ∈ button_classList (button_add c button).
Proof. unfold button_add. cbn. case_bool_decide; [done|]. set_solver. Qed.

Lemma not_elem_of_button_remove (c : string) (button : BookmarkButton) :
  c ∉ button_classList (button_remove c button).
Proof. unfold button_remove. cbn. rewrite list_elem_of_filter. by intros [Hne _]. Qed.

Lemma showNotification_one (message type : string) (body : list Notification) :
  filter (λ n, notification_type n = type) (showNotification message type body)
  = [{| notification_type := type; notification_message := message |}].
Proof.
  unfold showNotification. rewrite filter_app.
  rewrite (filter_cons_True _ _ []) by done. rewrite filter_nil.
  assert (filter (λ n, notification_type n = type) (filter (λ n, notification_type n ≠ type) body)
          = []) as ->; [|done].
  induction body as [|n body IH]; [done|].
  rewrite (filter_cons (λ n, notification_type n ≠ type)). case_decide; [|done].
  by rewrite filter_cons_False.
Qed.

(** One call of [toggleBookmark] on storage that accepts writes. *)
Lemma toggleBookmark_run (mangaData : MangaData) (now : string) (button : BookmarkButton)
    (body : list Notification) (ls : LocalStorage) :
  accepting → bookmarks_shape ls → Forall (λ v, v ≠ VNull) (stored_bookmarks ls) →
  let was := listed (md_title mangaData) (stored_bookmarks ls) in
  ∃ button' body' ls',
    toggleBookmark mangaData now button body ls = (Ok (button', body'), ls')
    ∧ bookmarks_shape ls' ∧ Forall (λ v, v ≠ VNull) (stored_bookmarks ls')
    ∧ listed (md_title mangaData) (stored_bookmarks ls') = negb was
    ∧ bool_decide ("bookmarked" ∈ button_classList button') = negb was
    ∧ bookmark_text button' = (if was then "Bookmark" else "Bookmarked")
    ∧ filter (λ n, notification_type n = "success") body'
      = [{| notification_type := "success";
            notification_message := if was then "Removed from bookmarks"
                                    else "Added to bookmarks" |}]
    ∧ ∀ key, key ≠ keys_bookmarks → ls' !! key = ls !! key.
Proof.
  intros Hacc Hshape Hnn was. pose proof (proj1 Hacc) as Hread.
  unfold toggleBookmark. rewrite bind_run, isBookmarked_run by done. fold was.
  destruct was eqn:Hwas.
  - rewrite bind_run, removeBookmark_run by done. rewrite ret_run.
    do 3 eexists. split; [reflexivity|].
    rewrite stored_bookmarks_insert.
    split; [apply bookmarks_shape_insert|]. split; [by apply Forall_filter_keep|].
    split; [apply listed_filter_same|].
    split; [apply bool_decide_eq_false, not_elem_of_button_remove|].
    split; [done|]. split; [apply showNotification_one|].
    intros key Hne. by rewrite lookup_insert_ne.
  - rewrite bind_run, addBookmark_run by done. fold was. rewrite Hwas, ret_run.
    do 3 eexists. split; [reflexivity|].
    rewrite stored_bookmarks_insert.
    split; [apply bookmarks_shape_insert|]. split; [by constructor|].
    split.
    { rewrite listed_cons, item_id_bookmarkOf. by rewrite bool_decide_eq_true_2. }
    split; [apply bool_decide_eq_true, elem_of_button_add|].
    split; [done|]. split; [apply showNotification_one|].
    intros key Hne. by rewrite lookup_insert_ne.
Qed.

Lemma createBookmarkButton_run (mangaData : MangaData) (ls : LocalStorage) :
  accepting → bookmarks_shape ls → Forall (λ v, v ≠ VNull) (stored_bookmarks ls) →
  ∃ created, createBookmarkButton mangaData None ls = (Ok (created, None), ls)
    ∧ bool_decide ("bookmarked" ∈ button_classList created)
      = listed (md_title mangaData) (stored_bookmarks ls).
Proof.
  intros [Hread _] Hshape Hnn.
  unfold createBookmarkButton. rewrite bind_run, isBookmarked_run by done. rewrite ret_run.
  eexists. split; [reflexivity|]. cbn [button_classList].
  destruct (listed (md_title mangaData) (stored_bookmarks ls)).
  - apply bool_decide_eq_true. rewrite !elem_of_cons. auto.
  - apply bool_decide_eq_false. rewrite !elem_of_cons, elem_of_nil. by intros [?|[]].
Qed.

(** X10. A bookmark button is created showing whether the title is
    bookmarked.  [toggleBookmark] flips whether the title is bookmarked
    and leaves the button showing the new state; a second toggle restores
    the first answer of [isBookmarked]. *)
Theorem toggleBookmark_flips (mangaData : MangaData) (now now' : string)
    (button : BookmarkButton) (body : list Notification) (ls : LocalStorage) :
  accepting → bookmarks_shape ls → Forall (λ v, v ≠ VNull) (stored_bookmarks ls) →
  ∃ (was : bool) button' body' ls' button'' body'' ls'',
    isBookmarked (md_title mangaData) ls = (Ok was, ls)
    ∧ (∃ created, createBookmarkButton mangaData None ls = (Ok (created, None), ls)
         ∧ bool_decide ("bookmarked" ∈ button_classList created) = was)
    ∧ toggleBookmark mangaData now button body ls = (Ok (button', body'), ls')
    ∧ isBookmarked (md_title mangaData) ls' = (Ok (negb was), ls')
    ∧ bool_decide ("bookmarked" ∈ button_classList button') = negb was
    ∧ bookmark_text button' = (if was then "Bookmark" else "Bookmarked")
    ∧ toggleBookmark mangaData now' button' body' ls' = (Ok (button'', body''), ls'')
    ∧ isBookmarked (md_title mangaData) ls'' = (Ok was, ls'')
    ∧ bool_decide ("bookmarked" ∈ button_classList button'') = was.
Proof.
  intros Hacc Hshape Hnn. pose proof (proj1 Hacc) as Hread.
  destruct (toggleBookmark_run mangaData now button body ls Hacc Hshape Hnn)
    as (button' & body' & ls' & Hrun & Hshape' & Hnn' & Hl' & Hc' & Ht' & _).
  destruct (toggleBookmark_run mangaData now' button' body' ls' Hacc Hshape' Hnn')
    as (button'' & body'' & ls'' & Hrun' & Hshape'' & Hnn'' & Hl'' & Hc'' & _).
  exists (listed (md_title mangaData) (stored_bookmarks ls)), button', body', ls',
    button'', body'', ls''.
  rewrite Hl', negb_involutive in Hl'', Hc''.
  split; [by apply isBookmarked_run|].
  split; [by apply createBookmarkButton_run|].
  split; [done|].
  split; [rewrite isBookmarked_run by done; by rewrite Hl'|].
  split; [done|]. split; [done|]. split; [done|].
  split; [rewrite isBookmarked_run by done; by rewrite Hl''|done].
Qed.

End bookmarks.

Lemma toggleBookmark_flips_witness :
  ∃ (was : bool) (button' : BookmarkButton) (body' : list Notification) (ls' : LocalStorage),
    @isBookmarked reliable "Solo Leveling" shelf = (Ok was, shelf)
    ∧ @toggleBookmark reliable solo_leveling "2025-03-02T08:00:00.000Z" plain_button [] shelf
      = (Ok (button', body'), ls')
    ∧ @isBookmarked reliable "Solo Leveling" ls' = (Ok (negb was), ls').
Proof.
  destruct (@toggleBookmark_flips reliable solo_leveling "2025-03-02T08:00:00.000Z"
              "2025-03-02T08:05:00.000Z" plain_button [] shelf reliable_accepting
              (proj1 shelf_shape) (proj2 shelf_shape))
    as (was & button' & body' & ls' & _ & _ & _ & His & _ & Hrun & His' & _).
  exists was, button', body', ls'. split; [exact His|]. split; [exact Hrun|exact His'].
Defined.

Lemma history_ok_not_null (l : list Value) :
  history_ok l → Forall (λ v, v ≠ VNull) l.
Proof.
  intros [He _ _]. eapply Forall_impl; [exact He|].
  intros v [id Hid] ->. done.
Qed.

Lemma history_ok_sublist (l l' : list Value) :
  l' `sublist_of` l → history_ok l → history_ok l'.
Proof.
  intros Hsub [He Hu Hl]. split.
  - by eapply Forall_sublist.
  - eapply sublist_NoDup; [exact Hu|]. by apply fmap_sublist.
  - apply sublist_length in Hsub. lia.
Qed.

Section history.
Context `{Browser}.

(** X11. On a history page that shows the stored history, removing the
    element at some position deletes exactly that entry from the store
    and from the page: the page still shows the stored history, which
    still meets its invariant and keeps its order. *)
Theorem removeHistoryItem_in_sync (element : nat) (entry : Value) (id : string)
    (page : HistoryPage) (ls : LocalStorage) :
  accepting → history_shape ls → history_ok (stored_history ls) →
  history_elements page = stored_history ls →
  stored_history ls !! element = Some entry → item_id entry = Some id →
  ∃ page' ls',
    removeHistoryItem id element page ls = (Ok page', ls')
    ∧ stored_history ls' = delete element (stored_history ls)
    ∧ history_elements page' = stored_history ls'
    ∧ history_ok (stored_history ls')
    ∧ (recent_first (stored_history ls) → recent_first (stored_history ls'))
    ∧ ∀ key, key ≠ keys_readingHistory → ls' !! key = ls !! key.
Proof.
  intros [Hread Hquota] Hshape Hok Hpage Hentry Hid.
  pose proof (history_ok_not_null _ Hok) as Hnn.
  unfold removeHistoryItem.
  rewrite bind_run, get_run, Hread, Hshape. cbn [as_array].
  rewrite bind_run, lift_run, bind_run, lift_run, filterR_id_is_not by done.
  rewrite (filter_other_ids_delete _ element entry id) by (done || apply Hok).
  rewrite bind_run, set_run, Hread, Hquota. cbn [orb]. rewrite ret_run.
  do 2 eexists. split; [reflexivity|].
  rewrite stored_history_insert. cbn [history_elements].
  split; [done|]. split; [by rewrite Hpage|].
  split; [eapply history_ok_sublist; [apply sublist_delete|done]|].
  split.
  - intros Hsorted. eapply StronglySorted_sublist; [apply sublist_delete|done].
  - intros key Hne. by rewrite lookup_insert_ne.
Qed.

End history.

Lemma removeHistoryItem_in_sync_witness :
  ∃ (page' : HistoryPage) (ls' : LocalStorage),
    @removeHistoryItem reliable "Solo Leveling_Chapter 1" 0 journal_page journal = (Ok page', ls')
    ∧ history_elements page' = stored_history ls'.
Proof.
  destruct (@removeHistoryItem_in_sync reliable 0
              (historyItem solo_leveling chapter_1 "2025-03-01T10:00:00.000Z")
              "Solo Leveling_Chapter 1" journal_page journal reliable_accepting
              (proj1 journal_shape) (proj1 (proj2 journal_shape))
              ltac:(vm_compute; reflexivity) ltac:(vm_compute; reflexivity)
              ltac:(vm_compute; reflexivity))
    as (page' & ls' & Hrun & _ & Hsync & _).
  exists page', ls'. split; [exact Hrun|exact Hsync].
Defined.

(** X12. The text [formatTimeAgo] shows for a date [ms] milliseconds before
    the clock: "Just now" below one minute (a date in the future
    included), then whole minutes from 1 to 59, whole hours from 1 to 23,
    whole days from 1 to 29, and the date in the locale's format from 30
    days on; "Invalid Date" for a string that is not a date. *)
Theorem formatTimeAgo_buckets (toLocaleDateString : Z → string) (date now : Z) :
  let ms := (now - date)%Z in
  let shown := formatTimeAgo toLocaleDateString (Some date) now in
  ((ms < 60000)%Z → shown = "Just now")
  ∧ ((60000 ≤ ms < 3600000)%Z →
     (1 ≤ ms / 60000 ≤ 59)%Z ∧ shown = pretty (ms / 60000)%Z +:+ "m ago")
  ∧ ((3600000 ≤ ms < 86400000)%Z →
     (1 ≤ ms / 3600000 ≤ 23)%Z ∧ shown = pretty (ms / 3600000)%Z +:+ "h ago")
  ∧ ((86400000 ≤ ms < 2592000000)%Z →
     (1 ≤ ms / 86400000 ≤ 29)%Z ∧ shown = pretty (ms / 86400000)%Z +:+ "d ago")
  ∧ ((2592000000 ≤ ms)%Z → shown = toLocaleDateString date)
  ∧ formatTimeAgo toLocaleDateString None now = "Invalid Date".
Proof.
  intros ms shown. unfold shown, formatTimeAgo. fold ms. cbn zeta.
  assert (∀ a : Z, (ms / 1000 <? a)%Z = (ms <? a * 1000)%Z) as Hlt.
  { intros a. pose proof (Z.div_mod ms 1000). pose proof (Z.mod_pos_bound ms 1000).
    destruct (Z.ltb_spec (ms / 1000) a), (Z.ltb_spec ms (a * 1000)); lia. }
  assert (∀ c : Z, (0 < c)%Z → (ms / 1000 / c = ms / (1000 * c))%Z) as Hdiv.
  { intros c Hc. apply Z.div_div; lia. }
  rewrite !Hlt, !Hdiv by lia. cbn [Z.mul Pos.mul].
  assert (∀ c lo hi : Z, (0 < c)%Z → (lo * c ≤ ms < (hi + 1) * c)%Z → (lo ≤ ms / c ≤ hi)%Z)
    as Hrange.
  { intros c lo hi Hc [Hlo Hhi]. split.
    - apply Z.div_le_lower_bound; lia.
    - assert (ms / c < hi + 1)%Z by (apply Z.div_lt_upper_bound; lia). lia. }
  split; [|split; [|split; [|split; [|split]]]].
  - intros Hms. by rewrite (proj2 (Z.ltb_lt _ _)).
  - intros [Hlo Hhi]. split; [apply Hrange; lia|].
    rewrite (proj2 (Z.ltb_ge _ _)) by lia. by rewrite (proj2 (Z.ltb_lt _ _)).
  - intros [Hlo Hhi]. split; [apply Hrange; lia|].
    rewrite !(proj2 (Z.ltb_ge _ _)) by lia. by rewrite (proj2 (Z.ltb_lt _ _)).
  - intros [Hlo Hhi]. split; [apply Hrange; lia|].
    rewrite !(proj2 (Z.ltb_ge _ _)) by lia. by rewrite (proj2 (Z.ltb_lt _ _)).
  - intros Hms. by rewrite !(proj2 (Z.ltb_ge _ _)) by lia.
  - done.
Qed.

End UiTheory.

(* ===================================================================== *)
(** ** The session: theorems *)
(* ===================================================================== *)

Module AuthTheory.

Import Auth Samples.

Section session.
Context `{AuthBrowser}.

(** X13. A session saved on one page is the session [initializeAuth] finds on
    the next page: the same user and the same token, whenever the user is
    an object and the storage accepts the three writes. *)
Theorem session_survives_reload (user : gmap string Value) (token : string) (remember : bool)
    (e : AuthStorage) :
  access_denied = false → (∀ e', storage_full e' = false) → token ≠ EmptyString →
  let st := {| currentUser := VObj user; authToken := Some token; entries := e |} in
  let saved := saveSession remember st in
  saved.2 = Ok ()
  ∧ entries saved.1 = {| USER := Some (Json (VObj user)); TOKEN := Some token;
                         REMEMBER := Some (if remember then "true" else "false") |}
  ∧ initializeAuth (page_load (entries saved.1))
    = Ok {| currentUser := VObj user; authToken := Some token; entries := entries saved.1 |}
  ∧ (∀ st', initializeAuth (page_load (entries saved.1)) = Ok st' → isAuthenticated st' = true).
Proof.
  intros Hacc Hquota Htoken st saved.
  assert (String.eqb token EmptyString = false) as Hne by (by apply String.eqb_neq).
  assert (saved = ({| currentUser := VObj user; authToken := Some token;
                      entries := {| USER := Some (Json (VObj user)); TOKEN := Some token;
                                    REMEMBER := Some (if remember then "true" else "false") |} |},
                   Ok ())) as ->.
  { unfold saved, saveSession, entry_write, st. cbn [currentUser authToken truthy nonempty_string entries].
    by rewrite Hne, Hacc, !Hquota. }
  cbn [fst snd entries]. split; [done|]. split; [done|].
  assert (initializeAuth (page_load {| USER := Some (Json (VObj user)); TOKEN := Some token;
                                   REMEMBER := Some (if remember then "true" else "false") |})
          = Ok {| currentUser := VObj user; authToken := Some token;
                  entries := {| USER := Some (Json (VObj user)); TOKEN := Some token;
                                REMEMBER := Some (if remember then "true" else "false") |} |})
    as Hinit.
  { unfold initializeAuth, page_load. cbn [entries USER TOKEN nonempty nonempty_string prop].
    by rewrite Hacc, Hne. }
  split; [done|]. intros st'. rewrite Hinit. by intros [= <-].
Qed.

(** X14. What ends a session.  After [clearSession] the next page finds no
    session.  A stored user that does not parse, or that is [null], makes
    [initializeAuth] remove the three entries and leave the page signed
    out.  A stored user without a stored token is left alone. *)
Theorem session_cleared (st : AuthState) (e : AuthStorage) :
  access_denied = false →
  (∀ st', clearSession st = Ok st' →
     initializeAuth (page_load (entries st')) = Ok (page_load (entries st'))
     ∧ isAuthenticated st' = false ∧ entries st' = {| USER := None; TOKEN := None; REMEMBER := None |})
  ∧ (nonempty_string (TOKEN e) = true →
     (∃ s, USER e = Some (Raw s) ∧ s ≠ EmptyString) ∨ USER e = Some (Json VNull) →
     initializeAuth (page_load e)
     = Ok (page_load {| USER := None; TOKEN := None; REMEMBER := None |}))
  ∧ (nonempty_string (TOKEN e) = false → initializeAuth (page_load e) = Ok (page_load e)).
Proof.
  intros Hacc. split; [|split].
  - unfold clearSession. rewrite Hacc. intros st' [= <-]. cbn [entries].
    unfold initializeAuth. rewrite Hacc. done.
  - intros Htoken Huser. unfold initializeAuth, page_load, clearSession.
    cbn [entries]. rewrite Hacc, Htoken.
    destruct Huser as [(s & -> & Hs)| ->]; cbn [nonempty andb prop].
    + apply String.eqb_neq in Hs. by rewrite Hs.
    + done.
  - intros Htoken. unfold initializeAuth. cbn [entries page_load]. rewrite Hacc, Htoken.
    by rewrite andb_false_r.
Qed.

(** X15. [checkExistingSession] never ends a session: [verifyToken] catches
    every failure itself, so its promise is never rejected and
    [clearSession] is not called, whatever the server answers. *)
Theorem checkExistingSession_keeps (response : Result bool) (st : AuthState) :
  checkExistingSession response st = Ok st.
Proof.
  unfold checkExistingSession, verifyToken.
  destruct (truthy (currentUser st) && nonempty_string (authToken st)); [|done].
  by destruct response as [[]|e].
Qed.

End session.

Lemma session_survives_reload_witness :
  (@saveSession open_storage true
     {| currentUser := VObj reader_account; authToken := Some "0a1b2c"; entries := signed_out |}).2
  = Ok ().
Proof.
  destruct (@session_survives_reload open_storage reader_account "0a1b2c" true signed_out
              eq_refl (λ _, eq_refl) ltac:(discriminate)) as (Hsaved & _).
  exact Hsaved.
Defined.

Lemma session_cleared_witness :
  @initializeAuth open_storage
    (page_load {| USER := Some (Raw "{username:"); TOKEN := Some "0a1b2c"; REMEMBER := None |})
  = Ok (page_load signed_out).
Proof.
  destruct (@session_cleared open_storage (page_load signed_out)
              {| USER := Some (Raw "{username:"); TOKEN := Some "0a1b2c"; REMEMBER := None |}
              eq_refl) as (_ & Hbroken & _).
  apply Hbroken; [reflexivity|]. left. eexists. split; [reflexivity|discriminate].
Defined.

End AuthTheory.

(* ===================================================================== *)
(** ** Facts about regular expressions *)
(* ===================================================================== *)

Module RegExpFacts.

Import RegExp.

Lemma matches_seq_inv (r1 r2 : Re) (s : list Z) :
  matches (Seq r1 r2) s ↔ ∃ s1 s2, s = s1 ++ s2 ∧ matches r1 s1 ∧ matches r2 s2.
Proof.
  split.
  - intros Hm. remember (Seq r1 r2) as r eqn:Hr.
    destruct Hm; try discriminate. injection Hr as -> ->. eauto.
  - intros (s1 & s2 & -> & Hm1 & Hm2). by constructor.
Qed.

Lemma matches_chr_inv (p : Z → bool) (s : list Z) :
  matches (Chr p) s ↔ ∃ c, s = [c] ∧ p c = true.
Proof.
  split.
  - intros Hm. remember (Chr p) as r eqn:Hr.
    destruct Hm; try discriminate. injection Hr as ->. eauto.
  - intros (c & -> & Hc). by constructor.
Qed.

Lemma matches_alt_inv (r1 r2 : Re) (s : list Z) :
  matches (Alt r1 r2) s ↔ matches r1 s ∨ matches r2 s.
Proof.
  split.
  - intros Hm. remember (Alt r1 r2) as r eqn:Hr.
    destruct Hm; try discriminate; injection Hr as -> ->; auto.
  - intros [Hm|Hm]; by constructor.
Qed.

Lemma matches_never_inv (s : list Z) : ¬ matches Never s.
Proof. intros Hm. remember Never as r eqn:Hr. destruct Hm; discriminate. Qed.

Lemma matches_epsilon_inv (s : list Z) : matches Epsilon s ↔ s = [].
Proof.
  split.
  - intros Hm. remember Epsilon as r eqn:Hr. destruct Hm; try discriminate. done.
  - intros ->. constructor.
Qed.

Lemma nullable_matches (r : Re) : nullable r = true ↔ matches r [].
Proof.
  induction r as [| |p|r1 IH1 r2 IH2|r1 IH1 r2 IH2|r IH]; cbn.
  - split; [done|]. by intros ?%matches_never_inv.
  - split; [constructor|done].
  - split; [done|]. by intros (c & ? & _)%matches_chr_inv.
  - by rewrite orb_true_iff, IH1, IH2, matches_alt_inv.
  - rewrite andb_true_iff, IH1, IH2, matches_seq_inv. split.
    + intros [Hm1 Hm2]. by exists [], [].
    + intros (s1 & s2 & Heq & Hm1 & Hm2). symmetry in Heq.
      apply app_eq_nil in Heq as [-> ->]. done.
  - split; [constructor|done].
Qed.

Lemma matches_star_head (r : Re) (c : Z) (s : list Z) :
  matches (Star r) (c :: s) →
  ∃ s1 s2, s = s1 ++ s2 ∧ matches r (c :: s1) ∧ matches (Star r) s2.
Proof.
  intros Hm. remember (Star r) as r' eqn:Hr. remember (c :: s) as t eqn:Ht.
  revert s Ht. induction Hm as [| | | | | |r0 s1 s2 Hm1 _ Hm2 IH]; intros t Ht; try done.
  injection Hr as ->. destruct s1 as [|c' s1].
  - cbn in Ht. by apply IH.
  - cbn in Ht. injection Ht as -> <-. eauto.
Qed.

Lemma matches_seq_head (r1 r2 : Re) (c : Z) (s : list Z) :
  matches (Seq r1 r2) (c :: s) ↔
    (∃ s1 s2, s = s1 ++ s2 ∧ matches r1 (c :: s1) ∧ matches r2 s2)
    ∨ (matches r1 [] ∧ matches r2 (c :: s)).
Proof.
  rewrite matches_seq_inv. split.
  - intros (s1 & s2 & Heq & Hm1 & Hm2). destruct s1 as [|c' s1]; cbn in Heq.
    + right. by subst.
    + injection Heq as <- ->. left. eauto.
  - intros [(s1 & s2 & -> & Hm1 & Hm2)|[Hm1 Hm2]].
    + by exists (c :: s1), s2.
    + by exists [], (c :: s).
Qed.

Lemma derivative_matches (c : Z) (r : Re) (s : list Z) :
  matches (derivative c r) s ↔ matches r (c :: s).
Proof.
  revert s. induction r as [| |p|r1 IH1 r2 IH2|r1 IH1 r2 IH2|r IH]; intros s; cbn.
  - split; by intros ?%matches_never_inv.
  - split; [by intros ?%matches_never_inv|]. by intros ?%matches_epsilon_inv.
  - rewrite matches_chr_inv. destruct (p c) eqn:Hp.
    + rewrite matches_epsilon_inv. split.
      * intros ->. eauto.
      * intros (c' & Heq & _). by injection Heq.
    + split; [by intros ?%matches_never_inv|].
      intros (c' & Heq & Hc). injection Heq as Hcc _. congruence.
  - by rewrite !matches_alt_inv, IH1, IH2.
  - rewrite matches_seq_head. destruct (nullable r1) eqn:Hnull.
    + rewrite matches_alt_inv, matches_seq_inv, IH2. split.
      * intros [(s1 & s2 & -> & Hm1%IH1 & Hm2)|Hm2]; [left; eauto|].
        right. split; [by apply nullable_matches|done].
      * intros [(s1 & s2 & -> & Hm1 & Hm2)|[_ Hm2]]; [|by right].
        left. exists s1, s2. split; [done|]. split; [by apply IH1|done].
    + rewrite matches_seq_inv. split.
      * intros (s1 & s2 & -> & Hm1%IH1 & Hm2). left. eauto.
      * intros [(s1 & s2 & -> & Hm1 & Hm2)|[Hm1%nullable_matches _]]; [|congruence].
        exists s1, s2. split; [done|]. split; [by apply IH1|done].
  - rewrite matches_seq_inv. split.
    + intros (s1 & s2 & -> & Hm1%IH & Hm2). by apply (matches_star_cons r (c :: s1) s2).
    + intros (s1 & s2 & -> & Hm1 & Hm2)%matches_star_head.
      exists s1, s2. split; [done|]. split; [by apply IH|done].
Qed.

(** The matcher decides the language of the pattern. *)
Lemma test_matches (r : Re) (s : list Z) : test r s = true ↔ matches r s.
Proof.
  revert r. induction s as [|c s IH]; intros r; cbn.
  - apply nullable_matches.
  - rewrite IH. apply derivative_matches.
Qed.

Lemma matches_star_chr (p : Z → bool) (s : list Z) :
  matches (Star (Chr p)) s ↔ Forall (λ c, p c = true) s.
Proof.
  split.
  - intros Hm. remember (Star (Chr p)) as r eqn:Hr.
    induction Hm as [| | | | | |r0 s1 s2 Hm1 _ Hm2 IH]; try done.
    injection Hr as ->. apply matches_chr_inv in Hm1 as (c & -> & Hc).
    constructor; [done|by apply IH].
  - induction 1 as [|c s Hc _ IH]; [constructor|].
    apply (matches_star_cons (Chr p) [c] s); [by constructor|done].
Qed.

Lemma matches_plus_chr (p : Z → bool) (s : list Z) :
  matches (Plus (Chr p)) s ↔ s ≠ [] ∧ Forall (λ c, p c = true) s.
Proof.
  unfold Plus. rewrite matches_seq_inv. split.
  - intros (s1 & s2 & -> & (c & -> & Hc)%matches_chr_inv & Hm2%matches_star_chr).
    split; [done|by constructor].
  - intros [Hne Hall]. destruct Hall as [|c s Hc Hs]; [done|].
    exists [c], s. split; [done|]. split; [by constructor|by apply matches_star_chr].
Qed.

End RegExpFacts.

(* ===================================================================== *)
(** ** The forms: theorems *)
(* ===================================================================== *)

Module AuthFormsTheory.

Import RegExp AuthForms RegExpFacts.

(** X16. [validateEmail] accepts an address exactly when it reads
    local@domain.rest with the three parts non-empty and free of white
    space and of "@" (dots are allowed in every part).  An accepted
    address has no white space, exactly one "@", which is not its first
    unit, and at least 5 units. *)
Theorem validateEmail_shape (email : list Z) :
  (validateEmail email = true ↔
   ∃ local domain rest : list Z,
     email = local ++ [64%Z] ++ domain ++ [46%Z] ++ rest
     ∧ local ≠ [] ∧ domain ≠ [] ∧ rest ≠ []
     ∧ Forall (λ c, address_unit c = true) (local ++ domain ++ rest))
  ∧ (validateEmail email = true →
     Forall (λ c, white_space c = false) email
     ∧ length (filter (λ c, c = 64%Z) email) = 1%nat
     ∧ head email ≠ Some 64%Z
     ∧ (5 ≤ length email)%nat).
Proof.
  assert (validateEmail email = true ↔
          ∃ local domain rest : list Z,
            email = local ++ [64%Z] ++ domain ++ [46%Z] ++ rest
            ∧ local ≠ [] ∧ domain ≠ [] ∧ rest ≠ []
            ∧ Forall (λ c, address_unit c = true) (local ++ domain ++ rest)) as Hshape.
  { unfold validateEmail, emailRegex. rewrite test_matches. split.
    - intros (local & s1 & -> & [Hl1 Hl2]%matches_plus_chr & Hm)%matches_seq_inv.
      apply matches_seq_inv in Hm as (at_ & s2 & -> & (c & -> & Hc)%matches_chr_inv & Hm).
      apply matches_seq_inv in Hm as (domain & s3 & -> & [Hd1 Hd2]%matches_plus_chr & Hm).
      apply matches_seq_inv in Hm as (dot & rest & -> & (d & -> & Hd)%matches_chr_inv
                                       & [Hr1 Hr2]%matches_plus_chr).
      apply Z.eqb_eq in Hc as ->. apply Z.eqb_eq in Hd as ->.
      exists local, domain, rest. repeat split; try done.
      rewrite !Forall_app. done.
    - intros (local & domain & rest & -> & Hl & Hd & Hr & Hall).
      rewrite !Forall_app in Hall. destruct Hall as (Hl' & Hd' & Hr').
      apply matches_seq; [by apply matches_plus_chr|].
      apply matches_seq; [by constructor|].
      apply matches_seq; [by apply matches_plus_chr|].
      apply matches_seq; [by constructor|]. by apply matches_plus_chr. }
  split; [done|].
  intros (local & domain & rest & -> & Hl & Hd & Hr & Hall)%Hshape.
  assert (∀ l, Forall (λ c, address_unit c = true) l →
            Forall (λ c, white_space c = false) l ∧ filter (λ c, c = 64%Z) l = []) as Hunits.
  { intros l Hl0. split.
    - eapply Forall_impl; [exact Hl0|]. intros c. unfold address_unit.
      rewrite andb_true_iff, negb_true_iff. tauto.
    - induction Hl0 as [|c l Hc _ IH]; [done|].
      rewrite filter_cons_False; [done|]. intros ->. done. }
  rewrite !Forall_app in Hall. destruct Hall as (Hl' & Hd' & Hr').
  destruct (Hunits local Hl') as [Hw1 Hf1]. destruct (Hunits domain Hd') as [Hw2 Hf2].
  destruct (Hunits rest Hr') as [Hw3 Hf3].
  split; [|split; [|split]].
  - rewrite !Forall_app. repeat split; try done; by repeat constructor.
  - rewrite !filter_app, Hf1, Hf2, Hf3. done.
  - destruct local as [|c local]; [done|]. cbn. intros [= ->].
    apply Forall_cons in Hl' as [Hc _]. done.
  - rewrite !length_app. cbn.
    destruct local, domain, rest; cbn; try done; lia.
Qed.

End AuthFormsTheory.

(* ===================================================================== *)
(** ** Chapter images and the homepage: further theorems *)
(* ===================================================================== *)

Module MainLaws.

Import Main Props Samples JsFacts MainTheory.

Lemma imap_firstImage_lookup (g : nat → nat) (l : list string) (k : nat) (t : ImageTask) :
  imap (λ i, firstImage (g i)) l !! k = Some t →
  ∃ u, l !! k = Some u ∧ t = firstImage (g k) u.
Proof.
  rewrite list_lookup_imap. destruct (l !! k) as [u|]; [|done].
  cbn. intros [= <-]. eauto.
Qed.

Lemma imap_preloadedImage_lookup (g : nat → nat) (l : list string) (k : nat) (t : ImageTask) :
  imap (λ i, preloadedImage (g i)) l !! k = Some t →
  ∃ u, l !! k = Some u ∧ t = preloadedImage (g k) u.
Proof.
  rewrite list_lookup_imap. destruct (l !! k) as [u|]; [|done].
  cbn. intros [= <-]. eauto.
Qed.

(** X17. The pages of a chapter are numbered consecutively from 1 across the
    ten images shown first and the preloaded rest, each element carries
    the URL at its position, and only the preloaded ones start with a
    placeholder text. *)
Theorem displayChapterImages_numbering (images : list string) (c : Reader) (k : nat)
    (t : ImageTask) :
  tasks_of (displayChapterImages (Some images) (Some c)) !! k = Some t →
  images !! k = Some (src (img t))
  ∧ alt (img t) = "Chapter page " +:+ pretty (k + 1)%nat
  ∧ textContent (img t) =
      (if bool_decide (k < 10)%nat then EmptyString
       else "Preloading page " +:+ pretty (k + 1)%nat +:+ "...")
  ∧ state (img t) = pending.
Proof.
  destruct (decide (images = [])) as [->|Hne]; [done|].
  rewrite displayChapterImages_tasks by done. cbn [tasks_of].
  intros Hk. apply lookup_app_Some in Hk as [Hk|[Hlen Hk]].
  - apply (imap_firstImage_lookup id) in Hk as (u & Hu & ->).
    apply lookup_take_Some in Hu as [Hu Hlt].
    rewrite bool_decide_eq_true_2 by done. by rewrite Hu.
  - rewrite length_imap in Hlen, Hk.
    apply (imap_preloadedImage_lookup id) in Hk as (u & Hu & ->).
    rewrite lookup_drop in Hu.
    assert (length (take 10 images) = 10)%nat as Hten.
    { rewrite length_take. apply lookup_lt_Some in Hu. lia. }
    rewrite Hten in *. replace (10 + (k - 10))%nat with k in Hu by lia.
    rewrite bool_decide_eq_false_2 by lia.
    cbn. replace (k - 10 + 11)%nat with (k + 1)%nat by lia. by rewrite Hu.
Qed.

Lemma displayChapterImages_numbering_witness :
  ∃ t : ImageTask,
    tasks_of (displayChapterImages (Some chapter11) (Some (Pages []))) !! 10%nat = Some t
    ∧ alt (img t) = "Chapter page 11".
Proof.
  destruct (tasks_of (displayChapterImages (Some chapter11) (Some (Pages []))) !! 10%nat)
    as [t|] eqn:Ht; [|vm_compute in Ht; discriminate].
  exists t. split; [reflexivity|].
  exact (proj1 (proj2 (displayChapterImages_numbering chapter11 (Pages []) 10 t Ht))).
Defined.

Lemma full_load_entries {A Card : Type} (render : A → Result Card)
    (quickResult : option (Response A)) (fl : list A) (popular : Result (Response A))
    (st : Home A Card) :
  fl ≠ [] →
  full_load render quickResult (Ok {| data := Some fl |}) popular st =
    let st1 := {| updatesGrid := updatesGrid st; allMangaData := Some fl;
                  progressive := progressive st |} in
    match quickResult with
    | None => update_with_full render fl st1
    | Some q =>
        match data q with
        | None => load_failed st1
        | Some ql =>
            if bool_decide (length ql < 20)%nat then update_with_full render fl st1
            else keep_quick st1
        end
    end.
Proof. intros Hf. by destruct fl. Qed.

Lemma loadHomepageContent_full {A Card : Type} (card : A → Card) (trending : bool)
    (quick : Result (Response A)) (fl : list A) (popular : Result (Response A))
    (g0 : Grid Card) (all0 : option (list A)) (scroll0 : option (Scroll Card)) :
  fl ≠ [] →
  (∀ q, quick = Ok q → ∃ ql, data q = Some ql) →
  let render := λ a, Ok (card a) in
  let st0 := {| updatesGrid := Some g0; allMangaData := all0; progressive := scroll0 |} in
  let shown := match quick with
               | Ok {| data := Some ql |} =>
                   if bool_decide (length ql < 20)%nat then (take 20 fl, 20%nat)
                   else (take 10 ql, 10%nat)
               | _ => (take 20 fl, 20%nat)
               end in
  loadHomepageContent render trending quick (Ok {| data := Some fl |}) popular st0
  = {| updatesGrid := Some (Cards (card <$> shown.1)); allMangaData := Some fl;
       progressive := Some (setupProgressiveScroll (card <$> shown.1) shown.2) |}.
Proof.
  intros Hf Hq render st0 shown.
  assert (∀ (n : nat) (l : list A), (0 < n)%nat → l ≠ [] →
            displayEnhancedMangaGrid render (Some (slice 0 n l)) = Ok (Cards (card <$> take n l)))
    as Hgrid.
  { intros n l Hn Hl. unfold slice. rewrite Nat.sub_0_r, drop_0.
    apply displayEnhancedMangaGrid_total. by apply take_ne_nil. }
  unfold loadHomepageContent. subst st0. cbn [updatesGrid].
  rewrite bool_decide_eq_false_2 by done. rewrite andb_false_r.
  cbn [showLoadingState fmap option_fmap option_map with_grid updatesGrid allMangaData progressive].
  destruct quick as [[[ql|]]|e].
  - unfold quick_load. cbn [data updatesGrid with_grid allMangaData progressive].
    case_bool_decide as Hlen.
    + rewrite Hgrid by (try lia; intros ->; simpl in *; lia).
      cbv beta iota. rewrite full_load_entries by done. cbn [data with_grid updatesGrid allMangaData progressive].
      unfold shown. case_bool_decide.
      * unfold update_with_full. cbn [updatesGrid]. by rewrite Hgrid by (lia || done).
      * done.
    + cbv beta iota. rewrite full_load_entries by done.
      cbn [data updatesGrid allMangaData progressive].
      unfold shown. rewrite bool_decide_eq_true_2 by lia.
      unfold update_with_full. cbn [updatesGrid]. by rewrite Hgrid by (lia || done).
  - destruct (Hq _ eq_refl) as [ql Hql]. done.
  - unfold quick_load. cbv beta iota. rewrite full_load_entries by done.
    unfold shown, update_with_full. cbn [updatesGrid]. by rewrite Hgrid by (lia || done).
Qed.

(** X18. The homepage from the first request to the end of the scroll.  When
    the full aggregate arrives with entries, [window.allMangaData] is the
    full list.  If the quick request failed or returned fewer than 20
    entries, the grid is rebuilt from the full list and the progressive
    scroll, once drained, has displayed every entry of the full list once
    and in order.  If the quick result had 20 entries or more, the grid
    keeps the first 10 quick entries and the scroll appends the full list
    from its 11th entry on. *)
Theorem homepage_displays {A Card : Type} (card : A → Card) (manga_title : A → Result unit)
    (trending : bool) (quick : Result (Response A)) (fl : list A) (popular : Result (Response A))
    (g0 : Grid Card) (all0 : option (list A)) (scroll0 : option (Scroll Card)) :
  fl ≠ [] →
  (∀ q, quick = Ok q → ∃ ql, data q = Some ql) →
  let render := λ a, Ok (card a) in
  let st0 := {| updatesGrid := Some g0; allMangaData := all0; progressive := scroll0 |} in
  let final := loadHomepageContent render trending quick (Ok {| data := Some fl |}) popular st0 in
  allMangaData final = Some fl
  ∧ ∃ scroll,
      progressive final = Some scroll
      ∧ updatesGrid final = Some (Cards (container scroll))
      ∧ container (drain render manga_title (allMangaData final) scroll).2 =
          card <$> match quick with
                   | Ok {| data := Some ql |} =>
                       if bool_decide (length ql < 20)%nat then fl
                       else take 10 ql ++ drop 10 fl
                   | _ => fl
                   end.
Proof.
  intros Hf Hq render st0 final. subst final st0 render.
  rewrite (loadHomepageContent_full card) by done.
  cbn [allMangaData progressive updatesGrid]. split; [done|].
  eexists. split; [reflexivity|]. split; [done|].
  rewrite (drain_container _ manga_title card) by done.
  match goal with |- context [drain ?r ?t ?a ?s] =>
    destruct (drain_concat r t a s) as [-> _];
      [by apply (skippable_total _ _ card)|done|done|] end.
  cbn [setupProgressiveScroll container currentOffset default from_option id].
  destruct quick as [[[ql|]]|e]; cbn [fst snd].
  - case_bool_decide; cbn [fst snd].
    + by rewrite <- fmap_app, take_drop.
    + by rewrite <- fmap_app.
  - by rewrite <- fmap_app, take_drop.
  - by rewrite <- fmap_app, take_drop.
Qed.

Lemma homepage_displays_witness :
  allMangaData
    (loadHomepageContent (λ a : nat, Ok a) false (Ok {| data := Some [1; 2]%nat |})
       (Ok {| data := Some [1; 2; 3]%nat |}) (Throw ApiError) home0)
  = Some [1; 2; 3]%nat.
Proof.
  refine (proj1 (@homepage_displays nat nat (λ a, a) (λ _, Ok ()) false
                   (Ok {| data := Some [1; 2]%nat |})
                   [1; 2; 3]%nat (Throw ApiError) (LoadingState "Loading latest updates...")
                   None None _ _)).
  - discriminate.
  - intros q [= <-]. by eexists.
Defined.

(** X19. Failure of the full load.  Whatever the quick request returned and
    displayed, the updates grid ends in the error state with a retry
    button when the request for the full aggregate fails, or returns no
    entry and the fallback request fails ("Failed to load latest
    updates."), and when both return no entry ("No updates available");
    [window.allMangaData] and the progressive scroll are left as they
    were. *)
Theorem homepage_failure {A Card : Type} (render : A → Result Card) (trending : bool)
    (quick unified popular : Result (Response A)) (g0 : Grid Card)
    (all0 : option (list A)) (scroll0 : option (Scroll Card)) :
  let st0 := {| updatesGrid := Some g0; allMangaData := all0; progressive := scroll0 |} in
  let final := loadHomepageContent render trending quick unified popular st0 in
  let failed message :=
    final = {| updatesGrid := Some (ErrorState message true); allMangaData := all0;
               progressive := scroll0 |} in
  ((∃ e, unified = Throw e) → failed "Failed to load latest updates.")
  ∧ ((∃ r e, unified = Ok r ∧ is_empty r = true ∧ popular = Throw e) →
     failed "Failed to load latest updates.")
  ∧ ((∃ r r', unified = Ok r ∧ is_empty r = true ∧ popular = Ok r' ∧ is_empty r' = true) →
     failed "No updates available").
Proof.
  intros st0 final failed. subst failed final st0. unfold loadHomepageContent. cbn [updatesGrid].
  rewrite bool_decide_eq_false_2 by done. rewrite andb_false_r.
  cbn [showLoadingState fmap option_fmap option_map with_grid updatesGrid allMangaData progressive].
  assert (∀ st, updatesGrid st = Some (LoadingState "Loading latest updates...") →
            allMangaData st = all0 → progressive st = scroll0 →
            ∃ g, (quick_load render quick st).2
                 = {| updatesGrid := Some g; allMangaData := all0; progressive := scroll0 |})
    as Hquick.
  { intros [g a p] Hg Ha Hp. cbn in Hg, Ha, Hp. subst. unfold quick_load. cbn [updatesGrid].
    destruct quick as [[[ql|]]|e]; cbn [data snd]; eauto.
    case_bool_decide; cbn [snd]; eauto.
    destruct (displayEnhancedMangaGrid _ _); cbn [snd with_grid allMangaData progressive]; eauto. }
  match goal with |- context [quick_load render quick ?st] =>
    destruct (Hquick st eq_refl eq_refl eq_refl) as [g Hg];
    destruct (quick_load render quick st) as [quickResult st1] end.
  cbn [snd] in Hg. subst st1.
  split; [|split].
  - intros [e ->]. done.
  - intros (r & e & -> & Hr & ->). unfold full_load. by rewrite Hr.
  - intros (r & r' & -> & Hr & -> & Hr'). unfold full_load. rewrite Hr.
    unfold is_empty in Hr'. destruct (data r') as [[|x l]|]; done.
Qed.

End MainLaws.

(* ===================================================================== *)
(** ** Scroll, reading entries, titles and search: theorems *)
(* ===================================================================== *)

Module SiteTheory.

Import StorageManager Main Props Samples JsFacts MainTheory.

Section infinite.
Context {A Card : Type} (render : A → Result Card) (manga_title : A → Result unit)
  (card : A → Card).
Hypothesis render_total : ∀ a, render a = Ok (card a).

Lemma loadMoreContent_receive_page (x : A) (rest : list A) (more : bool) (st : Scroll Card) :
  loadMoreContent_receive render manga_title (Ok {| page_data := Some (x :: rest); has_more := more |}) st
  = {| isLoading := false;
       hasMoreData := more || bool_decide (length (x :: rest) = 12%nat);
       currentOffset := currentOffset st + length (x :: rest);
       container := container st ++ (card <$> x :: rest);
       indicator := if more || bool_decide (length (x :: rest) = 12%nat)
                    then indicator st else false |}.
Proof.
  unfold loadMoreContent_receive. cbn [page_data has_more].
  by rewrite (insert_cards_total render manga_title card).
Qed.

Lemma infinite_scroll_stopped (results : list (Result (Page A))) (st : Scroll Card) :
  isLoading st = false → hasMoreData st = false →
  infinite_scroll render manga_title results st = ([], st).
Proof.
  intros Hl Hm. destruct results as [|result results]; [done|].
  cbn. unfold loadMoreContent_send. by rewrite Hl, Hm.
Qed.

Lemma infinite_scroll_run (results : list (Result (Page A))) (st : Scroll Card) :
  isLoading st = false → hasMoreData st = true →
  let r := infinite_scroll render manga_title results st in
  isLoading r.2 = false
  ∧ currentOffset r.2 = (currentOffset st + length (delivered results))%nat
  ∧ container r.2 = container st ++ (card <$> delivered results)
  ∧ (∀ (i : nat) (request : nat * nat), r.1 !! i = Some request →
       request = ((currentOffset st + length (delivered (take i results)))%nat, 12%nat))
  ∧ (∀ (i : nat) (e : Error), results !! i = Some (Throw e) →
       (length r.1 ≤ S i)%nat ∧ hasMoreData r.2 = false).
Proof.
  revert st. induction results as [|result results IH]; intros st Hl Hm.
  { cbn. rewrite Nat.add_0_r, app_nil_r. repeat split; try done. }
  cbn [infinite_scroll]. unfold loadMoreContent_send. rewrite Hl, Hm. cbn [orb negb].
  set (st1 := {| isLoading := true; hasMoreData := true; currentOffset := currentOffset st;
                 container := container st; indicator := true |}).
  assert (∀ st2, isLoading st2 = false → hasMoreData st2 = false →
            currentOffset st2 = currentOffset st → container st2 = container st →
            delivered (result :: results) = [] →
            (∀ i, delivered (take i (result :: results)) = []) →
            let r := infinite_scroll render manga_title results st2 in
            isLoading r.2 = false
            ∧ currentOffset r.2 = (currentOffset st + length (delivered (result :: results)))%nat
            ∧ container r.2 = container st ++ (card <$> delivered (result :: results))
            ∧ (∀ (i : nat) (request : nat * nat),
                 ((currentOffset st, 12%nat) :: r.1) !! i = Some request →
                 request = ((currentOffset st
                             + length (delivered (take i (result :: results))))%nat, 12%nat))
            ∧ (∀ (i : nat) (e : Error), (result :: results) !! i = Some (Throw e) →
                 (length ((currentOffset st, 12%nat) :: r.1) ≤ S i)%nat ∧ hasMoreData r.2 = false))
    as Hstop.
  { intros st2 Hl2 Hm2 Ho2 Hc2 Hnone Hprefix.
    rewrite infinite_scroll_stopped by done. cbn [fst snd].
    rewrite Hnone, Nat.add_0_r, app_nil_r.
    split; [done|]. split; [done|]. split; [done|]. split.
    - intros [|i] request; [|done]. cbn. intros [= <-].
      by rewrite Nat.add_0_r.
    - intros i e _. cbn. split; [clear; lia|done]. }
  destruct result as [[[[|x rest]|] more]|e].
  - apply Hstop; try done. by intros [|i].
  - rewrite loadMoreContent_receive_page.
    match goal with |- context [infinite_scroll render manga_title results ?s] => set (st2 := s) end.
    destruct (more || bool_decide (length (x :: rest) = 12%nat)) eqn:Hmore.
    + destruct (IH st2 eq_refl eq_refl) as (Hl2 & Ho2 & Hc2 & Hrq & Hfail).
      cbn [fst snd delivered page_data has_more]. rewrite Hmore.
      split; [done|]. split; [|split; [|split]].
      * rewrite Ho2. unfold st2, st1. cbn [currentOffset]. rewrite length_app. lia.
      * rewrite Hc2. unfold st2, st1. cbn [container]. by rewrite fmap_app, app_assoc.
      * intros [|i] request.
        { cbn. intros [= <-]. by rewrite Nat.add_0_r. }
        cbn [lookup list_lookup take delivered page_data has_more]. intros Hi.
        rewrite (Hrq i request Hi). rewrite Hmore. unfold st2, st1. cbn [currentOffset].
        rewrite length_app. f_equal. lia.
      * intros [|i] e'; [done|]. cbn [lookup list_lookup]. intros Hi.
        destruct (Hfail i e' Hi) as [Hlen Hm2]. split; [cbn; clear -Hlen; lia|done].
    + rewrite infinite_scroll_stopped by done.
      cbn [fst snd delivered page_data has_more]. rewrite Hmore, app_nil_r.
      split; [done|]. split; [done|]. split; [done|]. split.
      * intros [|i] request; [|done]. cbn. intros [= <-]. by rewrite Nat.add_0_r.
      * intros i e' _. cbn. split; [clear; lia|done].
  - apply Hstop; try done. by intros [|i].
  - apply Hstop; try done. by intros [|i].
Qed.

(** X20. The legacy infinite scroll: at most one request is in flight; the
    offset of every request is 8 plus the number of items received so far
    and its limit is 12; the cursor and the cards of the container
    account for exactly the items of the pages taken; after a request
    that fails no further request is sent. *)
Theorem infinite_scroll_accounting (results : list (Result (Page A))) (cards : list Card) :
  let r := infinite_scroll render manga_title results (setupInfiniteScroll cards) in
  (∀ (st st1 : Scroll Card) (request : nat * nat),
     loadMoreContent_send st = (Some request, st1) → loadMoreContent_send st1 = (None, st1))
  ∧ isLoading r.2 = false
  ∧ currentOffset r.2 = (8 + length (delivered results))%nat
  ∧ container r.2 = cards ++ (card <$> delivered results)
  ∧ (∀ (i : nat) (request : nat * nat), r.1 !! i = Some request →
       request = ((8 + length (delivered (take i results)))%nat, 12%nat))
  ∧ (∀ (i : nat) (e : Error), results !! i = Some (Throw e) →
       (length r.1 ≤ S i)%nat ∧ hasMoreData r.2 = false).
Proof.
  intros r. split.
  - intros st st1 request. unfold loadMoreContent_send.
    destruct (isLoading st || negb (hasMoreData st)); [done|]. by intros [= _ <-].
  - by apply (infinite_scroll_run results (setupInfiniteScroll cards)).
Qed.

End infinite.

Lemma infinite_scroll_accounting_witness :
  currentOffset (infinite_scroll (λ a : nat, Ok a) (λ _, Ok ()) two_requests
                   (setupInfiniteScroll [])).2
  = (8 + length (delivered two_requests))%nat.
Proof.
  destruct (@infinite_scroll_accounting nat nat (λ a, Ok a) (λ _, Ok ()) (λ a, a) (λ _, eq_refl)
              two_requests []) as (_ & _ & Hoffset & _).
  exact Hoffset.
Defined.

Lemma other_detail_url_bool (detail_url : option string) (v : Value) :
  v ≠ VNull → other_detail_url detail_url v = Ok (negb (same_manga detail_url v)).
Proof.
  intros Hnull. unfold other_detail_url, same_manga, entry_detail_url.
  destruct v as [| | |s|l|m]; done.
Qed.

Lemma filterR_other_detail_url (detail_url : option string) (l : list Value) :
  Forall (λ v, v ≠ VNull) l →
  filterR (other_detail_url detail_url) l
  = Ok (filter (λ v, same_manga detail_url v = false) l).
Proof.
  induction 1 as [|v l Hv _ IH]; [done|].
  cbn [filterR]. rewrite other_detail_url_bool, IH by done.
  rewrite filter_cons. cbn [mbind Result_bind].
  destruct (same_manga detail_url v); by case_decide.
Qed.

Section reading.
Context `{Browser}.

(** X21. [saveReadingProgress] puts the new entry first, drops every older
    entry of the same manga, keeps the others in their order and cuts the
    list after 10 entries.  The list is written to the storage when the
    write is accepted; when the write is refused the exception leaves the
    function, with [AppState.readingHistory] already updated.  On the
    homepage an accepted write shows the new entry in the
    continue-reading card. *)
Theorem saveReadingProgress_history (mangaData : MangaData) (chapterUrl : string)
    (chapterTitle : Value) (timestamp : Z) (app : AppState)
    (elements : option ContinueReading) (ls : LocalStorage) :
  Forall (λ v, v ≠ VNull) (readingHistory app) →
  let entry := readingEntry mangaData chapterUrl chapterTitle timestamp in
  let r := saveReadingProgress mangaData chapterUrl chapterTitle timestamp app elements ls in
  let history := readingHistory (saved_app r) in
  history = take 10 (entry :: filter (λ v, same_manga (md_detail_url mangaData) v = false)
                                (readingHistory app))
  ∧ (length history ≤ 10)%nat
  ∧ (∀ (i : nat) (v : Value), (0 < i)%nat → history !! i = Some v →
       same_manga (md_detail_url mangaData) v = false)
  ∧ (if storage_blocked || quota_exceeded ls "readingHistory" (VArr history)
     then (∃ e, outcome r = Throw e) ∧ saved_storage r = ls ∧ saved_section r = elements
     else outcome r = Ok ()
          ∧ saved_storage r = <["readingHistory" := Parsed (VArr history)]> ls
          ∧ saved_section r =
              if bool_decide (currentPage app = Some "home")
              then (λ _, {| continue_card := Some entry; continue_displayed := true |}) <$> elements
              else elements).
Proof.
  intros Hnn entry r history.
  set (kept := filter (λ v, same_manga (md_detail_url mangaData) v = false) (readingHistory app)).
  assert (slice 0 10 (entry :: kept) = take 10 (entry :: kept)) as Hslice.
  { unfold slice. by rewrite Nat.sub_0_r, drop_0. }
  assert (history = take 10 (entry :: kept)) as Hhistory.
  { unfold history, r, saveReadingProgress.
    rewrite filterR_other_detail_url by done. fold kept entry. rewrite Hslice.
    unfold setItem. destruct storage_blocked; [done|].
    by destruct (quota_exceeded ls _ _). }
  split; [done|]. split; [rewrite Hhistory, length_take; lia|]. split.
  - intros i v Hi. rewrite Hhistory. rewrite lookup_take_Some. intros [Hv _].
    destruct i as [|i]; [lia|]. cbn in Hv.
    apply list_elem_of_lookup_2 in Hv. by apply list_elem_of_filter in Hv as [Hv _].
  - rewrite Hhistory. unfold r, saveReadingProgress.
    rewrite filterR_other_detail_url by done. fold kept entry. rewrite Hslice.
    unfold setItem. destruct storage_blocked; cbn [orb outcome saved_storage saved_section].
    { eauto. }
    destruct (quota_exceeded ls _ _); cbn [outcome saved_storage saved_section].
    { eauto. }
    split; [done|]. split; [done|].
    case_bool_decide; [|done].
    unfold initializeContinueReading. by destruct elements.
Qed.

End reading.

Lemma saveReadingProgress_history_witness :
  (length (readingHistory (saved_app
     (@saveReadingProgress reliable solo_leveling "https://asurascanz.com/solo-leveling/chapter-1"
        (VStr "Chapter 1") 1740823200000 home_app None ∅))) ≤ 10)%nat.
Proof.
  destruct (@saveReadingProgress_history reliable solo_leveling
              "https://asurascanz.com/solo-leveling/chapter-1" (VStr "Chapter 1")
              1740823200000 home_app None ∅ ltac:(constructor)) as (_ & Hlength & _).
  exact Hlength.
Defined.

Lemma ToInt32_mod (z : Z) : (ToInt32 z mod 4294967296 = z mod 4294967296)%Z.
Proof.
  unfold ToInt32. rewrite Zminus_mod_idemp_l. f_equal. lia.
Qed.

Lemma ToInt32_congruent (x y : Z) :
  (x mod 4294967296 = y mod 4294967296)%Z → ToInt32 x = ToInt32 y.
Proof.
  intros Hxy. unfold ToInt32.
  rewrite <- (Zplus_mod_idemp_l x), <- (Zplus_mod_idemp_l y). by rewrite Hxy.
Qed.

Lemma ToInt32_range (z : Z) : (-2147483648 ≤ ToInt32 z ≤ 2147483647)%Z.
Proof.
  unfold ToInt32. pose proof (Z.mod_pos_bound (z + 2147483648) 4294967296). lia.
Qed.

Lemma titleHash_step (a b : Z) :
  ToInt32 (ToInt32 (ToInt32 a * 32) - ToInt32 a + b) = ToInt32 (31 * a + b).
Proof.
  apply ToInt32_congruent.
  rewrite <- Zplus_mod_idemp_l, <- Zminus_mod_idemp_l, ToInt32_mod.
  rewrite <- Zmult_mod_idemp_l, ToInt32_mod, Zmult_mod_idemp_l.
  rewrite Zminus_mod_idemp_l.
  rewrite <- Zminus_mod_idemp_r, ToInt32_mod, Zminus_mod_idemp_r.
  rewrite Zplus_mod_idemp_l. f_equal. lia.
Qed.

(** X22. The hash behind the fallback rating is the polynomial hash of the
    code units with base 31, wrapped into the signed 32-bit range: the
    shift-and-subtract of every step and its two wrap-arounds lose
    nothing of it.  The rating it gives lies between 8.0 and 9.9. *)
Theorem titleHash_polynomial (units : list Z) :
  titleHash units = ToInt32 (foldl (λ a b, 31 * a + b)%Z 0%Z units)
  ∧ (-2147483648 ≤ titleHash units ≤ 2147483647)%Z
  ∧ (80 ≤ fallback_rating units ≤ 99)%Z.
Proof.
  assert (titleHash units = ToInt32 (foldl (λ a b, 31 * a + b)%Z 0%Z units)) as Hpoly.
  { unfold titleHash. induction units as [|b units IH] using rev_ind; [done|].
    rewrite !foldl_snoc, IH. apply titleHash_step. }
  split; [done|]. split; [rewrite Hpoly; apply ToInt32_range|].
  unfold fallback_rating. pose proof (Z.mod_pos_bound (Z.abs (titleHash units)) 20). lia.
Qed.

Lemma toUpperCase_not_hyphen (a : ascii) : a ≠ "-"%char → toUpperCase a ≠ "-"%char.
Proof.
  destruct a as [[] [] [] [] [] [] [] []]; vm_compute; congruence.
Qed.

Lemma length_replace_hyphens (s : string) :
  String.length (replace_hyphens s) = String.length s.
Proof. induction s as [|a s IH]; [done|]. cbn. by rewrite IH. Qed.

Lemma length_capitalize (after_word : bool) (s : string) :
  String.length (capitalize after_word s) = String.length s.
Proof.
  revert after_word. induction s as [|a s IH]; intros after_word; [done|].
  cbn. by rewrite IH.
Qed.

Lemma hyphen_free_replace_hyphens (s : string) : hyphen_free (replace_hyphens s).
Proof.
  unfold hyphen_free. induction s as [|a s IH]; [constructor|].
  cbn. constructor; [|done].
  destruct (Ascii.eqb_spec a "-"); [done|done].
Qed.

Lemma hyphen_free_capitalize (after_word : bool) (s : string) :
  hyphen_free s → hyphen_free (capitalize after_word s).
Proof.
  unfold hyphen_free. revert after_word.
  induction s as [|a s IH]; intros after_word Hs; [constructor|].
  cbn in *. apply Forall_cons in Hs as [Ha Hs]. constructor; [|by apply IH].
  destruct (is_word a && negb after_word); [by apply toUpperCase_not_hyphen|done].
Qed.

Lemma length_titleCase (part : string) : String.length (titleCase part) = String.length part.
Proof. unfold titleCase. by rewrite length_capitalize, length_replace_hyphens. Qed.

Lemma titleCase_nonempty (part : string) : part ≠ EmptyString → titleCase part ≠ EmptyString.
Proof.
  intros Hne Heq. apply Hne. pose proof (length_titleCase part) as Hlen.
  rewrite Heq in Hlen. by destruct part.
Qed.

Lemma hyphen_free_titleCase (part : string) : hyphen_free (titleCase part).
Proof. apply hyphen_free_capitalize, hyphen_free_replace_hyphens. Qed.

Lemma pathParts_nonempty (pathname : string) :
  Forall (λ part, part ≠ EmptyString) (pathParts pathname).
Proof.
  unfold pathParts. apply Forall_forall. intros part Hin.
  by apply list_elem_of_filter in Hin as [Hne _].
Qed.

Lemma manga_before_chapter_none (previous : option string) (parts : list string) :
  Forall (λ part, chapter_part part = false) parts →
  manga_before_chapter previous parts = None.
Proof.
  intros Hall. revert previous. induction Hall as [|part parts Hpart _ IH]; intros previous; [done|].
  cbv beta in Hpart. cbn [manga_before_chapter]. by rewrite Hpart.
Qed.

Lemma manga_before_chapter_found (previous : option string) (pre : list string) (m c : string)
    (post : list string) :
  Forall (λ part, chapter_part part = false) (pre ++ [m]) → chapter_part c = true →
  manga_before_chapter previous (pre ++ m :: c :: post) = Some (titleCase m).
Proof.
  revert previous. induction pre as [|p pre IH]; intros previous Hall Hc.
  - cbn [app] in Hall. apply Forall_cons in Hall as [Hm _]. cbv beta in Hm.
    cbn [app manga_before_chapter]. by rewrite Hm, Hc.
  - cbn [app] in Hall. apply Forall_cons in Hall as [Hp Hall]. cbv beta in Hp.
    cbn [app manga_before_chapter]. rewrite Hp. by apply IH.
Qed.

Lemma manga_before_chapter_some (previous : option string) (parts : list string) (title : string) :
  manga_before_chapter previous parts = Some title →
  ∃ part, part ∈ from_option (λ p, [p]) [] previous ++ parts ∧ title = titleCase part.
Proof.
  revert previous. induction parts as [|part parts IH]; intros previous; [done|].
  cbn [manga_before_chapter]. destruct (chapter_part part).
  - destruct previous as [p|].
    + intros [= <-]. exists p. split; [|done]. cbn. apply elem_of_cons. by left.
    + intros (q & Hq & ->)%IH. exists q. split; [exact Hq|done].
  - intros (q & Hq & ->)%IH. exists q. split; [|done]. cbn in Hq.
    apply elem_of_app. by right.
Qed.

Lemma list_find_chapter (pre : list string) (c : string) (post : list string) :
  Forall (λ part, chapter_part part = false) pre → chapter_part c = true →
  list_find (λ part, chapter_part part = true) (pre ++ c :: post) = Some (length pre, c).
Proof.
  intros Hall Hc. apply list_find_Some. split; [by apply list_lookup_middle|].
  split; [done|]. intros j y Hj Hlt. rewrite lookup_app_l in Hj by done.
  rewrite Forall_forall in Hall. intros Hy.
  rewrite (Hall y) in Hy; [done|]. by eapply list_elem_of_lookup_2.
Qed.

Lemma list_find_no_chapter (parts : list string) :
  Forall (λ part, chapter_part part = false) parts →
  list_find (λ part, chapter_part part = true) parts = None.
Proof.
  intros Hall. apply list_find_None. eapply Forall_impl; [exact Hall|].
  intros part ->. done.
Qed.

(** X23. The titles read from a chapter URL.  Neither function raises, and
    each returns a text that is not empty and has no hyphen.  When the
    first path segment that contains "ch" is not the first segment, the
    chapter title is that segment and the manga title the segment before
    it, both in title case.  When no segment contains "ch", they are the
    last segment and the one before it.  A string that is not a URL, or a
    URL without path segments, gives "Unknown Manga" and "Chapter". *)
Theorem extracted_titles (pathname : Result string) :
  let manga := extractMangaTitleFromUrl pathname in
  let chapter := extractChapterTitleFromUrl pathname in
  manga ≠ EmptyString ∧ chapter ≠ EmptyString ∧ hyphen_free manga ∧ hyphen_free chapter
  ∧ (∀ (p : string) (pre : list string) (m c : string) (post : list string),
       pathname = Ok p → pathParts p = pre ++ m :: c :: post →
       Forall (λ part, chapter_part part = false) (pre ++ [m]) → chapter_part c = true →
       manga = titleCase m ∧ chapter = titleCase c)
  ∧ (∀ (p : string) (pre : list string) (m l : string),
       pathname = Ok p → pathParts p = pre ++ [m; l] →
       Forall (λ part, chapter_part part = false) (pathParts p) →
       manga = titleCase m ∧ chapter = titleCase l)
  ∧ ((∃ e, pathname = Throw e) ∨ (∃ p, pathname = Ok p ∧ pathParts p = []) →
     manga = "Unknown Manga" ∧ chapter = "Chapter").
Proof.
  intros manga chapter.
  assert (manga ≠ EmptyString ∧ hyphen_free manga) as [Hm1 Hm2].
  { unfold manga, extractMangaTitleFromUrl. destruct pathname as [p|e].
    2: { split; [done|]. unfold hyphen_free. cbn. repeat constructor; done. }
    pose proof (pathParts_nonempty p) as Hparts.
    destruct (manga_before_chapter None (pathParts p)) as [title|] eqn:Hloop.
    - apply manga_before_chapter_some in Hloop as (part & Hin & ->). cbn in Hin.
      rewrite Forall_forall in Hparts.
      split; [by apply titleCase_nonempty, Hparts|apply hyphen_free_titleCase].
    - case_bool_decide as Hlen.
      2: { split; [done|]. unfold hyphen_free. cbn. repeat constructor; done. }
      destruct (pathParts p !! (length (pathParts p) - 2)%nat) as [part|] eqn:Hpart; cbn.
      + rewrite Forall_forall in Hparts.
        split; [|apply hyphen_free_titleCase].
        apply titleCase_nonempty, Hparts. by eapply list_elem_of_lookup_2.
      + split; [done|]. unfold hyphen_free. cbn. repeat constructor; done. }
  assert (chapter ≠ EmptyString ∧ hyphen_free chapter) as [Hc1 Hc2].
  { unfold chapter, extractChapterTitleFromUrl. destruct pathname as [p|e].
    2: { split; [done|]. unfold hyphen_free. cbn. repeat constructor; done. }
    pose proof (pathParts_nonempty p) as Hparts. rewrite Forall_forall in Hparts.
    destruct (list_find _ (pathParts p)) as [[i part]|] eqn:Hfind.
    - apply list_find_Some in Hfind as (Hi & _).
      split; [|apply hyphen_free_titleCase].
      apply titleCase_nonempty, Hparts. by eapply list_elem_of_lookup_2.
    - destruct (pathParts p !! (length (pathParts p) - 1)%nat) as [part|] eqn:Hpart.
      + split; [|apply hyphen_free_titleCase].
        apply titleCase_nonempty, Hparts. by eapply list_elem_of_lookup_2.
      + split; [done|]. unfold hyphen_free. cbn. repeat constructor; done. }
  split; [done|]. split; [done|]. split; [done|]. split; [done|].
  split; [|split].
  - intros p pre m c post -> Hparts Hall Hc.
    unfold manga, chapter, extractMangaTitleFromUrl, extractChapterTitleFromUrl.
    rewrite Hparts. rewrite manga_before_chapter_found by done. split; [done|].
    replace (pre ++ m :: c :: post) with ((pre ++ [m]) ++ c :: post)
      by (by rewrite <- app_assoc).
    by rewrite list_find_chapter.
  - intros p pre m l -> Hparts Hall.
    unfold manga, chapter, extractMangaTitleFromUrl, extractChapterTitleFromUrl.
    rewrite manga_before_chapter_none, list_find_no_chapter by done.
    rewrite Hparts. rewrite length_app. cbn [length].
    rewrite bool_decide_eq_true_2 by lia.
    replace (length pre + 2 - 2)%nat with (length pre) by lia.
    replace (length pre + 2 - 1)%nat with (length pre + 1)%nat by lia.
    rewrite list_lookup_middle by done. cbn. split; [done|].
    replace (pre ++ [m; l]) with ((pre ++ [m]) ++ [l]) by (by rewrite <- app_assoc).
    rewrite list_lookup_middle; [done|]. rewrite length_app. cbn. lia.
  - intros [[e ->]|(p & -> & Hparts)]; [done|].
    unfold manga, chapter, extractMangaTitleFromUrl, extractChapterTitleFromUrl.
    by rewrite Hparts.
Qed.

Lemma append_items_total {A Item : Type} (create : A → Result Item) (results : list A)
    (made items : list Item) :
  Forall2 (λ manga item, create manga = Ok item) results made →
  append_items create results items = (items ++ made, Ok ()).
Proof.
  intros Hall. revert items.
  induction Hall as [|manga item results made Hitem _ IH]; intros items; cbn [append_items].
  - by rewrite app_nil_r.
  - by rewrite Hitem, IH, <- app_assoc.
Qed.

Lemma append_items_raises {A Item : Type} (create : A → Result Item) (results : list A)
    (items : list Item) :
  Exists (λ manga, ∃ e, create manga = Throw e) results →
  ∃ e, (append_items create results items).2 = Throw e.
Proof.
  intros Hex. revert items.
  induction Hex as [manga results [e He]|manga results _ IH]; intros items; cbn [append_items].
  - rewrite He. by exists e.
  - destruct (create manga) as [item|e]; [apply IH|by exists e].
Qed.

(** X24. Live search.  A request is sent exactly for a query of two units
    or more that differs from the last query searched.  The last query
    is remembered whatever became of its request and is not forgotten
    when a shorter input hides the dropdown: entering it again sends
    nothing and leaves the dropdown hidden.  The dropdown lists the items
    of at most 7 results, the first ones, in their order; it shows the
    failure message when the request fails or an item of these results
    cannot be created. *)
Theorem live_search {A Item : Type} (create : A → Result Item) (query short : list Z)
    (app : AppState) (box : Dropdown Item) :
  (2 ≤ length query)%nat → (length short < 2)%nat → query ≠ lastSearchQuery app →
  ∃ (app1 : AppState) (box1 box2 : Dropdown Item),
    handleLiveSearch_send query app (Some box) = (Ok (Some query), app1, Some box1)
    ∧ dropdown_display box1 = display_block
    ∧ (∀ box' : Dropdown Item,
         handleLiveSearch_send query app1 (Some box') = (Ok None, app1, Some box'))
    ∧ handleLiveSearch_send short app1 (Some box1) = (Ok None, app1, Some box2)
    ∧ dropdown_display box2 = display_none
    ∧ handleLiveSearch_send query app1 (Some box2) = (Ok None, app1, Some box2)
    ∧ (∀ (results : list A) (items : list Item),
         results ≠ [] →
         Forall2 (λ manga item, create manga = Ok item) (take 7 results) items →
         dropdown_content (handleLiveSearch_receive create (Ok {| data := Some results |}) box1)
         = dropdown_items items)
    ∧ (∀ results : list A,
         Exists (λ manga, ∃ e, create manga = Throw e) (take 7 results) →
         dropdown_content (handleLiveSearch_receive create (Ok {| data := Some results |}) box1)
         = dropdown_failed)
    ∧ (∀ e, dropdown_content (handleLiveSearch_receive create (Throw e) box1) = dropdown_failed).
Proof.
  intros Hq Hs Hnew.
  eexists _, _, _. split.
  { unfold handleLiveSearch_send.
    rewrite bool_decide_eq_false_2 by lia. rewrite bool_decide_eq_false_2 by done. reflexivity. }
  split; [done|]. split.
  { intros box'. unfold handleLiveSearch_send. cbn [lastSearchQuery].
    rewrite bool_decide_eq_false_2 by lia. by rewrite bool_decide_eq_true_2. }
  split.
  { unfold handleLiveSearch_send. rewrite bool_decide_eq_true_2 by lia. reflexivity. }
  split; [done|]. split.
  { unfold handleLiveSearch_send. cbn [lastSearchQuery].
    rewrite bool_decide_eq_false_2 by lia. by rewrite bool_decide_eq_true_2. }
  assert (∀ l : list A, slice 0 7 l = take 7 l) as Hslice.
  { intros l. unfold slice. by rewrite Nat.sub_0_r, drop_0. }
  split; [|split; [|done]].
  - intros results items Hne Hitems. destruct results as [|x rest]; [done|].
    unfold handleLiveSearch_receive, displaySearchResults. cbn [data]. cbv zeta.
    rewrite Hslice, (append_items_total create _ items) by done. done.
  - intros results Hex. destruct results as [|x rest]; [by apply Exists_nil in Hex|].
    unfold handleLiveSearch_receive, displaySearchResults. cbn [data]. cbv zeta.
    rewrite Hslice. destruct (append_items_raises create _ [] Hex) as [e He].
    destruct (append_items create (take 7 (x :: rest)) []) as [made out].
    cbn [snd] in He. rewrite He. done.
Qed.

Lemma live_search_witness :
  ∃ (app1 : AppState) (box1 : Dropdown nat),
    handleLiveSearch_send query_so home_app (Some closed_dropdown)
    = (Ok (Some query_so), app1, Some box1)
    ∧ dropdown_display box1 = display_block.
Proof.
  destruct (@live_search nat nat (λ a, Ok a) query_so query_s home_app closed_dropdown
              ltac:(cbn; lia) ltac:(cbn; lia) ltac:(discriminate))
    as (app1 & box1 & box2 & Hsend & Hshown & _).
  exists app1, box1. split; [exact Hsend|exact Hshown].
Defined.

End SiteTheory.
